(** * Hailo detection pipelines: a shallow embedding of the two launcher scripts

    The repository holds two Python scripts,
    [detection_tiling_pipeline.py] (module [Tiling] below) and
    [detection_preserve_resolution_pipeline.py] (module [Preserve]).  Each
    parses a command line, validates paths (and, for the tiling script,
    parameters), assembles a textual GStreamer graph description, and drives
    the graph from a GLib main loop.

    The first half of the file holds the embedding: the parts of the Python
    runtime the scripts rely on (module [Py]), argparse (module [Argparse]),
    the GStreamer/GLib surface the scripts touch (module [Gst]) and the two
    scripts.  The second half holds the properties. *)

From Stdlib Require Import ZArith QArith Qpower String Ascii List Lia Bool.
From Stdlib Require Import Floats.SpecFloat DecimalString.
From stdpp Require Import gmap strings list.

Local Open Scope string_scope.
Local Open Scope Z_scope.

(* ===================================================================== *)
(** * The Python runtime, as far as the scripts use it                    *)
(* ===================================================================== *)

Module Py.

(** ** Exceptions and results *)

(** The operating-system errors [os.mkdir] can end with in this model. *)
Inductive errno := ENOENT | EEXIST | ENOTDIR.

(** The exceptions that occur in the scripts.  [OSError] stands for the
    subclasses of [OSError] other than [FileNotFoundError]
    ([FileExistsError], [NotADirectoryError]); [FileNotFoundError] carries
    the message given to its constructor, or the text of the system error
    when [os.mkdir] raised it.  [SystemExit] and [KeyboardInterrupt] derive
    from [BaseException] only, everything else from [Exception]. *)
Inductive exn :=
| FileNotFoundError (msg : string)
| ValueError (msg : string)
| OSError (e : errno) (path : string)
| GLibError (msg : string)
| KeyboardInterrupt
| SystemExit (code : Z).

Definition is_Exception (e : exn) : bool :=
  match e with
  | KeyboardInterrupt | SystemExit _ => false
  | _ => true
  end.

(** A call either returns a value or raises. *)
Inductive res (A : Type) :=
| Ok (a : A)
| Raise (e : exn).
Arguments Ok {A} a.
Arguments Raise {A} e.

Definition bind {A B} (r : res A) (k : A -> res B) : res B :=
  match r with
  | Ok a => k a
  | Raise e => Raise e
  end.

(** ** [int] and [str] *)

(** [str(n)] for an [int]. *)
Definition str_int (n : Z) : string := NilZero.string_of_int (Z.to_int n).

(** [str(b)] for a [bool]. *)
Definition str_bool (b : bool) : string := if b then "True" else "False".

(** A [str] is modelled by a [string]: the code points below 256. *)
Definition ascii_lower (c : ascii) : ascii :=
  let n := nat_of_ascii c in
  if ((65 <=? n)%nat && (n <=? 90)%nat) || ((192 <=? n)%nat && (n <=? 222)%nat && negb (n =? 215)%nat)
  then ascii_of_nat (n + 32) else c.

(** [s.lower()]. *)
Fixpoint lower (s : string) : string :=
  match s with
  | EmptyString => EmptyString
  | String c s' => String (ascii_lower c) (lower s')
  end.

(** [s * n]. *)
Fixpoint str_mul (s : string) (n : nat) : string :=
  match n with
  | O => EmptyString
  | S n' => s ++ str_mul s n'
  end.

(** [c.isspace()], which decides where [str.split()] cuts: the characters
    9 to 13, 28 to 32, 133 and 160. *)
Definition isspace (c : ascii) : bool :=
  let n := nat_of_ascii c in
  ((9 <=? n)%nat && (n <=? 13)%nat) || ((28 <=? n)%nat && (n <=? 32)%nat)
  || (n =? 133)%nat || (n =? 160)%nat.

(** The scanner behind [s.split()]: [cur] is the word being read. *)
Definition flush (cur : string) : list string :=
  match cur with
  | EmptyString => []
  | _ => [cur]
  end.

Fixpoint split_from (cur : string) (s : string) : list string :=
  match s with
  | EmptyString => flush cur
  | String c s' =>
      if isspace c then (flush cur ++ split_from EmptyString s')%list
      else split_from (cur ++ String c EmptyString) s'
  end.

(** [s.split()]: the maximal runs of characters that are not white space. *)
Definition split (s : string) : list string := split_from EmptyString s.

(** [sep.join(ws)]. *)
Fixpoint join (sep : string) (ws : list string) : string :=
  match ws with
  | [] => EmptyString
  | [w] => w
  | w :: ws' => w ++ sep ++ join sep ws'
  end.

(** [sub in s]. *)
Fixpoint contains (sub s : string) : bool :=
  String.prefix sub s ||
  match s with
  | EmptyString => false
  | String _ s' => contains sub s'
  end.

(** [s.replace(old, new)] for a non-empty [old]: the occurrences of [old]
    from left to right, none overlapping another; [skip] counts the
    characters of a replaced occurrence still to pass. *)
Fixpoint replace_from (old new : string) (skip : nat) (s : string) : string :=
  match s with
  | EmptyString => EmptyString
  | String c s' =>
      match skip with
      | S k => replace_from old new k s'
      | O =>
          if String.prefix old s
          then new ++ replace_from old new (String.length old - 1) s'
          else String c (replace_from old new 0 s')
      end
  end.

Definition replace (old new s : string) : string := replace_from old new 0 s.

(** [s.startswith(p)]. *)
Definition startswith (s p : string) : bool := String.prefix p s.

(** The characters that have no place inside a Rocq string literal. *)
Definition nl : string := String (ascii_of_nat 10) EmptyString.
Definition cr : string := String (ascii_of_nat 13) EmptyString.
Definition dq : string := String (ascii_of_nat 34) EmptyString.
Definition sq : string := String (ascii_of_nat 39) EmptyString.

(** The text of a system error, before the path it names. *)
Definition errno_text (e : errno) : string :=
  match e with
  | ENOENT => "[Errno 2] No such file or directory: "
  | EEXIST => "[Errno 17] File exists: "
  | ENOTDIR => "[Errno 20] Not a directory: "
  end.

(** [str(e)] for an exception. *)
Definition exn_str (e : exn) : string :=
  match e with
  | FileNotFoundError msg | ValueError msg | GLibError msg => msg
  | OSError e path => errno_text e ++ sq ++ path ++ sq
  | KeyboardInterrupt => EmptyString
  | SystemExit code => str_int code
  end.

(** ** pathlib

    A [PurePosixPath]: its root (none, one slash, or exactly two) and
    its parts after the root.  Parsing drops empty parts and single dots
    and keeps double dots. *)
Inductive anchor := Relative | Root | Root2.

Record Path := { root : anchor; parts : list string }.

#[global] Instance anchor_eq_dec : EqDecision anchor.
Proof. solve_decision. Defined.
#[global] Instance Path_eq_dec : EqDecision Path.
Proof. solve_decision. Defined.

(** [s.split(c)] on one character, empty pieces kept. *)
Fixpoint split_on (c : ascii) (cur : list ascii) (s : string) : list string :=
  match s with
  | EmptyString => [string_of_list_ascii (rev cur)]
  | String a s' =>
      if Ascii.eqb a c then string_of_list_ascii (rev cur) :: split_on c [] s'
      else split_on c (a :: cur) s'
  end.

Definition slash : ascii := ascii_of_nat 47.

Definition root_of (s : string) : anchor :=
  match s with
  | String a (String b (String c _)) =>
      if Ascii.eqb a slash
      then if Ascii.eqb b slash
           then if Ascii.eqb c slash then Root else Root2
           else Root
      else Relative
  | String a (String b EmptyString) =>
      if Ascii.eqb a slash then if Ascii.eqb b slash then Root2 else Root
      else Relative
  | String a EmptyString => if Ascii.eqb a slash then Root else Relative
  | EmptyString => Relative
  end.

Definition is_part (w : string) : bool :=
  negb (String.eqb w EmptyString) && negb (String.eqb w ".").

(** [Path(s)]. *)
Definition Path_of (s : string) : Path :=
  {| root := root_of s; parts := List.filter is_part (split_on slash [] s) |}.

(** [p.parent]: the path without its last part; a path without parts is
    its own parent. *)
Definition parent (p : Path) : Path :=
  {| root := root p; parts := removelast (parts p) |}.

(** [str(p)]. *)
Definition str_path (p : Path) : string :=
  match root p, parts p with
  | Relative, [] => "."
  | Relative, ps => join "/" ps
  | Root, ps => "/" ++ join "/" ps
  | Root2, ps => "//" ++ join "/" ps
  end.

(** ** The file system

    Files and directories by absolute path, the parts from the root on;
    the root directory itself is always there.  There are no symbolic
    links and no permissions: the only ways a call fails are a missing
    entry, an entry in the way, and a file where a directory is needed. *)
Inductive node := File | Dir.

Record FS := { cwd : list string; nodes : gmap (list string) node }.

Definition node_at (t : gmap (list string) node) (p : list string) : option node :=
  match p with
  | [] => Some Dir
  | _ => t !! p
  end.

(** Path resolution by the kernel: every part is looked up in the
    directory reached so far, a double dot leads to the directory above.
    The entry reached by the last part need not exist. *)
Fixpoint walk (t : gmap (list string) node) (cur : list string) (ps : list string)
  : errno + list string :=
  match ps with
  | [] => inr cur
  | c :: ps' =>
      match node_at t cur with
      | Some Dir =>
          walk t (if String.eqb c ".." then removelast cur else (cur ++ [c])%list) ps'
      | Some File => inl ENOTDIR
      | None => inl ENOENT
      end
  end.

Definition resolve (fs : FS) (p : Path) : errno + list string :=
  walk (nodes fs) (match root p with Relative => cwd fs | _ => [] end) (parts p).

(** [p.exists()]. *)
Definition exists_ (fs : FS) (p : Path) : bool :=
  match resolve fs p with
  | inr q => match node_at (nodes fs) q with Some _ => true | None => false end
  | inl _ => false
  end.

(** [p.is_dir()]. *)
Definition is_dir (fs : FS) (p : Path) : bool :=
  match resolve fs p with
  | inr q => match node_at (nodes fs) q with Some Dir => true | _ => false end
  | inl _ => false
  end.

(** [os.mkdir(p)]. *)
Definition os_mkdir (fs : FS) (p : Path) : errno + FS :=
  match resolve fs p with
  | inl e => inl e
  | inr q =>
      match node_at (nodes fs) q with
      | Some _ => inl EEXIST
      | None => inr {| cwd := cwd fs; nodes := <[q := Dir]> (nodes fs) |}
      end
  end.

(** The exception [os.mkdir] raises for an error number. *)
Definition os_error (e : errno) (p : Path) : exn :=
  match e with
  | ENOENT => FileNotFoundError (errno_text ENOENT ++ sq ++ str_path p ++ sq)
  | _ => OSError e (str_path p)
  end.

(** [p.mkdir(parents=False, exist_ok=True)]. *)
Definition mkdir_exist_ok (fs : FS) (p : Path) : res unit * FS :=
  match os_mkdir fs p with
  | inr fs' => (Ok tt, fs')
  | inl ENOENT => (Raise (os_error ENOENT p), fs)
  | inl e => if is_dir fs p then (Ok tt, fs) else (Raise (os_error e p), fs)
  end.

(** [p.mkdir(parents=True, exist_ok=True)] for the path with root [r] and
    parts [rev rps]: pathlib tries [os.mkdir] first, and only on a
    missing parent creates the parent the same way and tries once
    more. *)
Fixpoint mkdir_parents (fs : FS) (r : anchor) (rps : list string) : res unit * FS :=
  let p := {| root := r; parts := rev rps |} in
  match os_mkdir fs p with
  | inr fs' => (Ok tt, fs')
  | inl ENOENT =>
      match rps with
      | [] => (Raise (os_error ENOENT p), fs)
      | _ :: rps' =>
          match mkdir_parents fs r rps' with
          | (Ok _, fs1) => mkdir_exist_ok fs1 p
          | (Raise e, fs1) => (Raise e, fs1)
          end
      end
  | inl e => if is_dir fs p then (Ok tt, fs) else (Raise (os_error e p), fs)
  end.

Definition mkdir (fs : FS) (p : Path) : res unit * FS :=
  mkdir_parents fs (root p) (rev (parts p)).

(** ** [float] *)

(** A [float] is an IEEE 754 binary64 number: [spec_float] with precision
    53 and maximal exponent 1024.  [is_binary64] holds of the values a
    Python [float] can take. *)
Definition float := spec_float.
Definition is_binary64 (x : float) : bool := valid_binary 53 1024 x.

Definition float_0_0 : float := S754_zero false.
Definition float_1_0 : float := S754_finite false 4503599627370496 (-52).

(** [x <= y] on floats: false as soon as one side is a NaN. *)
Definition float_le (x y : float) : bool := SFleb x y.

(** The real number a float stands for; infinities and NaN stand for
    none. *)
Definition float_value (x : float) : option Q :=
  match x with
  | S754_zero _ => Some 0%Q
  | S754_finite s m e =>
      Some (inject_Z (if s then Z.neg m else Z.pos m) * Qpower 2 e)%Q
  | S754_infinity _ | S754_nan => None
  end.

(** What the scripts take from the interpreter without this file
    defining it: the text of a float ([str(x)], also what an f-string
    writes for [{x}]), its text as a percentage with one decimal
    ([{x:.1%}]), and the conversions [int(s)] and [float(s)] that argparse
    applies to an option's argument ([None]: the conversion raises
    [ValueError]). *)
Class Builtins := {
  str_float : float -> string;
  format_pct1 : float -> string;
  int_of_str : string -> option Z;
  float_of_str : string -> option float
}.

End Py.

(* ===================================================================== *)
(** * argparse                                                            *)
(* ===================================================================== *)

(** [ArgumentParser.parse_args] of CPython 3.11, for parsers such as the
    two scripts build: optional arguments only, each taking one argument
    ([action="store"], the default) or none ([action="store_true"], and
    the [-h]/[--help] every parser has).  The parser exits with status 2
    on a command line it rejects and with status 0 after printing its
    help; what it writes on the way is left out. *)
Module Argparse.
Import Py.

Section Parser.
Context {NS : Type}.

Inductive action_kind :=
| Store (convert : string -> option (NS -> NS))
| StoreTrue (set : NS -> NS)
| Help.

Record Action := {
  option_strings : list string;
  dest : string;
  kind : action_kind;
  required : bool
}.

(** [parser._option_string_actions], in insertion order. *)
Definition option_string_actions (parser : list Action) : list (string * Action) :=
  flat_map (fun a => List.map (fun o => (o, a)) (option_strings a)) parser.

Fixpoint lookup_option (m : list (string * Action)) (o : string) : option Action :=
  match m with
  | [] => None
  | (o', a) :: m' => if String.eqb o o' then Some a else lookup_option m' o
  end.

(** How [_parse_known_args] classifies an argument string: ['A'], ['O']
    with the tuple [_parse_optional] returned, or ['-'] for the first
    [--]. *)
Inductive arg_class :=
| Positional
| Optional (a : option Action) (option_string : string) (explicit_arg : option string)
| DashDash.

Definition dash : ascii := ascii_of_nat 45.

(** [s.split('=', 1)] when [s] holds an equals sign. *)
Fixpoint partition_eq (cur : list ascii) (s : string) : option (string * string) :=
  match s with
  | EmptyString => None
  | String c s' =>
      if Ascii.eqb c (ascii_of_nat 61) then Some (string_of_list_ascii (rev cur), s')
      else partition_eq (c :: cur) s'
  end.

Definition is_digit (c : ascii) : bool :=
  let n := nat_of_ascii c in (48 <=? n)%nat && (n <=? 57)%nat.

Fixpoint all_digits (s : string) : bool :=
  match s with
  | EmptyString => true
  | String c s' => is_digit c && all_digits s'
  end.

Fixpoint drop_digits (s : string) : string :=
  match s with
  | String c s' => if is_digit c then drop_digits s' else s
  | EmptyString => s
  end.

Fixpoint strip_final_nl (s : string) : string :=
  match s with
  | EmptyString => EmptyString
  | String c EmptyString => if Ascii.eqb c (ascii_of_nat 10) then EmptyString else s
  | String c s' => String c (strip_final_nl s')
  end.

Definition nonempty_digits (s : string) : bool :=
  negb (String.eqb s EmptyString) && all_digits s.

(** [_negative_number_matcher.match(s)]: the pattern is
    [^-\d+$|^-\d*\.\d+$], and [$] also matches before a final newline. *)
Definition negative_number_like (s : string) : bool :=
  match strip_final_nl s with
  | String c body =>
      Ascii.eqb c dash &&
      (nonempty_digits body ||
       match drop_digits body with
       | String d frac => Ascii.eqb d (ascii_of_nat 46) && nonempty_digits frac
       | EmptyString => false
       end)
  | EmptyString => false
  end.

Definition has_negative_number_optionals (parser : list Action) : bool :=
  existsb (fun oa => negative_number_like (fst oa)) (option_string_actions parser).

Definition second_is_dash (s : string) : bool :=
  match s with
  | String _ (String c _) => Ascii.eqb c dash
  | _ => false
  end.

(** [_get_option_tuples]: the options an abbreviated or clumped string
    can stand for. *)
Definition get_option_tuples (parser : list Action) (s : string) : list arg_class :=
  if second_is_dash s then
    let (option_prefix, explicit_arg) :=
      match partition_eq [] s with
      | Some (pre, ex) => (pre, Some ex)
      | None => (s, None)
      end in
    flat_map (fun oa : string * Action =>
                if startswith (fst oa) option_prefix
                then [Optional (Some (snd oa)) (fst oa) explicit_arg] else [])
             (option_string_actions parser)
  else
    let short_option_prefix := String.substring 0 2 s in
    let short_explicit_arg := String.substring 2 (String.length s - 2) s in
    flat_map (fun oa : string * Action =>
                if String.eqb (fst oa) short_option_prefix
                then [Optional (Some (snd oa)) (fst oa) (Some short_explicit_arg)]
                else if startswith (fst oa) s
                then [Optional (Some (snd oa)) (fst oa) None] else [])
             (option_string_actions parser).

(** [_parse_optional]; [None] is the error for an ambiguous
    abbreviation. *)
Definition parse_optional (parser : list Action) (s : string) : option arg_class :=
  match s with
  | EmptyString => Some Positional
  | String c _ =>
      if negb (Ascii.eqb c dash) then Some Positional else
      match lookup_option (option_string_actions parser) s with
      | Some a => Some (Optional (Some a) s None)
      | None =>
          if (String.length s =? 1)%nat then Some Positional else
          let by_eq :=
            match partition_eq [] s with
            | Some (o, ex) =>
                match lookup_option (option_string_actions parser) o with
                | Some a => Some (Optional (Some a) o (Some ex))
                | None => None
                end
            | None => None
            end in
          match by_eq with
          | Some k => Some k
          | None =>
              match get_option_tuples parser s with
              | _ :: _ :: _ => None
              | [k] => Some k
              | [] =>
                  if negative_number_like s && negb (has_negative_number_optionals parser)
                  then Some Positional
                  else if contains " " s then Some Positional
                  else Some (Optional None s None)
              end
          end
      end
  end.

(** The pattern of the whole command line: everything after the first
    [--] is an argument. *)
Fixpoint classify (parser : list Action) (args : list string)
  : option (list (string * arg_class)) :=
  match args with
  | [] => Some []
  | s :: rest =>
      if String.eqb s "--"
      then Some ((s, DashDash) :: List.map (fun x => (x, Positional)) rest)
      else match parse_optional parser s, classify parser rest with
           | Some k, Some ks => Some ((s, k) :: ks)
           | _, _ => None
           end
  end.

(** The parse in progress: the namespace, the [dest] of the actions
    seen, and whether a string was left over. *)
Record state := { namespace : NS; seen : list string; extras : bool }.

(** [take_action]. *)
Definition take_action (a : Action) (arg : option string) (st : state) : res state :=
  match kind a, arg with
  | Store convert, Some v =>
      match convert v with
      | Some f => Ok {| namespace := f (namespace st); seen := dest a :: seen st;
                        extras := extras st |}
      | None => Raise (SystemExit 2)
      end
  | Store _, None => Raise (SystemExit 2)
  | StoreTrue f, _ =>
      Ok {| namespace := f (namespace st); seen := dest a :: seen st; extras := extras st |}
  | Help, _ => Raise (SystemExit 0)
  end.

Fixpoint take_actions (tuples : list (Action * option string)) (st : state) : res state :=
  match tuples with
  | [] => Ok st
  | (a, arg) :: rest => bind (take_action a arg st) (take_actions rest)
  end.

(** The loop of [consume_optional] for an option with an explicit
    argument: the actions found in the string, and the action, if any,
    that is left to take its argument from the strings that follow.
    [None] is the error for an explicit argument nobody takes. *)
Fixpoint clump (m : list (string * Action)) (a : Action) (option_string ex : string)
  : option (list (Action * option string) * option Action) :=
  match kind a with
  | Store _ => Some ([(a, Some ex)], None)
  | _ =>
      if second_is_dash option_string then None else
      match ex with
      | EmptyString => None
      | String c ex' =>
          let option_string' := String dash (String c EmptyString) in
          match lookup_option m option_string' with
          | None => None
          | Some a' =>
              match ex' with
              | EmptyString => Some ([(a, None)], Some a')
              | _ =>
                  match clump m a' option_string' ex' with
                  | Some (tuples, last) => Some ((a, None) :: tuples, last)
                  | None => None
                  end
              end
          end
      end
  end.

Definition leave_extra (st : state) : state :=
  {| namespace := namespace st; seen := seen st; extras := true |}.

(** The main loop of [_parse_known_args]: strings no option takes are
    left over, an option takes the argument that follows it. *)
Fixpoint consume (m : list (string * Action)) (items : list (string * arg_class))
    (st : state) : res state :=
  match items with
  | [] => Ok st
  | (_, Positional) :: rest | (_, DashDash) :: rest
  | (_, Optional None _ _) :: rest => consume m rest (leave_extra st)
  | (_, Optional (Some a) option_string explicit_arg) :: rest =>
      let found :=
        match explicit_arg with
        | Some ex => clump m a option_string ex
        | None => Some ([], Some a)
        end in
      match found with
      | None => Raise (SystemExit 2)
      | Some (tuples, None) => bind (take_actions tuples st) (consume m rest)
      | Some (tuples, Some a') =>
          match kind a' with
          | Store _ =>
              match rest with
              | (v, Positional) :: rest' =>
                  bind (take_actions (tuples ++ [(a', Some v)])%list st) (consume m rest')
              | _ => Raise (SystemExit 2)
              end
          | _ => bind (take_actions (tuples ++ [(a', None)])%list st) (consume m rest)
          end
      end
  end.

Definition missing_required (parser : list Action) (st : state) : bool :=
  existsb (fun a => required a && negb (existsb (String.eqb (dest a)) (seen st))) parser.

(** [parser.parse_args(argv)], with the namespace of the defaults. *)
Definition parse_args (parser : list Action) (defaults : NS) (argv : list string) : res NS :=
  match classify parser argv with
  | None => Raise (SystemExit 2)
  | Some items =>
      bind (consume (option_string_actions parser) items
              {| namespace := defaults; seen := []; extras := false |})
           (fun st =>
              if missing_required parser st then Raise (SystemExit 2)
              else if extras st then Raise (SystemExit 2)
              else Ok (namespace st))
  end.

(** The action [ArgumentParser()] starts with. *)
Definition help_action : Action :=
  {| option_strings := ["-h"; "--help"]; dest := "help"; kind := Help; required := false |}.

End Parser.
Arguments Action : clear implicits.
Arguments action_kind : clear implicits.
Arguments arg_class : clear implicits.
Arguments state : clear implicits.
End Argparse.

(* ===================================================================== *)
(** * GStreamer and GLib, as the scripts see them                         *)
(* ===================================================================== *)

Module Gst.
Import Py.

Inductive State := NULL | READY | PAUSED | PLAYING.

Inductive StateChangeReturn := FAILURE | SUCCESS | ASYNC | NO_PREROLL.

(** A bus message, by [message.type], with what the handlers read from
    it: the texts of [parse_error] and [parse_warning] (the debug text
    may be [None]), whether a state change comes from the pipeline
    itself and the nicknames of its states, the text of a stream
    status.  [OTHER] stands for every other message type. *)
Inductive Message :=
| ERROR (err : string) (debug : option string)
| EOS
| WARNING (warn : string) (debug : option string)
| STATE_CHANGED (src_is_pipeline : bool) (old_state new_state : string)
| STREAM_STATUS (status : string)
| OTHER.

(** What happens while [loop.run()] is running: the bus delivers a
    message, a buffer leaves the source pad of the probed element, or
    the user interrupts the process. *)
Inductive Event :=
| Deliver (m : Message)
| Buffer
| Interrupt.

(** An element found by [get_by_name]: which static pads it has. *)
Record Element := { get_static_pad : string -> bool }.

(** The pipeline [Gst.parse_launch] returns, with what it will do: the
    elements it holds by name, what [set_state(PLAYING)] returns, and
    the events of the run. *)
Record Pipeline := {
  get_by_name : string -> option Element;
  set_state_playing : StateChangeReturn;
  events : list Event
}.

(** [Gst.parse_launch]: a pipeline, or a [GLib.Error] with its text. *)
Definition Launcher := string -> string + Pipeline.

End Gst.

(** What a script does that the outside can see, in order: text written
    to standard output, a traceback written by [traceback.print_exc],
    and the state changes it asks of the pipeline. *)
Inductive effect :=
| Print (text : string)
| PrintExc
| SetState (s : Gst.State).

(** [print(s)] and [print(s, end=e)]. *)
Definition print (s : string) : effect := Print (s ++ Py.nl).
Definition print_end (s e : string) : effect := Print (s ++ e).

(** How a call of [main] ends: the status [sys.exit] passes on, an
    exception nothing catches, or no end at all when the main loop waits
    for an event that never comes. *)
Inductive ending :=
| Exit (code : Z)
| Uncaught
| Blocked.

(* ===================================================================== *)
(** * detection_tiling_pipeline.py                                        *)
(* ===================================================================== *)

Module Tiling.
Import Py.

(** ** Configuration constants *)

Definition DEFAULT_HEF_PATH : string :=
  "/usr/local/hailo/resources/models/hailo8/yolov11m.hef".
Definition DEFAULT_POSTPROCESS_SO : string :=
  "/usr/local/hailo/resources/so/libyolo_hailortpp_postprocess.so".

Definition TILES_X : Z := 2.
Definition TILES_Y : Z := 2.
(** 0.2, 0.3 and 0.1 as binary64 numbers. *)
Definition OVERLAP_X : float := S754_finite false 7205759403792794 (-55).
Definition OVERLAP_Y : float := S754_finite false 7205759403792794 (-55).
Definition TILING_MODE : Z := 0.
Definition TILE_WIDTH : Z := 640.
Definition TILE_HEIGHT : Z := 640.
Definition IOU_THRESHOLD : float := S754_finite false 5404319552844595 (-54).
Definition BORDER_THRESHOLD : float := S754_finite false 7205759403792794 (-56).
Definition REMOVE_LARGE_LANDSCAPE : bool := true.
Definition BITRATE : Z := 4000.
Definition ENCODING_PRESET : string := "ultrafast".

(** ** The parsed arguments

    The namespace [parse_args] returns, with the types the argparse
    declarations give its attributes. *)
Record Namespace := {
  input : string;
  output : string;
  hef : string;
  postprocess_so : string;
  tiles_x : Z;
  tiles_y : Z;
  overlap_x : float;
  overlap_y : float;
  tiling_mode : Z;
  tile_width : Z;
  tile_height : Z;
  iou_threshold : float;
  border_threshold : float;
  remove_large_landscape : bool;
  bitrate : Z;
  debug : bool
}.

(** ** [parse_args] *)

(** [setattr(namespace, dest, v)], one per attribute. *)
Definition set_input (v : string) (a : Namespace) : Namespace :=
    {| input := v; output := output a; hef := hef a;
     postprocess_so := postprocess_so a; tiles_x := tiles_x a; tiles_y := tiles_y a;
     overlap_x := overlap_x a; overlap_y := overlap_y a; tiling_mode := tiling_mode a;
     tile_width := tile_width a; tile_height := tile_height a;
     iou_threshold := iou_threshold a; border_threshold := border_threshold a;
     remove_large_landscape := remove_large_landscape a; bitrate := bitrate a;
     debug := debug a |}.
Definition set_output (v : string) (a : Namespace) : Namespace :=
    {| input := input a; output := v; hef := hef a; postprocess_so := postprocess_so a;
     tiles_x := tiles_x a; tiles_y := tiles_y a; overlap_x := overlap_x a;
     overlap_y := overlap_y a; tiling_mode := tiling_mode a;
     tile_width := tile_width a; tile_height := tile_height a;
     iou_threshold := iou_threshold a; border_threshold := border_threshold a;
     remove_large_landscape := remove_large_landscape a; bitrate := bitrate a;
     debug := debug a |}.
Definition set_hef (v : string) (a : Namespace) : Namespace :=
    {| input := input a; output := output a; hef := v;
     postprocess_so := postprocess_so a; tiles_x := tiles_x a; tiles_y := tiles_y a;
     overlap_x := overlap_x a; overlap_y := overlap_y a; tiling_mode := tiling_mode a;
     tile_width := tile_width a; tile_height := tile_height a;
     iou_threshold := iou_threshold a; border_threshold := border_threshold a;
     remove_large_landscape := remove_large_landscape a; bitrate := bitrate a;
     debug := debug a |}.
Definition set_postprocess_so (v : string) (a : Namespace) : Namespace :=
    {| input := input a; output := output a; hef := hef a; postprocess_so := v;
     tiles_x := tiles_x a; tiles_y := tiles_y a; overlap_x := overlap_x a;
     overlap_y := overlap_y a; tiling_mode := tiling_mode a;
     tile_width := tile_width a; tile_height := tile_height a;
     iou_threshold := iou_threshold a; border_threshold := border_threshold a;
     remove_large_landscape := remove_large_landscape a; bitrate := bitrate a;
     debug := debug a |}.
Definition set_tiles_x (v : Z) (a : Namespace) : Namespace :=
    {| input := input a; output := output a; hef := hef a;
     postprocess_so := postprocess_so a; tiles_x := v; tiles_y := tiles_y a;
     overlap_x := overlap_x a; overlap_y := overlap_y a; tiling_mode := tiling_mode a;
     tile_width := tile_width a; tile_height := tile_height a;
     iou_threshold := iou_threshold a; border_threshold := border_threshold a;
     remove_large_landscape := remove_large_landscape a; bitrate := bitrate a;
     debug := debug a |}.
Definition set_tiles_y (v : Z) (a : Namespace) : Namespace :=
    {| input := input a; output := output a; hef := hef a;
     postprocess_so := postprocess_so a; tiles_x := tiles_x a; tiles_y := v;
     overlap_x := overlap_x a; overlap_y := overlap_y a; tiling_mode := tiling_mode a;
     tile_width := tile_width a; tile_height := tile_height a;
     iou_threshold := iou_threshold a; border_threshold := border_threshold a;
     remove_large_landscape := remove_large_landscape a; bitrate := bitrate a;
     debug := debug a |}.
Definition set_overlap_x (v : float) (a : Namespace) : Namespace :=
    {| input := input a; output := output a; hef := hef a;
     postprocess_so := postprocess_so a; tiles_x := tiles_x a; tiles_y := tiles_y a;
     overlap_x := v; overlap_y := overlap_y a; tiling_mode := tiling_mode a;
     tile_width := tile_width a; tile_height := tile_height a;
     iou_threshold := iou_threshold a; border_threshold := border_threshold a;
     remove_large_landscape := remove_large_landscape a; bitrate := bitrate a;
     debug := debug a |}.
Definition set_overlap_y (v : float) (a : Namespace) : Namespace :=
    {| input := input a; output := output a; hef := hef a;
     postprocess_so := postprocess_so a; tiles_x := tiles_x a; tiles_y := tiles_y a;
     overlap_x := overlap_x a; overlap_y := v; tiling_mode := tiling_mode a;
     tile_width := tile_width a; tile_height := tile_height a;
     iou_threshold := iou_threshold a; border_threshold := border_threshold a;
     remove_large_landscape := remove_large_landscape a; bitrate := bitrate a;
     debug := debug a |}.
Definition set_tiling_mode (v : Z) (a : Namespace) : Namespace :=
    {| input := input a; output := output a; hef := hef a;
     postprocess_so := postprocess_so a; tiles_x := tiles_x a; tiles_y := tiles_y a;
     overlap_x := overlap_x a; overlap_y := overlap_y a; tiling_mode := v;
     tile_width := tile_width a; tile_height := tile_height a;
     iou_threshold := iou_threshold a; border_threshold := border_threshold a;
     remove_large_landscape := remove_large_landscape a; bitrate := bitrate a;
     debug := debug a |}.
Definition set_tile_width (v : Z) (a : Namespace) : Namespace :=
    {| input := input a; output := output a; hef := hef a;
     postprocess_so := postprocess_so a; tiles_x := tiles_x a; tiles_y := tiles_y a;
     overlap_x := overlap_x a; overlap_y := overlap_y a; tiling_mode := tiling_mode a;
     tile_width := v; tile_height := tile_height a; iou_threshold := iou_threshold a;
     border_threshold := border_threshold a;
     remove_large_landscape := remove_large_landscape a; bitrate := bitrate a;
     debug := debug a |}.
Definition set_tile_height (v : Z) (a : Namespace) : Namespace :=
    {| input := input a; output := output a; hef := hef a;
     postprocess_so := postprocess_so a; tiles_x := tiles_x a; tiles_y := tiles_y a;
     overlap_x := overlap_x a; overlap_y := overlap_y a; tiling_mode := tiling_mode a;
     tile_width := tile_width a; tile_height := v; iou_threshold := iou_threshold a;
     border_threshold := border_threshold a;
     remove_large_landscape := remove_large_landscape a; bitrate := bitrate a;
     debug := debug a |}.
Definition set_iou_threshold (v : float) (a : Namespace) : Namespace :=
    {| input := input a; output := output a; hef := hef a;
     postprocess_so := postprocess_so a; tiles_x := tiles_x a; tiles_y := tiles_y a;
     overlap_x := overlap_x a; overlap_y := overlap_y a; tiling_mode := tiling_mode a;
     tile_width := tile_width a; tile_height := tile_height a; iou_threshold := v;
     border_threshold := border_threshold a;
     remove_large_landscape := remove_large_landscape a; bitrate := bitrate a;
     debug := debug a |}.
Definition set_border_threshold (v : float) (a : Namespace) : Namespace :=
    {| input := input a; output := output a; hef := hef a;
     postprocess_so := postprocess_so a; tiles_x := tiles_x a; tiles_y := tiles_y a;
     overlap_x := overlap_x a; overlap_y := overlap_y a; tiling_mode := tiling_mode a;
     tile_width := tile_width a; tile_height := tile_height a;
     iou_threshold := iou_threshold a; border_threshold := v;
     remove_large_landscape := remove_large_landscape a; bitrate := bitrate a;
     debug := debug a |}.
Definition set_remove_large_landscape (v : bool) (a : Namespace) : Namespace :=
    {| input := input a; output := output a; hef := hef a;
     postprocess_so := postprocess_so a; tiles_x := tiles_x a; tiles_y := tiles_y a;
     overlap_x := overlap_x a; overlap_y := overlap_y a; tiling_mode := tiling_mode a;
     tile_width := tile_width a; tile_height := tile_height a;
     iou_threshold := iou_threshold a; border_threshold := border_threshold a;
     remove_large_landscape := v; bitrate := bitrate a; debug := debug a |}.
Definition set_bitrate (v : Z) (a : Namespace) : Namespace :=
    {| input := input a; output := output a; hef := hef a;
     postprocess_so := postprocess_so a; tiles_x := tiles_x a; tiles_y := tiles_y a;
     overlap_x := overlap_x a; overlap_y := overlap_y a; tiling_mode := tiling_mode a;
     tile_width := tile_width a; tile_height := tile_height a;
     iou_threshold := iou_threshold a; border_threshold := border_threshold a;
     remove_large_landscape := remove_large_landscape a; bitrate := v;
     debug := debug a |}.
Definition set_debug (v : bool) (a : Namespace) : Namespace :=
    {| input := input a; output := output a; hef := hef a;
     postprocess_so := postprocess_so a; tiles_x := tiles_x a; tiles_y := tiles_y a;
     overlap_x := overlap_x a; overlap_y := overlap_y a; tiling_mode := tiling_mode a;
     tile_width := tile_width a; tile_height := tile_height a;
     iou_threshold := iou_threshold a; border_threshold := border_threshold a;
     remove_large_landscape := remove_large_landscape a; bitrate := bitrate a;
     debug := v |}.

(** The namespace of the defaults.  argparse gives [input] and [output]
    the default [None]; both options are required, so [parse_args] never
    returns a namespace that still holds it, and the empty string stands
    in its place here. *)
Definition defaults : Namespace :=
  {| input := EmptyString; output := EmptyString;
     hef := DEFAULT_HEF_PATH; postprocess_so := DEFAULT_POSTPROCESS_SO;
     tiles_x := TILES_X; tiles_y := TILES_Y;
     overlap_x := OVERLAP_X; overlap_y := OVERLAP_Y;
     tiling_mode := TILING_MODE;
     tile_width := TILE_WIDTH; tile_height := TILE_HEIGHT;
     iou_threshold := IOU_THRESHOLD; border_threshold := BORDER_THRESHOLD;
     remove_large_landscape := REMOVE_LARGE_LANDSCAPE;
     bitrate := BITRATE; debug := false |}.

Section WithBuiltins.
Context `{Builtins}.

(** [add_argument(name, ...)] by the [type] and [action] given. *)
Definition add_str (name dest : string) (required : bool)
    (set : string -> Namespace -> Namespace) : Argparse.Action Namespace :=
  {| Argparse.option_strings := [name]; Argparse.dest := dest;
     Argparse.kind := Argparse.Store (fun v => Some (set v));
     Argparse.required := required |}.

Definition add_int (name dest : string)
    (set : Z -> Namespace -> Namespace) : Argparse.Action Namespace :=
  {| Argparse.option_strings := [name]; Argparse.dest := dest;
     Argparse.kind := Argparse.Store (fun v => option_map set (int_of_str v));
     Argparse.required := false |}.

Definition add_float (name dest : string)
    (set : float -> Namespace -> Namespace) : Argparse.Action Namespace :=
  {| Argparse.option_strings := [name]; Argparse.dest := dest;
     Argparse.kind := Argparse.Store (fun v => option_map set (float_of_str v));
     Argparse.required := false |}.

Definition add_store_true (name dest : string)
    (set : bool -> Namespace -> Namespace) : Argparse.Action Namespace :=
  {| Argparse.option_strings := [name]; Argparse.dest := dest;
     Argparse.kind := Argparse.StoreTrue (set true);
     Argparse.required := false |}.

Definition parser : list (Argparse.Action Namespace) :=
  [ Argparse.help_action;
    add_str "--input" "input" true set_input;
    add_str "--output" "output" true set_output;
    add_str "--hef" "hef" false set_hef;
    add_str "--postprocess-so" "postprocess_so" false set_postprocess_so;
    add_int "--tiles-x" "tiles_x" set_tiles_x;
    add_int "--tiles-y" "tiles_y" set_tiles_y;
    add_float "--overlap-x" "overlap_x" set_overlap_x;
    add_float "--overlap-y" "overlap_y" set_overlap_y;
    add_int "--tiling-mode" "tiling_mode" set_tiling_mode;
    add_int "--tile-width" "tile_width" set_tile_width;
    add_int "--tile-height" "tile_height" set_tile_height;
    add_float "--iou-threshold" "iou_threshold" set_iou_threshold;
    add_float "--border-threshold" "border_threshold" set_border_threshold;
    add_store_true "--remove-large-landscape" "remove_large_landscape"
      set_remove_large_landscape;
    add_int "--bitrate" "bitrate" set_bitrate;
    add_store_true "--debug" "debug" set_debug ].

(** [parse_args()], on [sys.argv[1:]]. *)
Definition parse_args (argv : list string) : res Namespace :=
  Argparse.parse_args parser defaults argv.

(** ** The pipeline object *)

(** The attributes of a [TilingResolutionPreservingPipeline]; [loop]
    tells whether [self.loop] holds a main loop yet. *)
Record Self := {
  args : Namespace;
  pipeline : option Gst.Pipeline;
  loop : bool;
  frame_count : Z
}.

Definition set_pipeline (p : Gst.Pipeline) (self : Self) : Self :=
  {| args := args self; pipeline := Some p; loop := loop self;
     frame_count := frame_count self |}.
Definition set_loop (self : Self) : Self :=
  {| args := args self; pipeline := pipeline self; loop := true;
     frame_count := frame_count self |}.
Definition set_frame_count (n : Z) (self : Self) : Self :=
  {| args := args self; pipeline := pipeline self; loop := loop self;
     frame_count := n |}.

(** ** [_validate_paths] *)

Definition _validate_paths (a : Namespace) (fs : FS) : res unit * FS :=
  if negb (exists_ fs (Path_of (input a))) then
    (Raise (FileNotFoundError ("Input file not found: " ++ input a)), fs)
  else if negb (exists_ fs (Path_of (hef a))) then
    (Raise (FileNotFoundError ("HEF file not found: " ++ hef a)), fs)
  else if negb (exists_ fs (Path_of (postprocess_so a))) then
    (Raise (FileNotFoundError ("Postprocess .so not found: " ++ postprocess_so a)), fs)
  else
    let output_dir := parent (Path_of (output a)) in
    if negb (bool_decide (output_dir = Path_of "."))
    then mkdir fs output_dir
    else (Ok tt, fs).

(** ** [_validate_parameters] *)

(** [not (1 <= n <= 20)]. *)
Definition outside_1_20 (n : Z) : bool := negb ((1 <=? n) && (n <=? 20)).

(** [not (0.0 <= x <= 1.0)]. *)
Definition outside_0_1 (x : float) : bool :=
  negb (float_le float_0_0 x && float_le x float_1_0).

(** [n not in [0, 1]]. *)
Definition not_in_0_1 (n : Z) : bool := negb ((n =? 0) || (n =? 1)).

Definition _validate_parameters (args : Namespace) : res unit :=
  if outside_1_20 (tiles_x args) then
    Raise (ValueError ("tiles-x must be between 1 and 20, got " ++ str_int (tiles_x args)))
  else if outside_1_20 (tiles_y args) then
    Raise (ValueError ("tiles-y must be between 1 and 20, got " ++ str_int (tiles_y args)))
  else if outside_0_1 (overlap_x args) then
    Raise (ValueError ("overlap-x must be between 0.0 and 1.0, got " ++ str_float (overlap_x args)))
  else if outside_0_1 (overlap_y args) then
    Raise (ValueError ("overlap-y must be between 0.0 and 1.0, got " ++ str_float (overlap_y args)))
  else if not_in_0_1 (tiling_mode args) then
    Raise (ValueError ("tiling-mode must be 0 or 1, got " ++ str_int (tiling_mode args)))
  else if outside_0_1 (iou_threshold args) then
    Raise (ValueError ("iou-threshold must be between 0.0 and 1.0, got " ++ str_float (iou_threshold args)))
  else if outside_0_1 (border_threshold args) then
    Raise (ValueError ("border-threshold must be between 0.0 and 1.0, got " ++ str_float (border_threshold args)))
  else Ok tt.

(** ** [__init__] *)

Definition __init__ (a : Namespace) (fs : FS) : res Self * FS :=
  let self := {| args := a; pipeline := None; loop := false; frame_count := 0 |} in
  match _validate_paths (args self) fs with
  | (Raise e, fs') => (Raise e, fs')
  | (Ok _, fs') =>
      match _validate_parameters (args self) with
      | Raise e => (Raise e, fs')
      | Ok _ => (Ok self, fs')
      end
  end.

(** ** [build_pipeline] *)

(** The text of the f-string, line by line. *)
Definition pipeline_template (a : Namespace) : string :=
  nl ++
  "            filesrc location=" ++ dq ++ input a ++ dq ++ " !" ++ nl ++
  "            qtdemux !" ++ nl ++
  "            h264parse !" ++ nl ++
  "            avdec_h264 !" ++ nl ++
  "            videoconvert !" ++ nl ++
  "            video/x-raw,format=RGB !" ++ nl ++
  "            hailotilecropper name=cropper" ++ nl ++
  "                tiles-along-x-axis=" ++ str_int (tiles_x a) ++ nl ++
  "                tiles-along-y-axis=" ++ str_int (tiles_y a) ++ nl ++
  "                overlap-x-axis=" ++ str_float (overlap_x a) ++ nl ++
  "                overlap-y-axis=" ++ str_float (overlap_y a) ++ nl ++
  "                tiling-mode=" ++ str_int (tiling_mode a) ++ nl ++
  "            " ++ nl ++
  "            hailotileaggregator name=aggregator" ++ nl ++
  "                flatten-detections=true" ++ nl ++
  "                iou-threshold=" ++ str_float (iou_threshold a) ++ nl ++
  "                border-threshold=" ++ str_float (border_threshold a) ++ nl ++
  "                remove-large-landscape="
    ++ lower (str_bool (remove_large_landscape a)) ++ nl ++
  "            " ++ nl ++
  "            cropper.src_0 !" ++ nl ++
  "            queue leaky=no max-size-buffers=30 max-size-bytes=0 max-size-time=0 !" ++ nl ++
  "            aggregator.sink_0" ++ nl ++
  "            " ++ nl ++
  "            cropper.src_1 !" ++ nl ++
  "            queue leaky=no max-size-buffers=30 max-size-bytes=0 max-size-time=0 !" ++ nl ++
  "            videoscale !" ++ nl ++
  "            video/x-raw,width=" ++ str_int (tile_width a)
    ++ ",height=" ++ str_int (tile_height a) ++ " !" ++ nl ++
  "            queue leaky=no max-size-buffers=30 max-size-bytes=0 max-size-time=0 !" ++ nl ++
  "            hailonet hef-path=" ++ hef a ++ " is-active=true !" ++ nl ++
  "            queue leaky=no max-size-buffers=30 max-size-bytes=0 max-size-time=0 !" ++ nl ++
  "            hailofilter so-path=" ++ postprocess_so a ++ " qos=false !" ++ nl ++
  "            queue leaky=no max-size-buffers=30 max-size-bytes=0 max-size-time=0 !" ++ nl ++
  "            aggregator.sink_1" ++ nl ++
  "            " ++ nl ++
  "            aggregator.src !" ++ nl ++
  "            queue leaky=no max-size-buffers=30 max-size-bytes=0 max-size-time=0 !" ++ nl ++
  "            hailooverlay !" ++ nl ++
  "            queue leaky=no max-size-buffers=30 max-size-bytes=0 max-size-time=0 !" ++ nl ++
  "            videoconvert !" ++ nl ++
  "            x264enc bitrate=" ++ str_int (bitrate a) ++ " speed-preset=" ++ ENCODING_PRESET
    ++ " tune=zerolatency key-int-max=60 !" ++ nl ++
  "            h264parse !" ++ nl ++
  "            mp4mux !" ++ nl ++
  "            filesink location=" ++ dq ++ output a ++ dq ++ " sync=false" ++ nl ++
  "        ".

(** The graph description, and what the call prints under [--debug]. *)
Definition build_pipeline (self : Self) : string * list effect :=
  let a := args self in
  let tiling_mode_str := if tiling_mode a =? 0 then "single-scale" else "multi-scale" in
  let pipeline_str := join " " (split (pipeline_template a)) in
  if debug a then
    let formatted := replace " ! " (" !" ++ nl ++ "    ") pipeline_str in
    (pipeline_str,
     [ print (nl ++ "[DEBUG] GStreamer Tiling Pipeline:");
       print (str_mul "-" 80);
       print formatted;
       print (str_mul "-" 80);
       print EmptyString ])
  else (pipeline_str, []).

(** ** [on_message] *)

(** [if debug and self.args.debug]: the debug text is there and not
    empty. *)
Definition truthy (debug_text : option string) : bool :=
  match debug_text with
  | Some d => negb (String.eqb d EmptyString)
  | None => false
  end.

Definition debug_line (debug_text : option string) : string :=
  match debug_text with
  | Some d => d
  | None => "None"
  end.

(** The handler for bus messages: the object after the call, what the
    call prints, and whether it called [self.loop.quit()].  The handler
    itself always returns [True]. *)
Definition on_message (self : Self) (message : Gst.Message)
  : Self * list effect * bool :=
  match message with
  | Gst.ERROR err dbg =>
      (self,
       ([print (nl ++ "[ERROR] " ++ err)]
          ++ (if truthy dbg && debug (args self)
              then [print ("[DEBUG] " ++ debug_line dbg)] else []))%list,
       loop self)
  | Gst.EOS =>
      (self,
       [print (nl ++ "[EOS] Processing complete. Processed "
                 ++ str_int (frame_count self) ++ " frames.")],
       loop self)
  | Gst.WARNING warn dbg =>
      (self,
       ([print ("[WARNING] " ++ warn)]
          ++ (if truthy dbg && debug (args self)
              then [print ("[DEBUG] " ++ debug_line dbg)] else []))%list,
       false)
  | Gst.STATE_CHANGED src_is_pipeline old_state new_state =>
      (self,
       if src_is_pipeline && debug (args self)
       then [print ("[STATE] " ++ old_state ++ " -> " ++ new_state)] else [],
       false)
  | Gst.STREAM_STATUS status =>
      (self,
       if debug (args self) then [print ("[STREAM_STATUS] " ++ status)] else [],
       false)
  | Gst.OTHER => (self, [], false)
  end.

(** ** [on_buffer_probe] *)

Definition on_buffer_probe (self : Self) : Self * list effect :=
  let self := set_frame_count (frame_count self + 1) self in
  (self,
   if frame_count self mod 50 =? 0
   then [print_end ("[PROGRESS] Processed " ++ str_int (frame_count self) ++ " frames...") cr]
   else []).

(** ** [run] *)

(** How [self.loop.run()] ends: a handler called [quit], the user
    interrupted the process ([KeyboardInterrupt]), or there is nothing
    left that could end it. *)
Inductive loop_end := Quit | Interrupted | Waiting.

(** [self.loop.run()]: the events are handled in order, until a handler
    quits the loop or the process is interrupted; [probe] tells whether
    the buffer probe was added. *)
Fixpoint loop_run (self : Self) (probe : bool) (evs : list Gst.Event)
  : Self * list effect * loop_end :=
  match evs with
  | [] => (self, [], Waiting)
  | Gst.Interrupt :: _ => (self, [], Interrupted)
  | Gst.Buffer :: rest =>
      if probe then
        let '(self1, out) := on_buffer_probe self in
        let '(self2, out2, e) := loop_run self1 probe rest in
        (self2, (out ++ out2)%list, e)
      else loop_run self probe rest
  | Gst.Deliver m :: rest =>
      let '(self1, out, quit) := on_message self m in
      if quit then (self1, out, Quit)
      else
        let '(self2, out2, e) := loop_run self1 probe rest in
        (self2, (out ++ out2)%list, e)
  end.

Definition banner (a : Namespace) : list effect :=
  [ print (nl ++ str_mul "=" 80);
    print "Tiling Resolution-Preserving Hailo Detection Pipeline";
    print (str_mul "=" 80);
    print ("Input:              " ++ input a);
    print ("Output:             " ++ output a);
    print ("HEF:                " ++ hef a);
    print ("Postprocess:        " ++ postprocess_so a);
    print (str_mul "-" 80);
    print ("Tiling grid:        " ++ str_int (tiles_x a) ++ " x " ++ str_int (tiles_y a));
    print ("Tile overlap:       X=" ++ format_pct1 (overlap_x a)
             ++ ", Y=" ++ format_pct1 (overlap_y a));
    print ("Tiling mode:        "
             ++ (if tiling_mode a =? 0 then "Single-scale" else "Multi-scale"));
    print ("Tile process size:  " ++ str_int (tile_width a) ++ "x" ++ str_int (tile_height a));
    print (str_mul "-" 80);
    print ("IOU threshold:      " ++ str_float (iou_threshold a));
    print ("Border threshold:   " ++ str_float (border_threshold a));
    print ("Remove large:       " ++ str_bool (remove_large_landscape a));
    print ("Output bitrate:     " ++ str_int (bitrate a) ++ " kbps");
    print (str_mul "=" 80);
    print EmptyString ].

(** Whether [run] adds the buffer probe: the pipeline has an element
    named [aggregator], and that element a static pad [src]. *)
Definition probe_added (p : Gst.Pipeline) : bool :=
  match Gst.get_by_name p "aggregator" with
  | Some aggregator => Gst.get_static_pad aggregator "src"
  | None => false
  end.

(** [run]: the value it returns ([None] when the main loop never ends),
    the object at that point, and its effects in order. *)
Definition run (self : Self) (parse_launch : Gst.Launcher)
  : option Z * Self * list effect :=
  let a := args self in
  let '(pipeline_str, out_build) := build_pipeline self in
  match parse_launch pipeline_str with
  | inl e =>
      (Some 1, self,
       (banner a ++ out_build
          ++ [print ("[ERROR] Failed to create pipeline: " ++ e)])%list)
  | inr p =>
      let self := set_pipeline p self in
      let probe := probe_added p in
      let self := set_loop self in
      let out_start :=
        (banner a ++ out_build
           ++ [print ("[START] Starting tiling pipeline..." ++ nl);
               SetState Gst.PLAYING])%list in
      match Gst.set_state_playing p with
      | Gst.FAILURE =>
          (Some 1, self,
           (out_start ++ [print "[ERROR] Unable to set pipeline to PLAYING state"])%list)
      | _ =>
          let '(self, out_loop, e) := loop_run self probe (Gst.events p) in
          let total_tiles := tiles_x a * tiles_y a in
          let finally :=
            [ SetState Gst.NULL;
              print (nl ++ "[DONE] Output saved to: " ++ output a);
              print ("[DONE] Total frames processed: " ++ str_int (frame_count self));
              print ("[DONE] Tiles per frame: " ++ str_int total_tiles ++ nl) ] in
          match e with
          | Quit => (Some 0, self, (out_start ++ out_loop ++ finally)%list)
          | Interrupted =>
              (Some 0, self,
               (out_start ++ out_loop
                  ++ [print (nl ++ "[INTERRUPTED] Stopping pipeline...")]
                  ++ finally)%list)
          | Waiting => (None, self, (out_start ++ out_loop)%list)
          end
      end
  end.

(** ** [main] *)

(** [main()] under [sys.exit]: how the process ends, what it did on the
    way, and the file system it leaves.  [sys_argv] is [sys.argv], the
    name of the script first. *)
Definition main (sys_argv : list string) (fs : FS) (parse_launch : Gst.Launcher)
  : ending * list effect * FS :=
  let body : res (option Z * list effect) * FS :=
    match parse_args (tl sys_argv) with
    | Raise e => (Raise e, fs)
    | Ok a =>
        match __init__ a fs with
        | (Raise e, fs') => (Raise e, fs')
        | (Ok pipeline, fs') =>
            let '(r, _, out) := run pipeline parse_launch in (Ok (r, out), fs')
        end
    end in
  match body with
  | (Ok (Some code, out), fs') => (Exit code, out, fs')
  | (Ok (None, out), fs') => (Blocked, out, fs')
  | (Raise (FileNotFoundError msg as e), fs') | (Raise (ValueError msg as e), fs') =>
      (Exit 1,
       [ print (nl ++ "[ERROR] " ++ exn_str e);
         print (nl ++ "Please check the parameters and try again." ++ nl) ],
       fs')
  | (Raise (SystemExit code), fs') => (Exit code, [], fs')
  | (Raise KeyboardInterrupt, fs') => (Uncaught, [], fs')
  | (Raise e, fs') =>
      (Exit 1,
       ([print (nl ++ "[ERROR] Unexpected error: " ++ exn_str e)]
          ++ (if existsb (String.eqb "--debug") sys_argv then [PrintExc] else []))%list,
       fs')
  end.

End WithBuiltins.
End Tiling.

(* ===================================================================== *)
(** * detection_preserve_resolution_pipeline.py                           *)
(* ===================================================================== *)

Module Preserve.
Import Py.

(** ** Configuration constants *)

Definition DEFAULT_HEF_PATH : string :=
  "/usr/local/hailo/resources/models/hailo8/yolov11m.hef".
Definition DEFAULT_POSTPROCESS_SO : string :=
  "/usr/local/hailo/resources/so/libyolo_hailortpp_postprocess.so".

Definition INFERENCE_WIDTH : Z := 640.
Definition INFERENCE_HEIGHT : Z := 640.
(** 0.3 and 0.45 as binary64 numbers. *)
Definition NMS_SCORE_THRESHOLD : float := S754_finite false 5404319552844595 (-54).
Definition NMS_IOU_THRESHOLD : float := S754_finite false 8106479329266893 (-54).
Definition BITRATE : Z := 4000.
Definition ENCODING_PRESET : string := "ultrafast".

(** ** The parsed arguments *)

Record Namespace := {
  input : string;
  output : string;
  hef : string;
  postprocess_so : string;
  inference_width : Z;
  inference_height : Z;
  bitrate : Z;
  debug : bool
}.

(** ** [parse_args] *)

Definition set_input (v : string) (a : Namespace) : Namespace :=
  {| input := v;
     output := output a;
     hef := hef a;
     postprocess_so := postprocess_so a;
     inference_width := inference_width a;
     inference_height := inference_height a;
     bitrate := bitrate a;
     debug := debug a |}.
Definition set_output (v : string) (a : Namespace) : Namespace :=
  {| input := input a;
     output := v;
     hef := hef a;
     postprocess_so := postprocess_so a;
     inference_width := inference_width a;
     inference_height := inference_height a;
     bitrate := bitrate a;
     debug := debug a |}.
Definition set_hef (v : string) (a : Namespace) : Namespace :=
  {| input := input a;
     output := output a;
     hef := v;
     postprocess_so := postprocess_so a;
     inference_width := inference_width a;
     inference_height := inference_height a;
     bitrate := bitrate a;
     debug := debug a |}.
Definition set_postprocess_so (v : string) (a : Namespace) : Namespace :=
  {| input := input a;
     output := output a;
     hef := hef a;
     postprocess_so := v;
     inference_width := inference_width a;
     inference_height := inference_height a;
     bitrate := bitrate a;
     debug := debug a |}.
Definition set_inference_width (v : Z) (a : Namespace) : Namespace :=
  {| input := input a;
     output := output a;
     hef := hef a;
     postprocess_so := postprocess_so a;
     inference_width := v;
     inference_height := inference_height a;
     bitrate := bitrate a;
     debug := debug a |}.
Definition set_inference_height (v : Z) (a : Namespace) : Namespace :=
  {| input := input a;
     output := output a;
     hef := hef a;
     postprocess_so := postprocess_so a;
     inference_width := inference_width a;
     inference_height := v;
     bitrate := bitrate a;
     debug := debug a |}.
Definition set_bitrate (v : Z) (a : Namespace) : Namespace :=
  {| input := input a;
     output := output a;
     hef := hef a;
     postprocess_so := postprocess_so a;
     inference_width := inference_width a;
     inference_height := inference_height a;
     bitrate := v;
     debug := debug a |}.
Definition set_debug (v : bool) (a : Namespace) : Namespace :=
  {| input := input a;
     output := output a;
     hef := hef a;
     postprocess_so := postprocess_so a;
     inference_width := inference_width a;
     inference_height := inference_height a;
     bitrate := bitrate a;
     debug := v |}.

(** The namespace of the defaults; the empty string stands for the
    [None] of the two required options, as in the tiling script. *)
Definition defaults : Namespace :=
  {| input := EmptyString; output := EmptyString;
     hef := DEFAULT_HEF_PATH; postprocess_so := DEFAULT_POSTPROCESS_SO;
     inference_width := INFERENCE_WIDTH; inference_height := INFERENCE_HEIGHT;
     bitrate := BITRATE; debug := false |}.

Section WithBuiltins.
Context `{Builtins}.

Definition add_str (name dest : string) (required : bool)
    (set : string -> Namespace -> Namespace) : Argparse.Action Namespace :=
  {| Argparse.option_strings := [name]; Argparse.dest := dest;
     Argparse.kind := Argparse.Store (fun v => Some (set v));
     Argparse.required := required |}.

Definition add_int (name dest : string)
    (set : Z -> Namespace -> Namespace) : Argparse.Action Namespace :=
  {| Argparse.option_strings := [name]; Argparse.dest := dest;
     Argparse.kind := Argparse.Store (fun v => option_map set (int_of_str v));
     Argparse.required := false |}.

Definition add_store_true (name dest : string)
    (set : bool -> Namespace -> Namespace) : Argparse.Action Namespace :=
  {| Argparse.option_strings := [name]; Argparse.dest := dest;
     Argparse.kind := Argparse.StoreTrue (set true);
     Argparse.required := false |}.

Definition parser : list (Argparse.Action Namespace) :=
  [ Argparse.help_action;
    add_str "--input" "input" true set_input;
    add_str "--output" "output" true set_output;
    add_str "--hef" "hef" false set_hef;
    add_str "--postprocess-so" "postprocess_so" false set_postprocess_so;
    add_int "--inference-width" "inference_width" set_inference_width;
    add_int "--inference-height" "inference_height" set_inference_height;
    add_int "--bitrate" "bitrate" set_bitrate;
    add_store_true "--debug" "debug" set_debug ].

Definition parse_args (argv : list string) : res Namespace :=
  Argparse.parse_args parser defaults argv.

(** ** The pipeline object *)

Record Self := {
  args : Namespace;
  pipeline : option Gst.Pipeline;
  loop : bool;
  frame_count : Z
}.

Definition set_pipeline (p : Gst.Pipeline) (self : Self) : Self :=
  {| args := args self; pipeline := Some p; loop := loop self;
     frame_count := frame_count self |}.
Definition set_loop (self : Self) : Self :=
  {| args := args self; pipeline := pipeline self; loop := true;
     frame_count := frame_count self |}.
Definition set_frame_count (n : Z) (self : Self) : Self :=
  {| args := args self; pipeline := pipeline self; loop := loop self;
     frame_count := n |}.

(** ** [_validate_paths] *)

Definition _validate_paths (a : Namespace) (fs : FS) : res unit * FS :=
  if negb (exists_ fs (Path_of (input a))) then
    (Raise (FileNotFoundError ("Input file not found: " ++ input a)), fs)
  else if negb (exists_ fs (Path_of (hef a))) then
    (Raise (FileNotFoundError ("HEF file not found: " ++ hef a)), fs)
  else if negb (exists_ fs (Path_of (postprocess_so a))) then
    (Raise (FileNotFoundError ("Postprocess .so not found: " ++ postprocess_so a)), fs)
  else
    let output_dir := parent (Path_of (output a)) in
    if negb (bool_decide (output_dir = Path_of "."))
    then mkdir fs output_dir
    else (Ok tt, fs).

(** ** [__init__] *)

Definition __init__ (a : Namespace) (fs : FS) : res Self * FS :=
  let self := {| args := a; pipeline := None; loop := false; frame_count := 0 |} in
  match _validate_paths (args self) fs with
  | (Raise e, fs') => (Raise e, fs')
  | (Ok _, fs') => (Ok self, fs')
  end.

(** ** [build_pipeline] *)

Definition nms_params : string :=
  "nms-score-threshold=" ++ str_float NMS_SCORE_THRESHOLD ++ " "
  ++ "nms-iou-threshold=" ++ str_float NMS_IOU_THRESHOLD ++ " "
  ++ "output-format-type=HAILO_FORMAT_TYPE_FLOAT32".

(** The text of the f-string, line by line. *)
Definition pipeline_template (a : Namespace) : string :=
  nl ++
  "            filesrc location=" ++ dq ++ input a ++ dq ++ " !" ++ nl ++
  "            qtdemux !" ++ nl ++
  "            h264parse !" ++ nl ++
  "            avdec_h264 !" ++ nl ++
  "            videoconvert !" ++ nl ++
  "            tee name=t" ++ nl ++
  "            " ++ nl ++
  "            hailomuxer name=mux" ++ nl ++
  "            " ++ nl ++
  "            t. ! " ++ nl ++
  "            queue leaky=no max-size-buffers=30 max-size-bytes=0 max-size-time=0 !" ++ nl ++
  "            mux." ++ nl ++
  "            " ++ nl ++
  "            t. !" ++ nl ++
  "            videoscale !" ++ nl ++
  "            video/x-raw,width=" ++ str_int (inference_width a)
    ++ ",height=" ++ str_int (inference_height a) ++ " !" ++ nl ++
  "            queue leaky=no max-size-buffers=30 max-size-bytes=0 max-size-time=0 !" ++ nl ++
  "            hailonet hef-path=" ++ hef a ++ " is-active=true " ++ nms_params ++ " !" ++ nl ++
  "            queue leaky=no max-size-buffers=30 max-size-bytes=0 max-size-time=0 !" ++ nl ++
  "            hailofilter so-path=" ++ postprocess_so a ++ " qos=false !" ++ nl ++
  "            mux." ++ nl ++
  "            " ++ nl ++
  "            mux. !" ++ nl ++
  "            queue leaky=no max-size-buffers=30 max-size-bytes=0 max-size-time=0 !" ++ nl ++
  "            hailooverlay !" ++ nl ++
  "            queue leaky=no max-size-buffers=30 max-size-bytes=0 max-size-time=0 !" ++ nl ++
  "            videoconvert !" ++ nl ++
  "            x264enc bitrate=" ++ str_int (bitrate a) ++ " speed-preset=" ++ ENCODING_PRESET
    ++ " tune=zerolatency key-int-max=60 !" ++ nl ++
  "            h264parse !" ++ nl ++
  "            mp4mux !" ++ nl ++
  "            filesink location=" ++ dq ++ output a ++ dq ++ " sync=false" ++ nl ++
  "        ".

Definition build_pipeline (self : Self) : string * list effect :=
  let a := args self in
  let pipeline_str := join " " (split (pipeline_template a)) in
  if debug a then
    let formatted := replace " ! " (" !" ++ nl ++ "    ") pipeline_str in
    (pipeline_str,
     [ print (nl ++ "[DEBUG] GStreamer Pipeline:");
       print (str_mul "-" 80);
       print formatted;
       print (str_mul "-" 80);
       print EmptyString ])
  else (pipeline_str, []).

(** ** [on_message] *)

Definition truthy (debug_text : option string) : bool :=
  match debug_text with
  | Some d => negb (String.eqb d EmptyString)
  | None => false
  end.

Definition debug_line (debug_text : option string) : string :=
  match debug_text with
  | Some d => d
  | None => "None"
  end.

Definition on_message (self : Self) (message : Gst.Message)
  : Self * list effect * bool :=
  match message with
  | Gst.ERROR err dbg =>
      (self,
       ([print (nl ++ "[ERROR] " ++ err)]
          ++ (if truthy dbg && debug (args self)
              then [print ("[DEBUG] " ++ debug_line dbg)] else []))%list,
       loop self)
  | Gst.EOS =>
      (self,
       [print (nl ++ "[EOS] Processing complete. Processed "
                 ++ str_int (frame_count self) ++ " frames.")],
       loop self)
  | Gst.WARNING warn dbg =>
      (self,
       ([print ("[WARNING] " ++ warn)]
          ++ (if truthy dbg && debug (args self)
              then [print ("[DEBUG] " ++ debug_line dbg)] else []))%list,
       false)
  | Gst.STATE_CHANGED src_is_pipeline old_state new_state =>
      (self,
       if src_is_pipeline && debug (args self)
       then [print ("[STATE] " ++ old_state ++ " -> " ++ new_state)] else [],
       false)
  | Gst.STREAM_STATUS status =>
      (self,
       if debug (args self) then [print ("[STREAM_STATUS] " ++ status)] else [],
       false)
  | Gst.OTHER => (self, [], false)
  end.

(** ** [on_buffer_probe] *)

Definition on_buffer_probe (self : Self) : Self * list effect :=
  let self := set_frame_count (frame_count self + 1) self in
  (self,
   if frame_count self mod 100 =? 0
   then [print_end ("[PROGRESS] Processed " ++ str_int (frame_count self) ++ " frames...") cr]
   else []).

(** ** [run] *)

Inductive loop_end := Quit | Interrupted | Waiting.

Fixpoint loop_run (self : Self) (probe : bool) (evs : list Gst.Event)
  : Self * list effect * loop_end :=
  match evs with
  | [] => (self, [], Waiting)
  | Gst.Interrupt :: _ => (self, [], Interrupted)
  | Gst.Buffer :: rest =>
      if probe then
        let '(self1, out) := on_buffer_probe self in
        let '(self2, out2, e) := loop_run self1 probe rest in
        (self2, (out ++ out2)%list, e)
      else loop_run self probe rest
  | Gst.Deliver m :: rest =>
      let '(self1, out, quit) := on_message self m in
      if quit then (self1, out, Quit)
      else
        let '(self2, out2, e) := loop_run self1 probe rest in
        (self2, (out ++ out2)%list, e)
  end.

Definition banner (a : Namespace) : list effect :=
  [ print (nl ++ str_mul "=" 80);
    print "Resolution-Preserving Hailo Detection Pipeline";
    print (str_mul "=" 80);
    print ("Input:            " ++ input a);
    print ("Output:           " ++ output a);
    print ("HEF:              " ++ hef a);
    print ("Postprocess:      " ++ postprocess_so a);
    print ("Inference size:   " ++ str_int (inference_width a)
             ++ "x" ++ str_int (inference_height a));
    print ("Output bitrate:   " ++ str_int (bitrate a) ++ " kbps");
    print (str_mul "=" 80);
    print EmptyString ].

(** Whether [run] adds the buffer probe: the pipeline has an element
    named [mux], and that element a static pad [src]. *)
Definition probe_added (p : Gst.Pipeline) : bool :=
  match Gst.get_by_name p "mux" with
  | Some mux => Gst.get_static_pad mux "src"
  | None => false
  end.

Definition run (self : Self) (parse_launch : Gst.Launcher)
  : option Z * Self * list effect :=
  let a := args self in
  let '(pipeline_str, out_build) := build_pipeline self in
  match parse_launch pipeline_str with
  | inl e =>
      (Some 1, self,
       (banner a ++ out_build
          ++ [print ("[ERROR] Failed to create pipeline: " ++ e)])%list)
  | inr p =>
      let self := set_pipeline p self in
      let probe := probe_added p in
      let self := set_loop self in
      let out_start :=
        (banner a ++ out_build
           ++ [print ("[START] Starting pipeline..." ++ nl);
               SetState Gst.PLAYING])%list in
      match Gst.set_state_playing p with
      | Gst.FAILURE =>
          (Some 1, self,
           (out_start ++ [print "[ERROR] Unable to set pipeline to PLAYING state"])%list)
      | _ =>
          let '(self, out_loop, e) := loop_run self probe (Gst.events p) in
          let finally :=
            [ SetState Gst.NULL;
              print (nl ++ "[DONE] Output saved to: " ++ output a);
              print ("[DONE] Total frames processed: " ++ str_int (frame_count self) ++ nl) ] in
          match e with
          | Quit => (Some 0, self, (out_start ++ out_loop ++ finally)%list)
          | Interrupted =>
              (Some 0, self,
               (out_start ++ out_loop
                  ++ [print (nl ++ "[INTERRUPTED] Stopping pipeline...")]
                  ++ finally)%list)
          | Waiting => (None, self, (out_start ++ out_loop)%list)
          end
      end
  end.

(** ** [main] *)

Definition main (sys_argv : list string) (fs : FS) (parse_launch : Gst.Launcher)
  : ending * list effect * FS :=
  let body : res (option Z * list effect) * FS :=
    match parse_args (tl sys_argv) with
    | Raise e => (Raise e, fs)
    | Ok a =>
        match __init__ a fs with
        | (Raise e, fs') => (Raise e, fs')
        | (Ok pipeline, fs') =>
            let '(r, _, out) := run pipeline parse_launch in (Ok (r, out), fs')
        end
    end in
  match body with
  | (Ok (Some code, out), fs') => (Exit code, out, fs')
  | (Ok (None, out), fs') => (Blocked, out, fs')
  | (Raise (FileNotFoundError msg as e), fs') =>
      (Exit 1,
       [ print (nl ++ "[ERROR] " ++ exn_str e);
         print (nl ++ "Please check the file paths and try again." ++ nl) ],
       fs')
  | (Raise (SystemExit code), fs') => (Exit code, [], fs')
  | (Raise KeyboardInterrupt, fs') => (Uncaught, [], fs')
  | (Raise e, fs') =>
      (Exit 1,
       ([print (nl ++ "[ERROR] Unexpected error: " ++ exn_str e)]
          ++ (if existsb (String.eqb "--debug") sys_argv then [PrintExc] else []))%list,
       fs')
  end.

End WithBuiltins.
End Preserve.

(* ===================================================================== *)
(** * An interpreter to run examples with                                 *)
(* ===================================================================== *)

(** The properties below hold whatever [str], [format], [int] and
    [float] do.  To evaluate the scripts on concrete command lines this
    module fixes them on a fragment: [int] reads an optional sign and
    decimal digits, [float] reads the literals listed, and a float is
    written the way Python writes it when it is one of those and as
    mantissa and exponent otherwise. *)
Module Sample.
Import Py.

Fixpoint digits_value (acc : Z) (s : string) : option Z :=
  match s with
  | EmptyString => Some acc
  | String c s' =>
      let n := nat_of_ascii c in
      if (48 <=? n)%nat && (n <=? 57)%nat
      then digits_value (10 * acc + Z.of_nat (n - 48)) s'
      else None
  end.

Definition int_of_str (s : string) : option Z :=
  match s with
  | EmptyString => None
  | String c s' =>
      if Ascii.eqb c (ascii_of_nat 45) then
        if String.eqb s' EmptyString then None else option_map Z.opp (digits_value 0 s')
      else if Ascii.eqb c (ascii_of_nat 43) then
        if String.eqb s' EmptyString then None else digits_value 0 s'
      else digits_value 0 s
  end.

Definition literals : list (string * float) :=
  [ ("0.0", S754_zero false);
    ("0.1", S754_finite false 7205759403792794 (-56));
    ("0.2", S754_finite false 7205759403792794 (-55));
    ("0.3", S754_finite false 5404319552844595 (-54));
    ("0.45", S754_finite false 8106479329266893 (-54));
    ("0.5", S754_finite false 4503599627370496 (-53));
    ("1.0", S754_finite false 4503599627370496 (-52));
    ("1.5", S754_finite false 6755399441055744 (-52));
    ("-0.5", S754_finite true 4503599627370496 (-53));
    ("inf", S754_infinity false);
    ("-inf", S754_infinity true);
    ("nan", S754_nan) ].

Definition float_eqb (x y : float) : bool :=
  match x, y with
  | S754_zero s, S754_zero s' => Bool.eqb s s'
  | S754_infinity s, S754_infinity s' => Bool.eqb s s'
  | S754_nan, S754_nan => true
  | S754_finite s m e, S754_finite s' m' e' => Bool.eqb s s' && Pos.eqb m m' && Z.eqb e e'
  | _, _ => false
  end.

Definition float_of_str (s : string) : option float :=
  option_map snd (List.find (fun l => String.eqb (fst l) s) literals).

Definition str_float (x : float) : string :=
  match List.find (fun l => float_eqb (snd l) x) literals with
  | Some l => fst l
  | None =>
      match x with
      | S754_finite s m e =>
          (if s then "-" else EmptyString) ++ str_int (Z.pos m) ++ "*2**" ++ str_int e
      | S754_zero _ => "-0.0"
      | _ => "nan"
      end
  end.

Definition format_pct1 (x : float) : string := str_float x ++ "*100%".

Definition builtins : Builtins :=
  {| Py.str_float := str_float; Py.format_pct1 := format_pct1;
     Py.int_of_str := int_of_str; Py.float_of_str := float_of_str |}.

(** A file system with the current directory [/work], the three input
    files of the examples in it, and nothing else. *)
Definition fs0 : FS :=
  {| cwd := ["work"];
     nodes := <[ ["work"; "post.so"] := File ]>
              (<[ ["work"; "model.hef"] := File ]>
              (<[ ["work"; "in.mp4"] := File ]>
              (<[ ["work"] := Dir ]> ∅))) |}.

(** A pipeline that plays [n] frames to the end of the stream. *)
Definition element_with_src : Gst.Element :=
  {| Gst.get_static_pad := fun pad => String.eqb pad "src" |}.

Definition playing (evs : list Gst.Event) : Gst.Pipeline :=
  {| Gst.get_by_name := fun _ => Some element_with_src;
     Gst.set_state_playing := Gst.ASYNC;
     Gst.events := evs |}.

Definition launch (evs : list Gst.Event) : Gst.Launcher := fun _ => inr (playing evs).

(** Three frames with a warning on the way, then the end of the
    stream. *)
Definition three_frames : list Gst.Event :=
  [ Gst.Buffer; Gst.Buffer; Gst.Deliver (Gst.WARNING "late buffer" None);
    Gst.Buffer; Gst.Deliver Gst.EOS ].

(** The arguments of [--input in.mp4 --output out/o.mp4 --hef model.hef
    --postprocess-so post.so], for either script, and the pipeline
    objects made from them. *)
Definition tiling_args : Tiling.Namespace :=
  Tiling.set_postprocess_so "post.so"
    (Tiling.set_hef "model.hef"
       (Tiling.set_output "out/o.mp4" (Tiling.set_input "in.mp4" Tiling.defaults))).

Definition preserve_args : Preserve.Namespace :=
  Preserve.set_postprocess_so "post.so"
    (Preserve.set_hef "model.hef"
       (Preserve.set_output "out/o.mp4" (Preserve.set_input "in.mp4" Preserve.defaults))).

Definition tiling_self : Tiling.Self :=
  {| Tiling.args := tiling_args; Tiling.pipeline := None; Tiling.loop := false;
     Tiling.frame_count := 0 |}.

Definition preserve_self : Preserve.Self :=
  {| Preserve.args := preserve_args; Preserve.pipeline := None; Preserve.loop := false;
     Preserve.frame_count := 0 |}.

End Sample.

(* ===================================================================== *)
(** * Properties                                                          *)
(* ===================================================================== *)

Import Py.

(** ** Floats against the unit interval *)

(** The real numbers of the closed unit interval, as the specification
    names the accepted overlaps and thresholds. *)
Definition real_in_unit_interval (x : float) : Prop :=
  exists q : Q, float_value x = Some q /\ (0 <= q)%Q /\ (q <= 1)%Q.

Lemma digits2_pos_bounds (m : positive) :
  2 ^ (Z.pos (digits2_pos m) - 1) <= Z.pos m < 2 ^ Z.pos (digits2_pos m).
Proof.
  induction m as [m IH | m IH |]; cbn [digits2_pos].
  - rewrite Pos2Z.inj_succ.
    replace (Z.succ (Z.pos (digits2_pos m)) - 1) with (Z.succ (Z.pos (digits2_pos m) - 1)) by lia.
    rewrite !Z.pow_succ_r by lia. lia.
  - rewrite Pos2Z.inj_succ.
    replace (Z.succ (Z.pos (digits2_pos m)) - 1) with (Z.succ (Z.pos (digits2_pos m) - 1)) by lia.
    rewrite !Z.pow_succ_r by lia. lia.
  - cbn. lia.
Qed.

(** A canonical binary64 mantissa has at most 53 digits, and exactly 53
    above the smallest exponent. *)
Lemma bounded_binary64 (m : positive) (e : Z) :
  bounded 53 1024 m e = true ->
  Z.pos m < 2 ^ 53 /\ (-1074 < e -> 2 ^ 52 <= Z.pos m).
Proof.
  unfold bounded, canonical_mantissa, fexp, emin.
  intros Hb. apply andb_true_iff in Hb as [Hc _]. apply Z.eqb_eq in Hc.
  pose proof (digits2_pos_bounds m) as [Hlo Hhi].
  set (d := Z.pos (digits2_pos m)) in *.
  assert (Hd : 0 < d) by (subst d; lia).
  split.
  - assert (d <= 53) by lia.
    apply Z.lt_le_trans with (2 ^ d); [exact Hhi |].
    apply Z.pow_le_mono_r; lia.
  - intros He. assert (d = 53) as Hd53 by lia.
    rewrite Hd53 in Hlo. exact Hlo.
Qed.

Lemma Qpower_2_pos (e : Z) : (0 < Qpower 2 e)%Q.
Proof. apply Qpower_0_lt. reflexivity. Qed.

Lemma Qpower_2_nonneg (e : Z) : 0 <= e -> (Qpower 2 e == inject_Z (2 ^ e))%Q.
Proof. intros He. rewrite Zpower_Qpower by exact He. reflexivity. Qed.

Lemma Qpower_2_neg (e : Z) : e < 0 -> (Qpower 2 e == / inject_Z (2 ^ (- e)))%Q.
Proof.
  intros He. replace e with (- (- e)) at 1 by lia.
  rewrite Qpower_opp. rewrite Zpower_Qpower by lia. reflexivity.
Qed.

(** When a positive mantissa at exponent [e] stays at or below one. *)
Lemma scaled_le_1 (m : positive) (e : Z) :
  (inject_Z (Z.pos m) * Qpower 2 e <= 1)%Q <->
  (if 0 <=? e then Z.pos m * 2 ^ e <= 1 else Z.pos m <= 2 ^ (- e)).
Proof.
  destruct (Z.leb_spec 0 e) as [He | He].
  - rewrite Qpower_2_nonneg by exact He.
    rewrite <- inject_Z_mult. change 1%Q with (inject_Z 1).
    rewrite <- Zle_Qle. reflexivity.
  - rewrite Qpower_2_neg by exact He.
    assert (Hp : 0 < 2 ^ (- e)) by (apply Z.pow_pos_nonneg; lia).
    assert (Hq : (0 < inject_Z (2 ^ (- e)))%Q).
    { change 0%Q with (inject_Z 0). rewrite <- Zlt_Qlt. exact Hp. }
    rewrite (Zle_Qle (Z.pos m) (2 ^ (- e))).
    split; intros Hle.
    + apply (Qmult_le_r _ _ (/ inject_Z (2 ^ (- e)))).
      * apply Qinv_lt_0_compat. exact Hq.
      * rewrite Qmult_inv_r by (intros Hz; rewrite Hz in Hq; discriminate). exact Hle.
    + apply (Qmult_le_r _ _ (/ inject_Z (2 ^ (- e)))) in Hle.
      * rewrite Qmult_inv_r in Hle by (intros Hz; rewrite Hz in Hq; discriminate). exact Hle.
      * apply Qinv_lt_0_compat. exact Hq.
Qed.

Lemma pow2_51 : 2 ^ 51 = 2251799813685248. Proof. reflexivity. Qed.
Lemma pow2_52 : 2 ^ 52 = 4503599627370496. Proof. reflexivity. Qed.
Lemma pow2_53 : 2 ^ 53 = 9007199254740992. Proof. reflexivity. Qed.

(** The mantissa comparison of [SFcompare], read on integers. *)
Lemma compare_cont_le (m c : positive) :
  match PosDef.Pos.compare_cont Eq m c with Gt => false | _ => true end = true
  <-> Z.pos m <= Z.pos c.
Proof.
  unfold Z.le. cbn [Z.compare]. unfold Pos.compare.
  destruct (PosDef.Pos.compare_cont Eq m c); split; congruence.
Qed.

(** With at most 53 digits, a mantissa below exponent -52 stays under one. *)
Lemma scaled_small (m : positive) (e : Z) :
  Z.pos m < 9007199254740992 -> e < -52 ->
  if 0 <=? e then Z.pos m * 2 ^ e <= 1 else Z.pos m <= 2 ^ (- e).
Proof.
  intros Hhi He. destruct (Z.leb_spec 0 e); [lia |].
  assert (Hp : 2 ^ 53 <= 2 ^ (- e)) by (apply Z.pow_le_mono_r; lia).
  rewrite pow2_53 in Hp. lia.
Qed.

(** With 53 digits, a mantissa above exponent -52 exceeds one. *)
Lemma scaled_large (m : positive) (e : Z) :
  4503599627370496 <= Z.pos m -> -52 < e ->
  ~ (if 0 <=? e then Z.pos m * 2 ^ e <= 1 else Z.pos m <= 2 ^ (- e)).
Proof.
  intros Hm He Hle. destruct (Z.leb_spec 0 e) as [He0 | He0].
  - assert (1 <= 2 ^ e)
      by (apply Z.pow_le_mono_r with (b := 0) (c := e) (a := 2); lia).
    assert (Z.pos m * 1 <= Z.pos m * 2 ^ e)
      by (apply Z.mul_le_mono_nonneg_l; lia).
    lia.
  - assert (Hp : 2 ^ (- e) <= 2251799813685248).
    { apply Z.le_trans with (2 ^ 51);
        [apply Z.pow_le_mono_r; lia | exact (Z.eq_le_incl _ _ pow2_51)]. }
    pose proof (Z.le_trans _ _ _ Hm (Z.le_trans _ _ _ Hle Hp)) as Hc.
    apply Hc. reflexivity.
Qed.

(** [0.0 <= x <= 1.0] holds exactly of the binary64 numbers that stand
    for a real of the unit interval. *)
Lemma outside_0_1_spec (x : float) :
  is_binary64 x = true ->
  Tiling.outside_0_1 x = false <-> real_in_unit_interval x.
Proof.
  intros Hx. unfold Tiling.outside_0_1, real_in_unit_interval, float_le, SFleb.
  rewrite negb_false_iff.
  destruct x as [s | s | | s m e]; cbn [SFcompare float_0_0 float_1_0 float_value].
  - split; [intros _ | reflexivity].
    exists 0%Q. repeat split; discriminate.
  - split.
    + destruct s; discriminate.
    + intros (q & Hq & _). discriminate.
  - split; [discriminate |]. intros (q & Hq & _). discriminate.
  - apply bounded_binary64 in Hx as [Hhi Hlo].
    rewrite pow2_53 in Hhi. rewrite pow2_52 in Hlo.
    destruct s.
    + split; [discriminate |].
      intros (q & Hq & Hq0 & _). exfalso. injection Hq as <-.
      assert (Hneg : (inject_Z (Z.neg m) * Qpower 2 e < 0)%Q).
      { pose proof (Qmult_lt_compat_r (inject_Z (Z.neg m)) 0 (Qpower 2 e)
                      (Qpower_2_pos e) eq_refl) as Hlt.
        rewrite Qmult_0_l in Hlt. exact Hlt. }
      exact (Qlt_not_le _ _ Hneg Hq0).
    + cbn [andb].
      assert (Hnn : (0 <= inject_Z (Z.pos m) * Qpower 2 e)%Q).
      { apply Qmult_le_0_compat; [discriminate | apply Qlt_le_weak, Qpower_2_pos]. }
      transitivity (inject_Z (Z.pos m) * Qpower 2 e <= 1)%Q.
      2:{ split.
          - intros Hle. eexists. repeat split; [exact Hnn | exact Hle].
          - intros (q & Hq & _ & Hle). injection Hq as <-. exact Hle. }
      rewrite scaled_le_1.
      destruct (Z.compare_spec e (-52)) as [He | He | He].
      * subst e. rewrite compare_cont_le.
        change (0 <=? -52) with false. cbv iota.
        change (- (-52)) with 52. rewrite pow2_52. reflexivity.
      * split; [intros _ | reflexivity]. apply scaled_small; assumption.
      * split; [discriminate |]. intros Hle. exfalso.
        apply (scaled_large m e); [apply Hlo; lia | exact He | exact Hle].
Qed.

(** ** Parameter validation *)

Section ParameterValidation.
Context `{Builtins}.

(** The accepted parameter sets, in the words of the specification. *)
Definition accepted_parameters (a : Tiling.Namespace) : Prop :=
  1 <= Tiling.tiles_x a <= 20 /\
  1 <= Tiling.tiles_y a <= 20 /\
  real_in_unit_interval (Tiling.overlap_x a) /\
  real_in_unit_interval (Tiling.overlap_y a) /\
  (Tiling.tiling_mode a = 0 \/ Tiling.tiling_mode a = 1) /\
  real_in_unit_interval (Tiling.iou_threshold a) /\
  real_in_unit_interval (Tiling.border_threshold a).

(** The floats of a namespace are binary64 numbers. *)
Definition binary64_parameters (a : Tiling.Namespace) : Prop :=
  is_binary64 (Tiling.overlap_x a) = true /\
  is_binary64 (Tiling.overlap_y a) = true /\
  is_binary64 (Tiling.iou_threshold a) = true /\
  is_binary64 (Tiling.border_threshold a) = true.

Lemma outside_1_20_spec (n : Z) : Tiling.outside_1_20 n = false <-> 1 <= n <= 20.
Proof. unfold Tiling.outside_1_20. rewrite negb_false_iff, andb_true_iff. lia. Qed.

Lemma not_in_0_1_spec (n : Z) : Tiling.not_in_0_1 n = false <-> n = 0 \/ n = 1.
Proof. unfold Tiling.not_in_0_1. rewrite negb_false_iff, orb_true_iff. lia. Qed.

(** The constraints [_validate_parameters] checks, in the order it checks
    them. *)
Inductive constraint :=
| TilesX | TilesY | OverlapX | OverlapY | TilingMode | IouThreshold | BorderThreshold.

Definition all_constraints : list constraint :=
  [TilesX; TilesY; OverlapX; OverlapY; TilingMode; IouThreshold; BorderThreshold].

Definition violates (a : Tiling.Namespace) (c : constraint) : bool :=
  match c with
  | TilesX => Tiling.outside_1_20 (Tiling.tiles_x a)
  | TilesY => Tiling.outside_1_20 (Tiling.tiles_y a)
  | OverlapX => Tiling.outside_0_1 (Tiling.overlap_x a)
  | OverlapY => Tiling.outside_0_1 (Tiling.overlap_y a)
  | TilingMode => Tiling.not_in_0_1 (Tiling.tiling_mode a)
  | IouThreshold => Tiling.outside_0_1 (Tiling.iou_threshold a)
  | BorderThreshold => Tiling.outside_0_1 (Tiling.border_threshold a)
  end.

Definition violated (a : Tiling.Namespace) : list constraint :=
  List.filter (violates a) all_constraints.

(** The name under which an error message speaks of a constraint. *)
Definition option_name (c : constraint) : string :=
  match c with
  | TilesX => "tiles-x"
  | TilesY => "tiles-y"
  | OverlapX => "overlap-x"
  | OverlapY => "overlap-y"
  | TilingMode => "tiling-mode"
  | IouThreshold => "iou-threshold"
  | BorderThreshold => "border-threshold"
  end.

(** The message for a violated constraint. *)
Definition violation_message (a : Tiling.Namespace) (c : constraint) : string :=
  match c with
  | TilesX => "tiles-x must be between 1 and 20, got " ++ str_int (Tiling.tiles_x a)
  | TilesY => "tiles-y must be between 1 and 20, got " ++ str_int (Tiling.tiles_y a)
  | OverlapX =>
      "overlap-x must be between 0.0 and 1.0, got " ++ str_float (Tiling.overlap_x a)
  | OverlapY =>
      "overlap-y must be between 0.0 and 1.0, got " ++ str_float (Tiling.overlap_y a)
  | TilingMode => "tiling-mode must be 0 or 1, got " ++ str_int (Tiling.tiling_mode a)
  | IouThreshold =>
      "iou-threshold must be between 0.0 and 1.0, got " ++ str_float (Tiling.iou_threshold a)
  | BorderThreshold =>
      "border-threshold must be between 0.0 and 1.0, got "
        ++ str_float (Tiling.border_threshold a)
  end.

(** Whether the result of the validator is a failure that names the
    constraint. *)
Definition names_constraint (r : res unit) (c : constraint) : bool :=
  match r with
  | Raise e => contains (option_name c) (exn_str e)
  | Ok _ => false
  end.

(** The validator, read off the list of violated constraints. *)
Lemma validate_parameters_violated (a : Tiling.Namespace) :
  Tiling._validate_parameters a =
  match violated a with
  | [] => Ok tt
  | c :: _ => Raise (ValueError (violation_message a c))
  end.
Proof.
  unfold Tiling._validate_parameters, violated, all_constraints.
  cbn [List.filter violates].
  destruct (Tiling.outside_1_20 (Tiling.tiles_x a)); [reflexivity |].
  destruct (Tiling.outside_1_20 (Tiling.tiles_y a)); [reflexivity |].
  destruct (Tiling.outside_0_1 (Tiling.overlap_x a)); [reflexivity |].
  destruct (Tiling.outside_0_1 (Tiling.overlap_y a)); [reflexivity |].
  destruct (Tiling.not_in_0_1 (Tiling.tiling_mode a)); [reflexivity |].
  destruct (Tiling.outside_0_1 (Tiling.iou_threshold a)); [reflexivity |].
  destruct (Tiling.outside_0_1 (Tiling.border_threshold a)); reflexivity.
Qed.

Lemma violated_nil (a : Tiling.Namespace) :
  violated a = [] <-> forall c, violates a c = false.
Proof.
  unfold violated. split.
  - intros Hnil c.
    destruct (violates a c) eqn:Hc; [| reflexivity].
    assert (Hin : In c (List.filter (violates a) all_constraints)).
    { apply filter_In. split; [destruct c; cbn; tauto | exact Hc]. }
    rewrite Hnil in Hin. destruct Hin.
  - intros Hall. unfold all_constraints. cbn [List.filter].
    rewrite !Hall. reflexivity.
Qed.

Lemma validate_parameters_ok (a : Tiling.Namespace) :
  Tiling._validate_parameters a = Ok tt <-> forall c, violates a c = false.
Proof.
  rewrite validate_parameters_violated, <- violated_nil.
  destruct (violated a); split; congruence.
Qed.

(** C1.  Parameter validation accepts a namespace exactly when tiles_x
    and tiles_y are integers between 1 and 20, the two overlaps and the
    two thresholds are reals of the closed unit interval, and the tiling
    mode is 0 or 1.  Every rejection is a ValueError; in particular
    tiles_x = 21 is rejected, with the message of that parameter, and
    tiles_x = 20 is accepted when the other six constraints hold. *)
Theorem validate_parameters_accepts_iff (a : Tiling.Namespace) :
  binary64_parameters a ->
  (Tiling._validate_parameters a = Ok tt <-> accepted_parameters a) /\
  (forall e, Tiling._validate_parameters a = Raise e -> exists msg, e = ValueError msg) /\
  (Tiling.tiles_x a = 21 ->
   Tiling._validate_parameters a =
   Raise (ValueError "tiles-x must be between 1 and 20, got 21")) /\
  (Tiling.tiles_x a = 20 ->
   (Tiling._validate_parameters a = Ok tt <->
    1 <= Tiling.tiles_y a <= 20 /\
    real_in_unit_interval (Tiling.overlap_x a) /\
    real_in_unit_interval (Tiling.overlap_y a) /\
    (Tiling.tiling_mode a = 0 \/ Tiling.tiling_mode a = 1) /\
    real_in_unit_interval (Tiling.iou_threshold a) /\
    real_in_unit_interval (Tiling.border_threshold a))).
Proof.
  intros (Hox & Hoy & Hiou & Hbt).
  assert (Hiff : Tiling._validate_parameters a = Ok tt <-> accepted_parameters a).
  { rewrite validate_parameters_ok. unfold accepted_parameters.
    rewrite <- (outside_1_20_spec (Tiling.tiles_x a)),
            <- (outside_1_20_spec (Tiling.tiles_y a)),
            <- (not_in_0_1_spec (Tiling.tiling_mode a)),
            <- (outside_0_1_spec _ Hox), <- (outside_0_1_spec _ Hoy),
            <- (outside_0_1_spec _ Hiou), <- (outside_0_1_spec _ Hbt).
    split.
    - intros Hall.
      exact (conj (Hall TilesX) (conj (Hall TilesY) (conj (Hall OverlapX)
              (conj (Hall OverlapY) (conj (Hall TilingMode)
                (conj (Hall IouThreshold) (Hall BorderThreshold))))))).
    - intros (H1 & H2 & H3 & H4 & H5 & H6 & H7) c. destruct c; assumption. }
  split; [exact Hiff |]. split; [| split].
  - intros e. rewrite validate_parameters_violated.
    destruct (violated a); [discriminate |]. intros [= <-]. eauto.
  - intros H21. unfold Tiling._validate_parameters. rewrite H21. reflexivity.
  - intros H20. rewrite Hiff. unfold accepted_parameters. rewrite H20.
    split; [tauto |]. intros. split; [lia | assumption].
Qed.

(** C2, as amended.  The validator does not enumerate the violated
    constraints: it accepts when no constraint is violated, and otherwise
    fails with the one ValueError of the first violated constraint, in
    the order tiles-x, tiles-y, overlap-x, overlap-y, tiling-mode,
    iou-threshold, border-threshold. *)
Theorem validate_parameters_reports_first (a : Tiling.Namespace) :
  Tiling._validate_parameters a =
  match violated a with
  | [] => Ok tt
  | c :: _ => Raise (ValueError (violation_message a c))
  end.
Proof. exact (validate_parameters_violated a). Qed.

End ParameterValidation.

(** The defaults with twenty tiles along the x axis. *)
Definition twenty_tiles : Tiling.Namespace := Tiling.set_tiles_x 20 Tiling.defaults.

(** C1 on the defaults with tiles_x = 20: their floats are binary64
    numbers, so they are accepted exactly when they meet the seven
    constraints. *)
Lemma validate_parameters_accepts_twenty :
  binary64_parameters twenty_tiles /\
  (Tiling._validate_parameters (H := Sample.builtins) twenty_tiles = Ok tt <->
   accepted_parameters twenty_tiles).
Proof.
  assert (Hb : binary64_parameters twenty_tiles) by (repeat split; reflexivity).
  split; [exact Hb |].
  exact (proj1 (validate_parameters_accepts_iff (H := Sample.builtins) twenty_tiles Hb)).
Defined.

(** Two parameters out of range: tiles_x = 21 and tiles_y = 0. *)
Definition two_violations : Tiling.Namespace :=
  Tiling.set_tiles_y 0 (Tiling.set_tiles_x 21 Tiling.defaults).

(** C2 fails as stated: with tiles_x = 21 and tiles_y = 0 two constraints
    are violated, and the failure names tiles-x only. *)
Lemma validate_parameters_names_one :
  violated two_violations = [TilesX; TilesY] /\
  Tiling._validate_parameters (H := Sample.builtins) two_violations =
    Raise (ValueError "tiles-x must be between 1 and 20, got 21") /\
  names_constraint (Tiling._validate_parameters (H := Sample.builtins) two_violations)
    TilesY = false.
Proof. repeat split. Qed.

(** ** The event router and the run *)

(** Error and end-of-stream messages. *)
Definition is_terminal (m : Gst.Message) : bool :=
  match m with
  | Gst.ERROR _ _ | Gst.EOS => true
  | _ => false
  end.

Definition is_warning (ev : Gst.Event) : bool :=
  match ev with
  | Gst.Deliver (Gst.WARNING _ _) => true
  | _ => false
  end.

(** The events that end a run: an error message, the end of the stream,
    an interrupt. *)
Definition ends_run (ev : Gst.Event) : Prop :=
  match ev with
  | Gst.Deliver m => is_terminal m = true
  | Gst.Interrupt => True
  | Gst.Buffer => False
  end.

(** The teardown of the graph: [set_state(Gst.State.NULL)]. *)
Definition is_teardown (e : effect) : bool :=
  match e with
  | SetState Gst.NULL => true
  | _ => false
  end.

Definition teardowns (out : list effect) : nat := length (List.filter is_teardown out).

Lemma teardowns_app (out1 out2 : list effect) :
  teardowns (out1 ++ out2) = (teardowns out1 + teardowns out2)%nat.
Proof. unfold teardowns. rewrite List.filter_app, length_app. reflexivity. Qed.

Module TilingRun.
Import Tiling.

Section WithBuiltins.
Context `{Builtins}.

Lemma tiling_on_message_self (self : Self) (m : Gst.Message) :
  fst (fst (on_message self m)) = self.
Proof. destruct m; reflexivity. Qed.

Lemma tiling_on_message_quit (self : Self) (m : Gst.Message) :
  snd (on_message self m) = is_terminal m && loop self.
Proof. destruct m; reflexivity. Qed.

Lemma tiling_on_message_teardowns (self : Self) (m : Gst.Message) :
  teardowns (snd (fst (on_message self m))) = 0%nat.
Proof.
  destruct m as [err dbg | | warn dbg | src o n | st |]; cbn;
    try reflexivity.
  - destruct (truthy dbg && debug (args self)); reflexivity.
  - destruct (truthy dbg && debug (args self)); reflexivity.
  - destruct (src && debug (args self)); reflexivity.
  - destruct (debug (args self)); reflexivity.
Qed.

Lemma tiling_on_buffer_probe_teardowns (self : Self) :
  teardowns (snd (on_buffer_probe self)) = 0%nat.
Proof.
  unfold on_buffer_probe. cbn.
  destruct (_ =? 0); reflexivity.
Qed.

Lemma tiling_on_buffer_probe_loop (self : Self) :
  loop (fst (on_buffer_probe self)) = loop self.
Proof. reflexivity. Qed.

Lemma tiling_loop_run_teardowns (evs : list Gst.Event) :
  forall (self : Self) (probe : bool),
    teardowns (snd (fst (loop_run self probe evs))) = 0%nat.
Proof.
  induction evs as [| ev evs IH]; intros self probe; [reflexivity |].
  destruct ev as [m | |]; cbn [loop_run].
  - pose proof (tiling_on_message_teardowns self m) as Hm.
    destruct (on_message self m) as [[self1 out] quit]. cbn [fst snd] in Hm.
    destruct quit; [exact Hm |].
    specialize (IH self1 probe).
    destruct (loop_run self1 probe evs) as [[self2 out2] e]. cbn [fst snd] in *.
    rewrite teardowns_app, Hm, IH. reflexivity.
  - destruct probe; [| apply IH].
    pose proof (tiling_on_buffer_probe_teardowns self) as Hb.
    destruct (on_buffer_probe self) as [self1 out]. cbn [fst snd] in Hb.
    specialize (IH self1 true).
    destruct (loop_run self1 true evs) as [[self2 out2] e]. cbn [fst snd] in *.
    rewrite teardowns_app, Hb, IH. reflexivity.
  - reflexivity.
Qed.

(** With a main loop to quit, an event that ends the run ends it. *)
Lemma tiling_loop_run_ends (evs : list Gst.Event) :
  forall (self : Self) (probe : bool),
    loop self = true -> Exists ends_run evs ->
    snd (loop_run self probe evs) <> Waiting.
Proof.
  induction evs as [| ev evs IH]; intros self probe Hloop Hex.
  - inversion Hex.
  - destruct ev as [m | |]; cbn [loop_run].
    + pose proof (tiling_on_message_self self m) as Hs.
      pose proof (tiling_on_message_quit self m) as Hq.
      destruct (on_message self m) as [[self1 out] quit]. cbn [fst snd] in Hs, Hq.
      subst self1. rewrite Hloop, andb_true_r in Hq.
      destruct quit; [discriminate |].
      assert (Hex' : Exists ends_run evs).
      { inversion Hex as [? ? Hhd | ? ? Htl]; subst; [| exact Htl].
        cbn in Hhd. congruence. }
      specialize (IH self probe Hloop Hex').
      destruct (loop_run self probe evs) as [[self2 out2] e]. exact IH.
    + assert (Hex' : Exists ends_run evs).
      { inversion Hex as [? ? Hhd | ? ? Htl]; subst; [destruct Hhd | exact Htl]. }
      destruct probe; [| apply IH; assumption].
      pose proof (tiling_on_buffer_probe_loop self) as Hl.
      destruct (on_buffer_probe self) as [self1 out]. cbn [fst] in Hl.
      assert (Hloop1 : loop self1 = true) by congruence.
      specialize (IH self1 true Hloop1 Hex').
      destruct (loop_run self1 true evs) as [[self2 out2] e]. exact IH.
    + discriminate.
Qed.

Lemma tiling_banner_teardowns (a : Namespace) : teardowns (banner a) = 0%nat.
Proof. reflexivity. Qed.

Lemma tiling_build_pipeline_teardowns (self : Self) :
  teardowns (snd (build_pipeline self)) = 0%nat.
Proof. unfold build_pipeline. destruct (debug (args self)); reflexivity. Qed.

End WithBuiltins.
End TilingRun.

Module PreserveRun.
Import Preserve.

Section WithBuiltins.
Context `{Builtins}.

Lemma preserve_on_message_self (self : Self) (m : Gst.Message) :
  fst (fst (on_message self m)) = self.
Proof. destruct m; reflexivity. Qed.

Lemma preserve_on_message_quit (self : Self) (m : Gst.Message) :
  snd (on_message self m) = is_terminal m && loop self.
Proof. destruct m; reflexivity. Qed.

Lemma preserve_on_message_teardowns (self : Self) (m : Gst.Message) :
  teardowns (snd (fst (on_message self m))) = 0%nat.
Proof.
  destruct m as [err dbg | | warn dbg | src o n | st |]; cbn;
    try reflexivity.
  - destruct (truthy dbg && debug (args self)); reflexivity.
  - destruct (truthy dbg && debug (args self)); reflexivity.
  - destruct (src && debug (args self)); reflexivity.
  - destruct (debug (args self)); reflexivity.
Qed.

Lemma preserve_on_buffer_probe_teardowns (self : Self) :
  teardowns (snd (on_buffer_probe self)) = 0%nat.
Proof.
  unfold on_buffer_probe. cbn.
  destruct (_ =? 0); reflexivity.
Qed.

Lemma preserve_on_buffer_probe_loop (self : Self) :
  loop (fst (on_buffer_probe self)) = loop self.
Proof. reflexivity. Qed.

Lemma preserve_loop_run_teardowns (evs : list Gst.Event) :
  forall (self : Self) (probe : bool),
    teardowns (snd (fst (loop_run self probe evs))) = 0%nat.
Proof.
  induction evs as [| ev evs IH]; intros self probe; [reflexivity |].
  destruct ev as [m | |]; cbn [loop_run].
  - pose proof (preserve_on_message_teardowns self m) as Hm.
    destruct (on_message self m) as [[self1 out] quit]. cbn [fst snd] in Hm.
    destruct quit; [exact Hm |].
    specialize (IH self1 probe).
    destruct (loop_run self1 probe evs) as [[self2 out2] e]. cbn [fst snd] in *.
    rewrite teardowns_app, Hm, IH. reflexivity.
  - destruct probe; [| apply IH].
    pose proof (preserve_on_buffer_probe_teardowns self) as Hb.
    destruct (on_buffer_probe self) as [self1 out]. cbn [fst snd] in Hb.
    specialize (IH self1 true).
    destruct (loop_run self1 true evs) as [[self2 out2] e]. cbn [fst snd] in *.
    rewrite teardowns_app, Hb, IH. reflexivity.
  - reflexivity.
Qed.

(** With a main loop to quit, an event that ends the run ends it. *)
Lemma preserve_loop_run_ends (evs : list Gst.Event) :
  forall (self : Self) (probe : bool),
    loop self = true -> Exists ends_run evs ->
    snd (loop_run self probe evs) <> Waiting.
Proof.
  induction evs as [| ev evs IH]; intros self probe Hloop Hex.
  - inversion Hex.
  - destruct ev as [m | |]; cbn [loop_run].
    + pose proof (preserve_on_message_self self m) as Hs.
      pose proof (preserve_on_message_quit self m) as Hq.
      destruct (on_message self m) as [[self1 out] quit]. cbn [fst snd] in Hs, Hq.
      subst self1. rewrite Hloop, andb_true_r in Hq.
      destruct quit; [discriminate |].
      assert (Hex' : Exists ends_run evs).
      { inversion Hex as [? ? Hhd | ? ? Htl]; subst; [| exact Htl].
        cbn in Hhd. congruence. }
      specialize (IH self probe Hloop Hex').
      destruct (loop_run self probe evs) as [[self2 out2] e]. exact IH.
    + assert (Hex' : Exists ends_run evs).
      { inversion Hex as [? ? Hhd | ? ? Htl]; subst; [destruct Hhd | exact Htl]. }
      destruct probe; [| apply IH; assumption].
      pose proof (preserve_on_buffer_probe_loop self) as Hl.
      destruct (on_buffer_probe self) as [self1 out]. cbn [fst] in Hl.
      assert (Hloop1 : loop self1 = true) by congruence.
      specialize (IH self1 true Hloop1 Hex').
      destruct (loop_run self1 true evs) as [[self2 out2] e]. exact IH.
    + discriminate.
Qed.

Lemma preserve_banner_teardowns (a : Namespace) : teardowns (banner a) = 0%nat.
Proof. reflexivity. Qed.

Lemma preserve_build_pipeline_teardowns (self : Self) :
  teardowns (snd (build_pipeline self)) = 0%nat.
Proof. unfold build_pipeline. destruct (debug (args self)); reflexivity. Qed.

End WithBuiltins.
End PreserveRun.


Section RouterAndRun.
Context `{Builtins}.

(** The events of a run without the warnings. *)
Definition without_warnings (evs : list Gst.Event) : list Gst.Event :=
  List.filter (fun ev => negb (is_warning ev)) evs.

Lemma tiling_loop_run_without_warnings (evs : list Gst.Event) :
  forall (self : Tiling.Self) (probe : bool),
    fst (fst (Tiling.loop_run self probe (without_warnings evs))) =
      fst (fst (Tiling.loop_run self probe evs)) /\
    snd (Tiling.loop_run self probe (without_warnings evs)) =
      snd (Tiling.loop_run self probe evs).
Proof.
  induction evs as [| ev evs IH]; intros self probe; [split; reflexivity |].
  destruct ev as [m | |].
  - destruct m as [err dbg | | warn dbg | src o n | st |];
      cbn [without_warnings List.filter is_warning negb Tiling.loop_run Tiling.on_message];
      fold (without_warnings evs);
      try (destruct (Tiling.loop self); [split; reflexivity |]);
      specialize (IH self probe);
      destruct (Tiling.loop_run self probe (without_warnings evs)) as [[s1 o1] e1];
      destruct (Tiling.loop_run self probe evs) as [[s2 o2] e2];
      exact IH.
  - cbn [without_warnings List.filter is_warning negb Tiling.loop_run].
    fold (without_warnings evs).
    destruct probe; [| apply IH].
    destruct (Tiling.on_buffer_probe self) as [self1 out].
    specialize (IH self1 true).
    destruct (Tiling.loop_run self1 true (without_warnings evs)) as [[s1 o1] e1].
    destruct (Tiling.loop_run self1 true evs) as [[s2 o2] e2].
    exact IH.
  - split; reflexivity.
Qed.

Lemma preserve_loop_run_without_warnings (evs : list Gst.Event) :
  forall (self : Preserve.Self) (probe : bool),
    fst (fst (Preserve.loop_run self probe (without_warnings evs))) =
      fst (fst (Preserve.loop_run self probe evs)) /\
    snd (Preserve.loop_run self probe (without_warnings evs)) =
      snd (Preserve.loop_run self probe evs).
Proof.
  induction evs as [| ev evs IH]; intros self probe; [split; reflexivity |].
  destruct ev as [m | |].
  - destruct m as [err dbg | | warn dbg | src o n | st |];
      cbn [without_warnings List.filter is_warning negb Preserve.loop_run
             Preserve.on_message];
      fold (without_warnings evs);
      try (destruct (Preserve.loop self); [split; reflexivity |]);
      specialize (IH self probe);
      destruct (Preserve.loop_run self probe (without_warnings evs)) as [[s1 o1] e1];
      destruct (Preserve.loop_run self probe evs) as [[s2 o2] e2];
      exact IH.
  - cbn [without_warnings List.filter is_warning negb Preserve.loop_run].
    fold (without_warnings evs).
    destruct probe; [| apply IH].
    destruct (Preserve.on_buffer_probe self) as [self1 out].
    specialize (IH self1 true).
    destruct (Preserve.loop_run self1 true (without_warnings evs)) as [[s1 o1] e1].
    destruct (Preserve.loop_run self1 true evs) as [[s2 o2] e2].
    exact IH.
  - split; reflexivity.
Qed.

(** C7.  In both scripts a warning delivered to the message handler is
    printed, leaves the pipeline object as it was and does not quit the
    main loop; the handler quits the loop for error and end-of-stream
    messages only; and the warnings of a run change neither the object
    the main loop ends with nor the way it ends. *)
Theorem warnings_never_end_the_run :
  (forall (self : Tiling.Self) warn dbg,
     fst (fst (Tiling.on_message self (Gst.WARNING warn dbg))) = self /\
     snd (Tiling.on_message self (Gst.WARNING warn dbg)) = false /\
     In (print ("[WARNING] " ++ warn))
        (snd (fst (Tiling.on_message self (Gst.WARNING warn dbg))))) /\
  (forall (self : Tiling.Self) m,
     snd (Tiling.on_message self m) = true -> is_terminal m = true) /\
  (forall (self : Tiling.Self) probe evs,
     fst (fst (Tiling.loop_run self probe (without_warnings evs))) =
       fst (fst (Tiling.loop_run self probe evs)) /\
     snd (Tiling.loop_run self probe (without_warnings evs)) =
       snd (Tiling.loop_run self probe evs)) /\
  (forall (self : Preserve.Self) warn dbg,
     fst (fst (Preserve.on_message self (Gst.WARNING warn dbg))) = self /\
     snd (Preserve.on_message self (Gst.WARNING warn dbg)) = false /\
     In (print ("[WARNING] " ++ warn))
        (snd (fst (Preserve.on_message self (Gst.WARNING warn dbg))))) /\
  (forall (self : Preserve.Self) m,
     snd (Preserve.on_message self m) = true -> is_terminal m = true) /\
  (forall (self : Preserve.Self) probe evs,
     fst (fst (Preserve.loop_run self probe (without_warnings evs))) =
       fst (fst (Preserve.loop_run self probe evs)) /\
     snd (Preserve.loop_run self probe (without_warnings evs)) =
       snd (Preserve.loop_run self probe evs)).
Proof.
  repeat apply conj.
  - intros self warn dbg. repeat split. left. reflexivity.
  - intros self m. rewrite TilingRun.tiling_on_message_quit.
    intros Hq. apply andb_true_iff in Hq. tauto.
  - intros self probe evs. apply tiling_loop_run_without_warnings.
  - intros self warn dbg. repeat split. left. reflexivity.
  - intros self m. rewrite PreserveRun.preserve_on_message_quit.
    intros Hq. apply andb_true_iff in Hq. tauto.
  - intros self probe evs. apply preserve_loop_run_without_warnings.
Qed.

(** What [run] prints last about the frames it counted. *)
Definition tiling_total_line (self : Tiling.Self) : effect :=
  print ("[DONE] Total frames processed: " ++ str_int (Tiling.frame_count self)).

Definition preserve_total_line (self : Preserve.Self) : effect :=
  print ("[DONE] Total frames processed: " ++ str_int (Preserve.frame_count self) ++ nl).

(** The pipeline object with which [run] enters the main loop. *)
Definition tiling_started (self : Tiling.Self) (p : Gst.Pipeline) : Tiling.Self :=
  Tiling.set_loop (Tiling.set_pipeline p self).

Definition preserve_started (self : Preserve.Self) (p : Gst.Pipeline) : Preserve.Self :=
  Preserve.set_loop (Preserve.set_pipeline p self).

Lemma tiling_run_started (self : Tiling.Self) (parse_launch : Gst.Launcher)
    (p : Gst.Pipeline) :
  parse_launch (fst (Tiling.build_pipeline self)) = inr p ->
  Gst.set_state_playing p <> Gst.FAILURE ->
  Exists ends_run (Gst.events p) ->
  exists final before after,
    Tiling.run self parse_launch =
      (Some 0, final, (before ++ SetState Gst.NULL :: after)%list) /\
    final = fst (fst (Tiling.loop_run (tiling_started self p) (Tiling.probe_added p)
                        (Gst.events p))) /\
    teardowns (before ++ SetState Gst.NULL :: after)%list = 1%nat /\
    In (tiling_total_line final) after.
Proof.
  intros Hlaunch Hplay Hends. unfold Tiling.run.
  pose proof (TilingRun.tiling_build_pipeline_teardowns self) as Hbuild.
  destruct (Tiling.build_pipeline self) as [pipeline_str out_build].
  cbn [fst snd] in Hlaunch, Hbuild. rewrite Hlaunch.
  fold (tiling_started self p).
  pose proof (TilingRun.tiling_loop_run_ends (Gst.events p) (tiling_started self p)
                (Tiling.probe_added p) eq_refl Hends) as Hend.
  pose proof (TilingRun.tiling_loop_run_teardowns (Gst.events p) (tiling_started self p)
                (Tiling.probe_added p)) as Hloop.
  destruct (Tiling.loop_run (tiling_started self p) (Tiling.probe_added p) (Gst.events p))
    as [[final out_loop] e].
  cbn [fst snd] in Hend, Hloop |- *.
  set (out_start := (Tiling.banner (Tiling.args self) ++ out_build
                       ++ [print ("[START] Starting tiling pipeline..." ++ nl);
                           SetState Gst.PLAYING])%list).
  assert (Hstart : teardowns out_start = 0%nat).
  { subst out_start.
    rewrite !teardowns_app, TilingRun.tiling_banner_teardowns, Hbuild. reflexivity. }
  destruct (Gst.set_state_playing p); try contradiction;
    (destruct e; [| | contradiction]).
  all: exists final.
  all: match goal with
       | |- context [print (nl ++ "[INTERRUPTED] Stopping pipeline...")] =>
           exists (out_start ++ out_loop
                     ++ [print (nl ++ "[INTERRUPTED] Stopping pipeline...")])%list
       | |- _ => exists (out_start ++ out_loop)%list
       end.
  all: eexists.
  all: split; [rewrite <- ?app_assoc; reflexivity |].
  all: split; [reflexivity |].
  all: split; [rewrite !teardowns_app, Hstart, Hloop; reflexivity |].
  all: right; left; reflexivity.
Qed.

Lemma preserve_run_started (self : Preserve.Self) (parse_launch : Gst.Launcher)
    (p : Gst.Pipeline) :
  parse_launch (fst (Preserve.build_pipeline self)) = inr p ->
  Gst.set_state_playing p <> Gst.FAILURE ->
  Exists ends_run (Gst.events p) ->
  exists final before after,
    Preserve.run self parse_launch =
      (Some 0, final, (before ++ SetState Gst.NULL :: after)%list) /\
    final = fst (fst (Preserve.loop_run (preserve_started self p) (Preserve.probe_added p)
                        (Gst.events p))) /\
    teardowns (before ++ SetState Gst.NULL :: after)%list = 1%nat /\
    In (preserve_total_line final) after.
Proof.
  intros Hlaunch Hplay Hends. unfold Preserve.run.
  pose proof (PreserveRun.preserve_build_pipeline_teardowns self) as Hbuild.
  destruct (Preserve.build_pipeline self) as [pipeline_str out_build].
  cbn [fst snd] in Hlaunch, Hbuild. rewrite Hlaunch.
  fold (preserve_started self p).
  pose proof (PreserveRun.preserve_loop_run_ends (Gst.events p) (preserve_started self p)
                (Preserve.probe_added p) eq_refl Hends) as Hend.
  pose proof (PreserveRun.preserve_loop_run_teardowns (Gst.events p) (preserve_started self p)
                (Preserve.probe_added p)) as Hloop.
  destruct (Preserve.loop_run (preserve_started self p) (Preserve.probe_added p) (Gst.events p))
    as [[final out_loop] e].
  cbn [fst snd] in Hend, Hloop |- *.
  set (out_start := (Preserve.banner (Preserve.args self) ++ out_build
                       ++ [print ("[START] Starting pipeline..." ++ nl);
                           SetState Gst.PLAYING])%list).
  assert (Hstart : teardowns out_start = 0%nat).
  { subst out_start.
    rewrite !teardowns_app, PreserveRun.preserve_banner_teardowns, Hbuild. reflexivity. }
  destruct (Gst.set_state_playing p); try contradiction;
    (destruct e; [| | contradiction]).
  all: exists final.
  all: match goal with
       | |- context [print (nl ++ "[INTERRUPTED] Stopping pipeline...")] =>
           exists (out_start ++ out_loop
                     ++ [print (nl ++ "[INTERRUPTED] Stopping pipeline...")])%list
       | |- _ => exists (out_start ++ out_loop)%list
       end.
  all: eexists.
  all: split; [rewrite <- ?app_assoc; reflexivity |].
  all: split; [reflexivity |].
  all: split; [rewrite !teardowns_app, Hstart, Hloop; reflexivity |].
  all: right; left; reflexivity.
Qed.

(** C5.  In both scripts, whenever [run] has started the pipeline
    (the graph was built and [set_state(PLAYING)] did not fail) and the
    events of the run hold an end of stream, an error message or an
    interrupt, [run] returns, its effects hold exactly one teardown
    ([set_state(NULL)]), and after the teardown it prints the number of
    frames counted when the main loop ended. *)
Theorem teardown_once_then_report :
  (forall (self : Tiling.Self) (parse_launch : Gst.Launcher) (p : Gst.Pipeline),
     parse_launch (fst (Tiling.build_pipeline self)) = inr p ->
     Gst.set_state_playing p <> Gst.FAILURE ->
     Exists ends_run (Gst.events p) ->
     exists final before after,
       Tiling.run self parse_launch =
         (Some 0, final, (before ++ SetState Gst.NULL :: after)%list) /\
       final = fst (fst (Tiling.loop_run (tiling_started self p) (Tiling.probe_added p)
                           (Gst.events p))) /\
       teardowns (before ++ SetState Gst.NULL :: after)%list = 1%nat /\
       In (tiling_total_line final) after) /\
  (forall (self : Preserve.Self) (parse_launch : Gst.Launcher) (p : Gst.Pipeline),
     parse_launch (fst (Preserve.build_pipeline self)) = inr p ->
     Gst.set_state_playing p <> Gst.FAILURE ->
     Exists ends_run (Gst.events p) ->
     exists final before after,
       Preserve.run self parse_launch =
         (Some 0, final, (before ++ SetState Gst.NULL :: after)%list) /\
       final = fst (fst (Preserve.loop_run (preserve_started self p)
                           (Preserve.probe_added p) (Gst.events p))) /\
       teardowns (before ++ SetState Gst.NULL :: after)%list = 1%nat /\
       In (preserve_total_line final) after).
Proof.
  split.
  - intros self parse_launch p. apply tiling_run_started.
  - intros self parse_launch p. apply preserve_run_started.
Qed.

End RouterAndRun.

(** C5 on three frames that end with the end of the stream: the tiling
    script returns 0 with one teardown and reports three frames. *)
Lemma teardown_once_three_frames :
  exists final before after,
    Tiling.run (H := Sample.builtins) Sample.tiling_self (Sample.launch Sample.three_frames) =
      (Some 0, final, (before ++ SetState Gst.NULL :: after)%list) /\
    Tiling.frame_count final = 3 /\
    teardowns (before ++ SetState Gst.NULL :: after)%list = 1%nat /\
    In (tiling_total_line final) after.
Proof.
  assert (Hends : Exists ends_run (Gst.events (Sample.playing Sample.three_frames))).
  { do 4 apply Exists_cons_tl. apply Exists_cons_hd. reflexivity. }
  destruct (proj1 (teardown_once_then_report (H := Sample.builtins))
              Sample.tiling_self (Sample.launch Sample.three_frames)
              (Sample.playing Sample.three_frames) eq_refl
              ltac:(discriminate) Hends)
    as (final & before & after & Hrun & Hfinal & Hone & Hin).
  exists final, before, after.
  split; [exact Hrun |]. split; [| split; [exact Hone | exact Hin]].
  rewrite Hfinal. reflexivity.
Defined.

(** ** The file system under [mkdir] *)

Lemma node_at_insert_dir (t : gmap (list string) node) (q cur : list string) :
  node_at t cur = Some Dir -> node_at (<[q := Dir]> t) cur = Some Dir.
Proof.
  destruct cur as [| c cur]; [reflexivity |]. cbn [node_at].
  intros Hcur. rewrite lookup_insert. case_decide; [reflexivity | exact Hcur].
Qed.

Lemma node_at_insert_eq (t : gmap (list string) node) (q : list string) :
  node_at (<[q := Dir]> t) q = Some Dir.
Proof. destruct q as [| c q]; [reflexivity |]. cbn [node_at]. apply lookup_insert_eq. Qed.

(** A new directory leaves every path that resolved resolving to the same
    place. *)
Lemma walk_insert_dir (t : gmap (list string) node) (q : list string) (ps : list string) :
  forall cur q', walk t cur ps = inr q' -> walk (<[q := Dir]> t) cur ps = inr q'.
Proof.
  induction ps as [| c ps IH]; intros cur q' Hwalk; [exact Hwalk |].
  cbn [walk] in *.
  destruct (node_at t cur) as [[|] |] eqn:Hcur; try discriminate.
  rewrite (node_at_insert_dir t q cur Hcur). apply IH. exact Hwalk.
Qed.

(** Resolving a path with one more part: the path before it has to lead
    to a directory. *)
Lemma walk_snoc (t : gmap (list string) node) (ps : list string) (c : string) :
  forall cur,
    walk t cur (ps ++ [c])%list =
    match walk t cur ps with
    | inl e => inl e
    | inr q =>
        match node_at t q with
        | Some Dir => inr (if String.eqb c ".." then removelast q else (q ++ [c])%list)
        | Some File => inl ENOTDIR
        | None => inl ENOENT
        end
    end.
Proof.
  induction ps as [| d ps IH]; intros cur.
  - cbn [app walk]. destruct (node_at t cur) as [[|] |]; reflexivity.
  - cbn [app walk]. destruct (node_at t cur) as [[|] |]; try reflexivity. apply IH.
Qed.

Lemma os_mkdir_is_dir (fs fs' : FS) (p : Path) :
  os_mkdir fs p = inr fs' -> is_dir fs' p = true.
Proof.
  unfold os_mkdir, is_dir, resolve.
  destruct (walk (nodes fs) _ (parts p)) as [e | q] eqn:Hwalk; [discriminate |].
  destruct (node_at (nodes fs) q); [discriminate |].
  intros [= <-]. cbn [cwd nodes].
  rewrite (walk_insert_dir _ q _ _ _ Hwalk), node_at_insert_eq. reflexivity.
Qed.

Lemma is_dir_os_mkdir (fs : FS) (p : Path) :
  is_dir fs p = true -> os_mkdir fs p = inl EEXIST.
Proof.
  unfold os_mkdir, is_dir.
  destruct (resolve fs p) as [e | q]; [discriminate |].
  destruct (node_at (nodes fs) q) as [[|] |]; try discriminate. reflexivity.
Qed.

Lemma is_dir_mkdir_exist_ok (fs : FS) (p : Path) :
  is_dir fs p = true -> mkdir_exist_ok fs p = (Ok tt, fs).
Proof.
  intros Hdir. unfold mkdir_exist_ok.
  rewrite (is_dir_os_mkdir fs p Hdir), Hdir. reflexivity.
Qed.

(** An existing directory makes [mkdir(parents=True, exist_ok=True)] a
    successful call that changes nothing. *)
Lemma is_dir_mkdir_parents (fs : FS) (r : anchor) (rps : list string) :
  is_dir fs {| root := r; parts := rev rps |} = true ->
  mkdir_parents fs r rps = (Ok tt, fs).
Proof.
  intros Hdir. destruct rps as [| c rps]; cbn [mkdir_parents];
    rewrite (is_dir_os_mkdir _ _ Hdir), Hdir; reflexivity.
Qed.

Lemma mkdir_exist_ok_is_dir (fs fs' : FS) (p : Path) :
  mkdir_exist_ok fs p = (Ok tt, fs') -> is_dir fs' p = true.
Proof.
  unfold mkdir_exist_ok.
  destruct (os_mkdir fs p) as [[| |] | fs2] eqn:Hos.
  - discriminate.
  - destruct (is_dir fs p) eqn:Hdir; [| discriminate]. intros [= <-]. exact Hdir.
  - destruct (is_dir fs p) eqn:Hdir; [| discriminate]. intros [= <-]. exact Hdir.
  - intros [= <-]. exact (os_mkdir_is_dir _ _ _ Hos).
Qed.

(** After a successful [mkdir] the directory is there. *)
Lemma mkdir_parents_is_dir (fs fs' : FS) (r : anchor) (rps : list string) :
  mkdir_parents fs r rps = (Ok tt, fs') ->
  is_dir fs' {| root := r; parts := rev rps |} = true.
Proof.
  destruct rps as [| c rps]; cbn [mkdir_parents];
    destruct (os_mkdir fs _) as [[| |] | fs2] eqn:Hos;
    try discriminate;
    try (destruct (is_dir fs _) eqn:Hdir; [| discriminate]; intros [= <-]; exact Hdir);
    try (intros [= <-]; exact (os_mkdir_is_dir _ _ _ Hos)).
  destruct (mkdir_parents fs r rps) as [[[] | e] fs1]; [| discriminate].
  apply mkdir_exist_ok_is_dir.
Qed.

(** Below something that is not a directory nothing resolves: [os.mkdir]
    fails there, and there is no directory. *)
Lemma below_no_dir (fs : FS) (r : anchor) (rps : list string) (c : string) :
  is_dir fs {| root := r; parts := rev rps |} = false ->
  exists e, resolve fs {| root := r; parts := rev (c :: rps) |} = inl e.
Proof.
  unfold is_dir, resolve. cbn [root parts rev]. rewrite walk_snoc.
  destruct (walk (nodes fs) _ (rev rps)) as [e | q]; [eauto |].
  destruct (node_at (nodes fs) q) as [[|] |]; try discriminate; eauto.
Qed.

Definition is_ok {A : Type} (r : res A) : bool :=
  match r with
  | Ok _ => true
  | Raise _ => false
  end.

(** Running the call once more changes nothing and ends the same way,
    as soon as the first call changed nothing or succeeded. *)
Definition same_again (fs : FS) (r : anchor) (rps : list string) : Prop :=
  snd (mkdir_parents (snd (mkdir_parents fs r rps)) r rps) = snd (mkdir_parents fs r rps) /\
  is_ok (fst (mkdir_parents (snd (mkdir_parents fs r rps)) r rps)) =
    is_ok (fst (mkdir_parents fs r rps)).

Lemma same_again_unchanged (fs : FS) (r : anchor) (rps : list string) (x : res unit) :
  mkdir_parents fs r rps = (x, fs) -> same_again fs r rps.
Proof. intros Hx. unfold same_again. rewrite Hx. cbn [fst snd]. rewrite Hx. split; reflexivity. Qed.

Lemma same_again_ok (fs fs' : FS) (r : anchor) (rps : list string) :
  mkdir_parents fs r rps = (Ok tt, fs') -> same_again fs r rps.
Proof.
  intros Hx. unfold same_again. rewrite Hx. cbn [fst snd].
  rewrite (is_dir_mkdir_parents fs' r rps (mkdir_parents_is_dir _ _ _ _ Hx)).
  split; reflexivity.
Qed.

Lemma mkdir_parents_nil (fs : FS) (r : anchor) :
  exists x fs', mkdir_parents fs r [] = (x, fs') /\ (fs' = fs \/ x = Ok tt).
Proof.
  cbn [mkdir_parents].
  destruct (os_mkdir fs _) as [[| |] | fs2]; try destruct (is_dir fs _); eauto.
Qed.

(** Running [mkdir(parents=True, exist_ok=True)] once more changes
    nothing, and fails if and only if the first call failed. *)
Lemma mkdir_parents_again (r : anchor) (rps : list string) :
  forall fs, same_again fs r rps.
Proof.
  induction rps as [| c rps IH]; intros fs.
  - destruct (mkdir_parents_nil fs r) as (x & fs' & Hx & [-> | ->]).
    + exact (same_again_unchanged _ _ _ _ Hx).
    + exact (same_again_ok _ _ _ _ Hx).
  - set (p := {| root := r; parts := rev (c :: rps) |}).
    destruct (os_mkdir fs p) as [[| |] | fs2] eqn:Hos.
    + (* the parent is missing *)
      specialize (IH fs). unfold same_again in IH.
      destruct (mkdir_parents fs r rps) as [[[] | e] fs1] eqn:Hparent;
        cbn [fst snd] in IH; destruct IH as [IHfs IHok].
      * (* the parent was made *)
        pose proof (mkdir_parents_is_dir _ _ _ _ Hparent) as Hpdir.
        assert (Hrun : mkdir_parents fs r (c :: rps) = mkdir_exist_ok fs1 p).
        { cbn [mkdir_parents]. fold p. rewrite Hos, Hparent. reflexivity. }
        destruct (mkdir_exist_ok fs1 p) as [x fs3] eqn:Hlast.
        destruct x as [[] | e].
        -- exact (same_again_ok _ _ _ _ Hrun).
        -- assert (fs3 = fs1) as ->.
           { unfold mkdir_exist_ok in Hlast.
             destruct (os_mkdir fs1 p) as [[| |] | fs4]; try destruct (is_dir fs1 p);
               congruence. }
           unfold same_again. rewrite Hrun. cbn [fst snd].
           assert (Hrerun : mkdir_parents fs1 r (c :: rps) = (Raise e, fs1)).
           { cbn [mkdir_parents]. fold p.
             unfold mkdir_exist_ok in Hlast.
             destruct (os_mkdir fs1 p) as [[| |] | fs4] eqn:Hos1.
             - rewrite (is_dir_mkdir_parents fs1 r rps Hpdir).
               unfold mkdir_exist_ok. rewrite Hos1. exact Hlast.
             - exact Hlast.
             - exact Hlast.
             - discriminate. }
           rewrite Hrerun. split; reflexivity.
      * (* the parent could not be made *)
        assert (Hrun : mkdir_parents fs r (c :: rps) = (Raise e, fs1)).
        { cbn [mkdir_parents]. fold p. rewrite Hos, Hparent. reflexivity. }
        unfold same_again. rewrite Hrun. cbn [fst snd].
        assert (Hnodir : is_dir fs1 {| root := r; parts := rev rps |} = false).
        { destruct (is_dir fs1 _) eqn:Hdir; [| reflexivity].
          rewrite (is_dir_mkdir_parents fs1 r rps Hdir) in IHok. discriminate. }
        destruct (below_no_dir fs1 r rps c Hnodir) as [e' He'].
        fold p in He'.
        assert (Hos1 : os_mkdir fs1 p = inl e') by (unfold os_mkdir; rewrite He'; reflexivity).
        assert (Hdir1 : is_dir fs1 p = false) by (unfold is_dir; rewrite He'; reflexivity).
        cbn [mkdir_parents]. fold p. rewrite Hos1, Hdir1.
        destruct e'.
        -- destruct (mkdir_parents fs1 r rps) as [[[] | e2] fs5];
             cbn [fst snd] in IHfs, IHok; [discriminate |].
           subst fs5. split; reflexivity.
        -- split; reflexivity.
        -- split; reflexivity.
    + apply (same_again_unchanged _ _ _
               (if is_dir fs p then Ok tt else Raise (os_error EEXIST p))).
      cbn [mkdir_parents]. fold p. rewrite Hos. destruct (is_dir fs p); reflexivity.
    + apply (same_again_unchanged _ _ _
               (if is_dir fs p then Ok tt else Raise (os_error ENOTDIR p))).
      cbn [mkdir_parents]. fold p. rewrite Hos. destruct (is_dir fs p); reflexivity.
    + apply (same_again_ok _ fs2). cbn [mkdir_parents]. fold p. rewrite Hos. reflexivity.
Qed.

Lemma mkdir_again (fs : FS) (p : Path) :
  snd (mkdir (snd (mkdir fs p)) p) = snd (mkdir fs p).
Proof. unfold mkdir. apply mkdir_parents_again. Qed.

Lemma is_dir_mkdir (fs : FS) (p : Path) :
  is_dir fs p = true -> mkdir fs p = (Ok tt, fs).
Proof.
  intros Hdir. unfold mkdir. apply is_dir_mkdir_parents.
  rewrite rev_involutive. destruct p. exact Hdir.
Qed.

Lemma mkdir_is_dir (fs fs' : FS) (p : Path) :
  mkdir fs p = (Ok tt, fs') -> is_dir fs' p = true.
Proof.
  unfold mkdir. intros Hmk. apply mkdir_parents_is_dir in Hmk.
  rewrite rev_involutive in Hmk. destruct p. exact Hmk.
Qed.

(** ** Path validation *)

(** The three files a script reads exist. *)
Definition tiling_files_exist (a : Tiling.Namespace) (fs : FS) : Prop :=
  exists_ fs (Path_of (Tiling.input a)) = true /\
  exists_ fs (Path_of (Tiling.hef a)) = true /\
  exists_ fs (Path_of (Tiling.postprocess_so a)) = true.

Definition preserve_files_exist (a : Preserve.Namespace) (fs : FS) : Prop :=
  exists_ fs (Path_of (Preserve.input a)) = true /\
  exists_ fs (Path_of (Preserve.hef a)) = true /\
  exists_ fs (Path_of (Preserve.postprocess_so a)) = true.

(** The directory the output file goes to. *)
Definition tiling_output_dir (a : Tiling.Namespace) : Path :=
  parent (Path_of (Tiling.output a)).

Definition preserve_output_dir (a : Preserve.Namespace) : Path :=
  parent (Path_of (Preserve.output a)).

(** Path validation with the three files in place: the call is the
    [mkdir] of the output directory, or nothing at all when the output
    goes to the current directory. *)
Lemma tiling_validate_paths_mkdir (a : Tiling.Namespace) (fs : FS) :
  tiling_files_exist a fs ->
  Tiling._validate_paths a fs =
  if bool_decide (tiling_output_dir a = Path_of ".")
  then (Ok tt, fs) else mkdir fs (tiling_output_dir a).
Proof.
  intros (Hin & Hhef & Hso). unfold Tiling._validate_paths, tiling_output_dir.
  rewrite Hin, Hhef, Hso. cbn [negb].
  destruct (bool_decide _); reflexivity.
Qed.

Lemma preserve_validate_paths_mkdir (a : Preserve.Namespace) (fs : FS) :
  preserve_files_exist a fs ->
  Preserve._validate_paths a fs =
  if bool_decide (preserve_output_dir a = Path_of ".")
  then (Ok tt, fs) else mkdir fs (preserve_output_dir a).
Proof.
  intros (Hin & Hhef & Hso). unfold Preserve._validate_paths, preserve_output_dir.
  rewrite Hin, Hhef, Hso. cbn [negb].
  destruct (bool_decide _); reflexivity.
Qed.

(** Whatever the files, path validation leaves the file system as it
    was or as the [mkdir] of the output directory leaves it. *)
Lemma tiling_validate_paths_fs (a : Tiling.Namespace) (fs : FS) :
  snd (Tiling._validate_paths a fs) = fs \/
  snd (Tiling._validate_paths a fs) = snd (mkdir fs (tiling_output_dir a)).
Proof.
  unfold Tiling._validate_paths, tiling_output_dir.
  do 3 (destruct (negb (exists_ _ _)); [left; reflexivity |]).
  destruct (negb (bool_decide _)); [right | left]; reflexivity.
Qed.

Lemma preserve_validate_paths_fs (a : Preserve.Namespace) (fs : FS) :
  snd (Preserve._validate_paths a fs) = fs \/
  snd (Preserve._validate_paths a fs) = snd (mkdir fs (preserve_output_dir a)).
Proof.
  unfold Preserve._validate_paths, preserve_output_dir.
  do 3 (destruct (negb (exists_ _ _)); [left; reflexivity |]).
  destruct (negb (bool_decide _)); [right | left]; reflexivity.
Qed.

Lemma tiling_validate_paths_twice (a : Tiling.Namespace) (fs : FS) :
  tiling_files_exist a fs ->
  snd (Tiling._validate_paths a (snd (Tiling._validate_paths a fs))) =
  snd (Tiling._validate_paths a fs).
Proof.
  intros Hfiles. rewrite (tiling_validate_paths_mkdir a fs Hfiles).
  destruct (bool_decide (tiling_output_dir a = Path_of ".")) eqn:Hdot; cbn [snd].
  - rewrite (tiling_validate_paths_mkdir a fs Hfiles), Hdot. reflexivity.
  - destruct (tiling_validate_paths_fs a (snd (mkdir fs (tiling_output_dir a))))
      as [-> | ->]; [reflexivity | apply mkdir_again].
Qed.

Lemma preserve_validate_paths_twice (a : Preserve.Namespace) (fs : FS) :
  preserve_files_exist a fs ->
  snd (Preserve._validate_paths a (snd (Preserve._validate_paths a fs))) =
  snd (Preserve._validate_paths a fs).
Proof.
  intros Hfiles. rewrite (preserve_validate_paths_mkdir a fs Hfiles).
  destruct (bool_decide (preserve_output_dir a = Path_of ".")) eqn:Hdot; cbn [snd].
  - rewrite (preserve_validate_paths_mkdir a fs Hfiles), Hdot. reflexivity.
  - destruct (preserve_validate_paths_fs a (snd (mkdir fs (preserve_output_dir a))))
      as [-> | ->]; [reflexivity | apply mkdir_again].
Qed.

(** C8.  In both scripts, for every argument set whose input, model and
    postprocess files exist: when the output directory is already there,
    path validation succeeds (and changes nothing); and running path
    validation twice leaves the file system as running it once does. *)
Theorem validate_paths_idempotent :
  (forall (a : Tiling.Namespace) (fs : FS),
     tiling_files_exist a fs ->
     (is_dir fs (tiling_output_dir a) = true ->
      Tiling._validate_paths a fs = (Ok tt, fs)) /\
     snd (Tiling._validate_paths a (snd (Tiling._validate_paths a fs))) =
       snd (Tiling._validate_paths a fs)) /\
  (forall (a : Preserve.Namespace) (fs : FS),
     preserve_files_exist a fs ->
     (is_dir fs (preserve_output_dir a) = true ->
      Preserve._validate_paths a fs = (Ok tt, fs)) /\
     snd (Preserve._validate_paths a (snd (Preserve._validate_paths a fs))) =
       snd (Preserve._validate_paths a fs)).
Proof.
  split.
  - intros a fs Hfiles. split; [| exact (tiling_validate_paths_twice a fs Hfiles)].
    intros Hdir. rewrite (tiling_validate_paths_mkdir a fs Hfiles).
    destruct (bool_decide _); [reflexivity | exact (is_dir_mkdir _ _ Hdir)].
  - intros a fs Hfiles. split; [| exact (preserve_validate_paths_twice a fs Hfiles)].
    intros Hdir. rewrite (preserve_validate_paths_mkdir a fs Hfiles).
    destruct (bool_decide _); [reflexivity | exact (is_dir_mkdir _ _ Hdir)].
Qed.

(** The file system after a first path validation of the tiling example:
    [out/] is there now. *)
Definition fs_with_out : FS := snd (Tiling._validate_paths Sample.tiling_args Sample.fs0).

(** C8 on the tiling example: with [out/] in place path validation
    passes and changes nothing, and a second validation of the first
    file system leaves what the first one left. *)
Lemma validate_paths_again_with_out :
  Tiling._validate_paths Sample.tiling_args fs_with_out = (Ok tt, fs_with_out)
  /\ snd (Tiling._validate_paths Sample.tiling_args
            (snd (Tiling._validate_paths Sample.tiling_args Sample.fs0))) =
     snd (Tiling._validate_paths Sample.tiling_args Sample.fs0).
Proof.
  split.
  - apply (proj1 validate_paths_idempotent Sample.tiling_args fs_with_out).
    + repeat split; vm_compute; reflexivity.
    + vm_compute. reflexivity.
  - apply (proj1 validate_paths_idempotent Sample.tiling_args Sample.fs0).
    repeat split; vm_compute; reflexivity.
Defined.

(** ** argparse: how a parse can end, and what it keeps *)

Section ArgparseFacts.
Context {NS : Type}.
Implicit Types (a : Argparse.Action NS) (st : Argparse.state NS).

(** The parser leaves only by [sys.exit(0)] (after its help) or
    [sys.exit(2)] (on an error). *)
Definition exits_0_or_2 {A : Type} (r : res A) : Prop :=
  forall e, r = Raise e -> e = SystemExit 0 \/ e = SystemExit 2.

(** An action keeps a property of the namespace. *)
Definition action_keeps (P : NS -> Prop) a : Prop :=
  match Argparse.kind a with
  | Argparse.Store convert => forall v f ns, convert v = Some f -> P ns -> P (f ns)
  | Argparse.StoreTrue f => forall ns, P ns -> P (f ns)
  | Argparse.Help => True
  end.

Definition state_keeps (P : NS -> Prop) (r : res (Argparse.state NS)) : Prop :=
  forall st, r = Ok st -> P (Argparse.namespace st).

Variable P : NS -> Prop.

Lemma take_action_exits a arg st : exits_0_or_2 (Argparse.take_action a arg st).
Proof.
  unfold Argparse.take_action, exits_0_or_2.
  destruct (Argparse.kind a) as [convert | f |]; destruct arg as [v |];
    try destruct (convert v); intros e [= <-]; auto.
Qed.

Lemma take_action_keeps a arg st :
  action_keeps P a -> P (Argparse.namespace st) ->
  state_keeps P (Argparse.take_action a arg st).
Proof.
  unfold Argparse.take_action, action_keeps, state_keeps.
  destruct (Argparse.kind a) as [convert | f |]; destruct arg as [v |];
    try destruct (convert v) eqn:Hv; intros Hkeep HP st' [= <-]; cbn; eauto.
Qed.

Lemma take_actions_exits (tuples : list (Argparse.Action NS * option string)) :
  forall st, exits_0_or_2 (Argparse.take_actions tuples st).
Proof.
  induction tuples as [| [a arg] tuples IH]; intros st; cbn [Argparse.take_actions].
  - intros e [=].
  - pose proof (take_action_exits a arg st) as Hone.
    destruct (Argparse.take_action a arg st) as [st1 | e1]; cbn [bind].
    + apply IH.
    + exact Hone.
Qed.

Lemma take_actions_keeps (tuples : list (Argparse.Action NS * option string)) :
  Forall (fun t => action_keeps P (fst t)) tuples ->
  forall st, P (Argparse.namespace st) -> state_keeps P (Argparse.take_actions tuples st).
Proof.
  induction tuples as [| [a arg] tuples IH]; intros Hall st HP; cbn [Argparse.take_actions].
  - intros st' [= <-]. exact HP.
  - inversion Hall as [| ? ? Ha Hrest]; subst. cbn [fst] in Ha.
    pose proof (take_action_keeps a arg st Ha HP) as Hone.
    destruct (Argparse.take_action a arg st) as [st1 | e1]; cbn [bind].
    + apply IH; [exact Hrest | apply Hone; reflexivity].
    + intros st' [=].
Qed.

(** The actions of an option table. *)
Definition table_keeps (m : list (string * Argparse.Action NS)) : Prop :=
  Forall (fun oa => action_keeps P (snd oa)) m.

Lemma lookup_option_keeps (m : list (string * Argparse.Action NS)) (o : string) a :
  table_keeps m -> Argparse.lookup_option m o = Some a -> action_keeps P a.
Proof.
  unfold table_keeps. induction m as [| [o' a'] m IH]; intros Hall; [discriminate |].
  inversion Hall as [| ? ? Ha Hrest]; subst. cbn [Argparse.lookup_option].
  destruct (String.eqb o o'); [intros [= <-]; exact Ha | apply IH; exact Hrest].
Qed.

Lemma clump_keeps (m : list (string * Argparse.Action NS)) (ex : string) :
  table_keeps m ->
  forall a option_string tuples last,
    action_keeps P a ->
    Argparse.clump m a option_string ex = Some (tuples, last) ->
    Forall (fun t => action_keeps P (fst t)) tuples /\
    (forall a', last = Some a' -> action_keeps P a').
Proof.
  intros Hm. induction ex as [| c ex IH]; intros a option_string tuples last Ha;
    cbn [Argparse.clump]; destruct (Argparse.kind a) eqn:Hkind;
    try (intros [= <- <-]; split; [repeat constructor; exact Ha | intros a' [=]]);
    try (destruct (Argparse.second_is_dash option_string); discriminate).
  all: destruct (Argparse.second_is_dash option_string); [discriminate |].
  all: destruct (Argparse.lookup_option m _) as [a1 |] eqn:Hlook; [| discriminate].
  all: pose proof (lookup_option_keeps m _ a1 Hm Hlook) as Ha1.
  all: destruct ex as [| c' ex'].
  all: try (intros [= <- <-]; split;
            [repeat constructor; exact Ha | intros a' [= <-]; exact Ha1]).
  all: destruct (Argparse.clump m a1 _ (String c' ex')) as [[tuples1 last1] |] eqn:Hrec;
    [| discriminate].
  all: intros [= <- <-].
  all: destruct (IH a1 _ tuples1 last1 Ha1 Hrec) as [Htuples Hlast].
  all: split; [constructor; [exact Ha | exact Htuples] | exact Hlast].
Qed.

(** The actions of a classified command line. *)
Definition items_keep (items : list (string * Argparse.arg_class NS)) : Prop :=
  Forall (fun it =>
            match snd it with
            | Argparse.Optional (Some a) _ _ => action_keeps P a
            | _ => True
            end) items.

Lemma consume_spec (m : list (string * Argparse.Action NS)) (n : nat) :
  forall items st,
    (length items <= n)%nat ->
    exits_0_or_2 (Argparse.consume m items st) /\
    (table_keeps m -> items_keep items -> P (Argparse.namespace st) ->
     state_keeps P (Argparse.consume m items st)).
Proof.
  induction n as [| n IH]; intros items st Hlen.
  - destruct items; [| cbn in Hlen; lia]. cbn [Argparse.consume]. split.
    + intros e [=].
    + intros _ _ HP st' [= <-]. exact HP.
  - destruct items as [| [s k] rest].
    { cbn [Argparse.consume]. split; [intros e [=] | intros _ _ HP st' [= <-]; exact HP]. }
    cbn [length] in Hlen.
    assert (Hrest : forall st1, exits_0_or_2 (Argparse.consume m rest st1) /\
              (table_keeps m -> items_keep rest -> P (Argparse.namespace st1) ->
               state_keeps P (Argparse.consume m rest st1)))
      by (intros st1; apply IH; lia).
    assert (Hthen : forall tuples rest1,
              (length rest1 <= n)%nat ->
              exits_0_or_2 (bind (Argparse.take_actions tuples st) (Argparse.consume m rest1)) /\
              (table_keeps m -> items_keep rest1 ->
               Forall (fun t => action_keeps P (fst t)) tuples ->
               P (Argparse.namespace st) ->
               state_keeps P (bind (Argparse.take_actions tuples st)
                                (Argparse.consume m rest1)))).
    { intros tuples rest1 Hlen1.
      pose proof (take_actions_exits tuples st) as Hex.
      pose proof (fun Htu HP => take_actions_keeps tuples Htu st HP) as Hkp.
      destruct (Argparse.take_actions tuples st) as [st1 | e1]; cbn [bind].
      - destruct (IH rest1 st1 Hlen1) as [H1 H2]. split; [exact H1 |].
        intros Hm Hit Htu HP. apply H2; [exact Hm | exact Hit |].
        apply (Hkp Htu HP). reflexivity.
      - split; [exact Hex | intros _ _ _ _ st' [=]]. }
    assert (Hleave : exits_0_or_2 (Argparse.consume m rest (Argparse.leave_extra st)) /\
              (table_keeps m -> items_keep ((s, k) :: rest) -> P (Argparse.namespace st) ->
               state_keeps P (Argparse.consume m rest (Argparse.leave_extra st)))).
    { destruct (Hrest (Argparse.leave_extra st)) as [H1 H2]. split; [exact H1 |].
      intros Hm Hit HP. inversion Hit; subst. apply H2; assumption. }
    destruct k as [| [a |] option_string explicit_arg |]; cbn [Argparse.consume];
      try exact Hleave.
    set (found := match explicit_arg with
                  | Some ex => Argparse.clump m a option_string ex
                  | None => Some ([], Some a)
                  end).
    assert (Hfound : table_keeps m -> action_keeps P a ->
              forall tuples last, found = Some (tuples, last) ->
              Forall (fun t => action_keeps P (fst t)) tuples /\
              (forall a', last = Some a' -> action_keeps P a')).
    { intros Hm Ha tuples last. subst found. destruct explicit_arg as [ex |].
      - apply clump_keeps; assumption.
      - intros [= <- <-]. split; [constructor | intros a' [= <-]; exact Ha]. }
    destruct found as [[tuples [a' |]] |].
    + assert (Hplain : exits_0_or_2
                (bind (Argparse.take_actions (tuples ++ [(a', None)]) st)
                   (Argparse.consume m rest)) /\
              (table_keeps m -> items_keep ((s, Argparse.Optional (Some a)
                                                  option_string explicit_arg) :: rest) ->
               P (Argparse.namespace st) ->
               state_keeps P (bind (Argparse.take_actions (tuples ++ [(a', None)]) st)
                                (Argparse.consume m rest)))).
      { destruct (Hthen (tuples ++ [(a', None)])%list rest ltac:(lia)) as [H1 H2].
        split; [exact H1 |]. intros Hm Hit HP. inversion Hit as [| ? ? Ha Hit']; subst.
        cbn [snd] in Ha. destruct (Hfound Hm Ha tuples (Some a') eq_refl) as [Htu Hlast].
        apply H2; try assumption. apply Forall_app. split; [exact Htu |].
        repeat constructor. apply Hlast. reflexivity. }
      destruct (Argparse.kind a') eqn:Hkind; try exact Hplain.
      destruct rest as [| [v [| ? ? ? |]] rest'];
        try (split; [intros e [= <-]; auto | intros _ _ _ st' [=]]).
      cbn [length] in Hlen.
      destruct (Hthen (tuples ++ [(a', Some v)])%list rest' ltac:(lia)) as [H1 H2].
      split; [exact H1 |]. intros Hm Hit HP. inversion Hit as [| ? ? Ha Hit']; subst.
      cbn [snd] in Ha. destruct (Hfound Hm Ha tuples (Some a') eq_refl) as [Htu Hlast].
      inversion Hit'; subst.
      apply H2; try assumption. apply Forall_app. split; [exact Htu |].
      repeat constructor. apply Hlast. reflexivity.
    + destruct (Hthen tuples rest ltac:(lia)) as [H1 H2].
      split; [exact H1 |]. intros Hm Hit HP. inversion Hit as [| ? ? Ha Hit']; subst.
      cbn [snd] in Ha. destruct (Hfound Hm Ha tuples None eq_refl) as [Htu _].
      apply H2; assumption.
    + split; [intros e [= <-]; auto | intros _ _ _ st' [=]].
Qed.

Definition class_keeps (k : Argparse.arg_class NS) : Prop :=
  match k with
  | Argparse.Optional (Some a) _ _ => action_keeps P a
  | _ => True
  end.

Lemma option_string_actions_keep (parser : list (Argparse.Action NS)) :
  Forall (action_keeps P) parser -> table_keeps (Argparse.option_string_actions parser).
Proof.
  unfold table_keeps, Argparse.option_string_actions. intros Hall.
  apply List.Forall_forall. intros [o a] Hin. cbn [snd].
  apply in_flat_map in Hin as (a0 & Ha0 & Hin).
  apply in_map_iff in Hin as (o0 & [= <- <-] & _).
  exact (proj1 (List.Forall_forall _ _) Hall a0 Ha0).
Qed.

Lemma get_option_tuples_keep (parser : list (Argparse.Action NS)) (s : string) :
  Forall (action_keeps P) parser ->
  Forall class_keeps (Argparse.get_option_tuples parser s).
Proof.
  intros Hall. pose proof (option_string_actions_keep parser Hall) as Hm.
  unfold table_keeps in Hm.
  unfold Argparse.get_option_tuples.
  destruct (Argparse.second_is_dash s).
  - destruct (match Argparse.partition_eq [] s with
              | Some (pre, ex) => (pre, Some ex)
              | None => (s, None)
              end) as [option_prefix explicit_arg].
    induction Hm as [| oa m Hoa Hm IH]; cbn [flat_map]; [constructor |].
    destruct (startswith (fst oa) option_prefix); cbn [app]; [constructor |]; assumption.
  - induction Hm as [| oa m Hoa Hm IH]; cbn [flat_map]; [constructor |].
    destruct (String.eqb (fst oa) _); cbn [app]; [constructor; assumption |].
    destruct (startswith (fst oa) s); cbn [app]; [constructor |]; assumption.
Qed.

Lemma parse_optional_keeps (parser : list (Argparse.Action NS)) (s : string)
    (k : Argparse.arg_class NS) :
  Forall (action_keeps P) parser ->
  Argparse.parse_optional parser s = Some k -> class_keeps k.
Proof.
  intros Hall. pose proof (option_string_actions_keep parser Hall) as Hm.
  unfold Argparse.parse_optional.
  destruct s as [| c s']; [intros [= <-]; exact I |].
  destruct (negb (Ascii.eqb c Argparse.dash)); [intros [= <-]; exact I |].
  destruct (Argparse.lookup_option _ (String c s')) as [a |] eqn:Hlook.
  { intros [= <-]. exact (lookup_option_keeps _ _ a Hm Hlook). }
  destruct (String.length (String c s') =? 1)%nat; [intros [= <-]; exact I |].
  destruct (match Argparse.partition_eq [] (String c s') with
            | Some (o, ex) =>
                match Argparse.lookup_option (Argparse.option_string_actions parser) o with
                | Some a => Some (Argparse.Optional (Some a) o (Some ex))
                | None => None
                end
            | None => None
            end) as [k1 |] eqn:Hby.
  { intros [= <-].
    destruct (Argparse.partition_eq [] (String c s')) as [[o ex] |]; [| discriminate].
    destruct (Argparse.lookup_option _ o) as [a |] eqn:Hlook2; [| discriminate].
    injection Hby as <-. exact (lookup_option_keeps _ _ a Hm Hlook2). }
  pose proof (get_option_tuples_keep parser (String c s') Hall) as Htuples.
  destruct (Argparse.get_option_tuples parser (String c s')) as [| k1 [| k2 ks]].
  - destruct (_ && _); [intros [= <-]; exact I |].
    destruct (contains " " (String c s')); intros [= <-]; exact I.
  - intros [= <-]. inversion Htuples; assumption.
  - discriminate.
Qed.

Lemma classify_keeps (parser : list (Argparse.Action NS)) (args : list string) :
  Forall (action_keeps P) parser ->
  forall items, Argparse.classify parser args = Some items -> items_keep items.
Proof.
  intros Hall. unfold items_keep.
  induction args as [| s rest IH]; intros items; cbn [Argparse.classify].
  - intros [= <-]. constructor.
  - destruct (String.eqb s "--").
    + intros [= <-]. constructor; [exact I |].
      apply List.Forall_forall. intros [x k] Hin.
      apply in_map_iff in Hin as (y & [= <- <-] & _). exact I.
    + destruct (Argparse.parse_optional parser s) as [k |] eqn:Hk; [| discriminate].
      destruct (Argparse.classify parser rest) as [ks |]; [| discriminate].
      intros [= <-]. constructor.
      * exact (parse_optional_keeps parser s k Hall Hk).
      * apply IH. reflexivity.
Qed.

(** [parse_args] leaves with status 0 or 2 when it does not return. *)
Lemma parse_args_exits (parser : list (Argparse.Action NS)) (defaults : NS)
    (argv : list string) :
  exits_0_or_2 (Argparse.parse_args parser defaults argv).
Proof.
  unfold Argparse.parse_args.
  destruct (Argparse.classify parser argv) as [items |]; [| intros e [= <-]; auto].
  destruct (consume_spec (Argparse.option_string_actions parser) (length items) items
              {| Argparse.namespace := defaults; Argparse.seen := [];
                 Argparse.extras := false |} (le_n _)) as [Hex _].
  destruct (Argparse.consume _ items _) as [st | e]; cbn [bind];
    [| intros e' [= <-]; exact (Hex e eq_refl)].
  destruct (Argparse.missing_required parser st); [intros e [= <-]; auto |].
  destruct (Argparse.extras st); intros e [= <-]; auto.
Qed.

(** What the defaults satisfy and every action keeps holds of the
    namespace [parse_args] returns. *)
Lemma parse_args_keeps (parser : list (Argparse.Action NS)) (defaults : NS)
    (argv : list string) (ns : NS) :
  Forall (action_keeps P) parser -> P defaults ->
  Argparse.parse_args parser defaults argv = Ok ns -> P ns.
Proof.
  intros Hall Hdef. unfold Argparse.parse_args.
  destruct (Argparse.classify parser argv) as [items |] eqn:Hitems; [| discriminate].
  destruct (consume_spec (Argparse.option_string_actions parser) (length items) items
              {| Argparse.namespace := defaults; Argparse.seen := [];
                 Argparse.extras := false |} (le_n _)) as [_ Hkeep].
  specialize (Hkeep (option_string_actions_keep parser Hall)
                (classify_keeps parser argv Hall items Hitems) Hdef).
  destruct (Argparse.consume _ items _) as [st | e]; cbn [bind]; [| discriminate].
  destruct (Argparse.missing_required parser st); [discriminate |].
  destruct (Argparse.extras st); [discriminate |].
  intros [= <-]. apply Hkeep. reflexivity.
Qed.

End ArgparseFacts.

(** ** Words of a string *)

(** No character of the string is white space. *)
Fixpoint no_space (s : string) : bool :=
  match s with
  | EmptyString => true
  | String c s' => negb (isspace c) && no_space s'
  end.

(** Every character of the string is white space. *)
Fixpoint all_space (s : string) : bool :=
  match s with
  | EmptyString => true
  | String c s' => isspace c && all_space s'
  end.

(** stdpp keeps [simpl] and [cbn] from unfolding [append]; the lemmas on
    words below want it unfolded on a constructor. *)
#[local] Arguments String.append !_ _ : simpl nomatch.

Lemma str_app_assoc (s t u : string) : ((s ++ t) ++ u = s ++ (t ++ u))%string.
Proof. induction s as [| c s IH]; simpl; [reflexivity | f_equal; exact IH]. Qed.

Lemma str_app_nil_r (s : string) : (s ++ EmptyString = s)%string.
Proof. induction s as [| c s IH]; simpl; [reflexivity | f_equal; exact IH]. Qed.

Lemma no_space_app (s t : string) :
  no_space (s ++ t) = no_space s && no_space t.
Proof.
  induction s as [| c s IH]; cbn [append no_space]; [reflexivity |].
  rewrite IH, andb_assoc. reflexivity.
Qed.

(** A run without white space is read into the current word. *)
Lemma split_from_no_space (v : string) :
  forall cur rest,
    no_space v = true -> split_from cur (v ++ rest) = split_from (cur ++ v) rest.
Proof.
  induction v as [| c v IH]; intros cur rest Hv.
  - cbn [append]. rewrite str_app_nil_r. reflexivity.
  - cbn [no_space] in Hv. apply andb_true_iff in Hv as [Hc Hv].
    cbn [append split_from]. apply negb_true_iff in Hc. rewrite Hc.
    rewrite (IH _ _ Hv), str_app_assoc. reflexivity.
Qed.

(** White space ends the current word. *)
Lemma split_from_all_space (pad : string) :
  forall cur rest,
    all_space pad = true -> pad <> EmptyString ->
    split_from cur (pad ++ rest) = (flush cur ++ split rest)%list.
Proof.
  induction pad as [| c pad IH]; intros cur rest Hpad Hne; [contradiction |].
  cbn [all_space] in Hpad. apply andb_true_iff in Hpad as [Hc Hpad].
  cbn [append split_from]. rewrite Hc.
  destruct pad as [| c' pad'].
  - reflexivity.
  - rewrite (IH EmptyString rest Hpad ltac:(discriminate)). reflexivity.
Qed.

(** What is a word of the rest, whatever was read before, is a word of
    the whole. *)
Lemma in_split_skip (tok front rest : string) :
  (forall cur, In tok (split_from cur rest)) ->
  forall cur, In tok (split_from cur (front ++ rest)).
Proof.
  intros Hrest. induction front as [| c front IH]; intros cur; cbn [append].
  - apply Hrest.
  - cbn [split_from]. destruct (isspace c); [| apply IH].
    apply in_or_app. right. apply IH.
Qed.

(** A word between white space is a word of the string. *)
Lemma in_split_token (pad tok rest : string) (c : ascii) :
  all_space pad = true -> pad <> EmptyString ->
  no_space tok = true -> tok <> EmptyString -> isspace c = true ->
  forall cur, In tok (split_from cur (pad ++ tok ++ String c rest)).
Proof.
  intros Hpad Hpad' Htok Htok' Hc cur.
  rewrite (split_from_all_space pad cur _ Hpad Hpad').
  apply in_or_app. right. unfold split.
  rewrite (split_from_no_space tok EmptyString _ Htok).
  cbn [append split_from]. rewrite Hc.
  destruct tok; [contradiction |]. left. reflexivity.
Qed.

Lemma prefix_app (s t : string) : String.prefix s (s ++ t) = true.
Proof.
  induction s as [| c s IH]; cbn [append String.prefix]; [destruct t; reflexivity |].
  destruct (ascii_dec c c); [exact IH | contradiction].
Qed.

Lemma contains_app_l (sub rest : string) : contains sub (sub ++ rest) = true.
Proof.
  destruct (sub ++ rest)%string eqn:Heq; cbn [contains];
    rewrite <- Heq, prefix_app; reflexivity.
Qed.

Lemma contains_app_r (sub front rest : string) :
  contains sub rest = true -> contains sub (front ++ rest) = true.
Proof.
  intros Hrest. induction front as [| c front IH]; cbn [append]; [exact Hrest |].
  cbn [contains]. rewrite IH. apply orb_true_r.
Qed.

(** A word of a list is part of the words joined. *)
Lemma contains_join (sep tok : string) (ws : list string) :
  In tok ws -> contains tok (join sep ws) = true.
Proof.
  induction ws as [| w ws IH]; intros Hin; [destruct Hin |].
  destruct Hin as [-> | Hin].
  - destruct ws as [| w' ws']; cbn [join].
    + rewrite <- (str_app_nil_r tok) at 2. apply contains_app_l.
    + apply contains_app_l.
  - specialize (IH Hin). destruct ws as [| w' ws']; [destruct Hin |].
    cbn [join] in *. apply contains_app_r. apply contains_app_r. exact IH.
Qed.

(** ** The command line of the tiling script *)

Section TilingCommandLine.
Context `{Builtins}.

Definition removes_large_landscape (ns : Tiling.Namespace) : Prop :=
  Tiling.remove_large_landscape ns = true.

(** No option of the tiling parser can clear [remove_large_landscape]. *)
Lemma tiling_parser_keeps_flag :
  Forall (action_keeps removes_large_landscape) Tiling.parser.
Proof.
  unfold Tiling.parser, removes_large_landscape.
  repeat (apply List.Forall_cons; [| ]); try apply List.Forall_nil;
    unfold action_keeps;
    cbn [Argparse.kind Argparse.help_action Tiling.add_str Tiling.add_int
           Tiling.add_float Tiling.add_store_true];
    try exact I;
    try (intros v f ns Hf Hns;
         try (destruct (int_of_str v); [| discriminate]);
         try (destruct (float_of_str v); [| discriminate]);
         injection Hf as <-; exact Hns);
    try (intros ns Hns; first [exact Hns | reflexivity]).
Qed.

Lemma tiling_parse_args_flag (argv : list string) (ns : Tiling.Namespace) :
  Tiling.parse_args argv = Ok ns -> Tiling.remove_large_landscape ns = true.
Proof.
  apply (parse_args_keeps removes_large_landscape).
  - exact tiling_parser_keeps_flag.
  - reflexivity.
Qed.

Ltac skip_to piece :=
  lazymatch goal with
  | |- forall cur, In _ (split_from cur (piece ++ _)%string) => idtac
  | |- forall cur, In _ (split_from cur (_ ++ _)%string) =>
      apply in_split_skip; skip_to piece
  end.

(** With the flag set, the graph description holds the word
    [remove-large-landscape=true], whatever the other arguments are. *)
Lemma tiling_description_flag (self : Tiling.Self) :
  Tiling.remove_large_landscape (Tiling.args self) = true ->
  contains "remove-large-landscape=true" (fst (Tiling.build_pipeline self)) = true.
Proof.
  intros Hflag.
  assert (Hdesc : fst (Tiling.build_pipeline self) =
                  join " " (split (Tiling.pipeline_template (Tiling.args self)))).
  { unfold Tiling.build_pipeline. destruct (Tiling.debug (Tiling.args self)); reflexivity. }
  rewrite Hdesc. apply contains_join.
  unfold split.
  enough (Hall : forall cur, In "remove-large-landscape=true"
                   (split_from cur (Tiling.pipeline_template (Tiling.args self))))
    by apply Hall.
  unfold Tiling.pipeline_template. rewrite Hflag.
  skip_to "                remove-large-landscape=".
  assert (E : forall rest,
             "                remove-large-landscape=" ++ lower (str_bool true) ++ nl ++ rest
             = "                " ++ "remove-large-landscape=true" ++ String "010" rest)
    by (intros rest; reflexivity).
  rewrite E.
  apply in_split_token; try reflexivity; discriminate.
Qed.

(** C9.  Whatever the command line of the tiling script is, when argparse
    accepts it the parsed [remove_large_landscape] is [True] (the flag is
    [store_true] over a default that is [True] already, so passing it or
    leaving it out makes no difference), and the graph description built
    from these arguments holds [remove-large-landscape=true]. *)
Theorem cli_cannot_clear_remove_large_landscape
    (argv : list string) (ns : Tiling.Namespace) (self : Tiling.Self) :
  Tiling.parse_args argv = Ok ns ->
  Tiling.args self = ns ->
  Tiling.remove_large_landscape ns = true
  /\ contains "remove-large-landscape=true" (fst (Tiling.build_pipeline self)) = true.
Proof.
  intros Hparse Hself. pose proof (tiling_parse_args_flag argv ns Hparse) as Hflag.
  split; [exact Hflag |].
  apply tiling_description_flag. rewrite Hself. exact Hflag.
Qed.

End TilingCommandLine.

(** The flag left out, on [--input in.mp4 --output out/o.mp4 --hef
    model.hef --postprocess-so post.so]. *)
Lemma cli_flag_left_out :
  Tiling.remove_large_landscape Sample.tiling_args = true
  /\ contains "remove-large-landscape=true"
       (fst (Tiling.build_pipeline (H := Sample.builtins) Sample.tiling_self)) = true.
Proof.
  apply (cli_cannot_clear_remove_large_landscape (H := Sample.builtins)
           ["--input"; "in.mp4"; "--output"; "out/o.mp4"; "--hef"; "model.hef";
            "--postprocess-so"; "post.so"]
           Sample.tiling_args Sample.tiling_self).
  - vm_compute. reflexivity.
  - reflexivity.
Defined.

(** ** Exit codes *)

(** [os.mkdir] fails with an [OSError], which [except Exception]
    catches. *)
Lemma os_error_is_Exception (e : errno) (p : Path) : is_Exception (os_error e p) = true.
Proof. destruct e; reflexivity. Qed.

Lemma mkdir_exist_ok_raises (fs : FS) (p : Path) (e : exn) :
  fst (mkdir_exist_ok fs p) = Raise e -> is_Exception e = true.
Proof.
  unfold mkdir_exist_ok.
  destruct (os_mkdir fs p) as [[| |] | fs']; cbn [fst]; try discriminate;
    try (destruct (is_dir fs p); cbn [fst]; try discriminate);
    intros [= <-]; reflexivity.
Qed.

Lemma mkdir_parents_raises (r : anchor) (rps : list string) :
  forall (fs : FS) (e : exn),
    fst (mkdir_parents fs r rps) = Raise e -> is_Exception e = true.
Proof.
  induction rps as [| c rps IH]; intros fs e; cbn [mkdir_parents].
  - destruct (os_mkdir fs _) as [[| |] | fs']; cbn [fst]; try discriminate;
      try (destruct (is_dir fs _); cbn [fst]; try discriminate);
      intros [= <-]; reflexivity.
  - destruct (os_mkdir fs _) as [[| |] | fs']; cbn [fst]; try discriminate;
      try (destruct (is_dir fs _); cbn [fst]; try discriminate);
      try (intros [= <-]; reflexivity).
    specialize (IH fs).
    destruct (mkdir_parents fs r rps) as [[u | e'] fs1]; cbn [fst] in IH |- *.
    + apply mkdir_exist_ok_raises.
    + intros [= <-]. apply IH. reflexivity.
Qed.

Lemma mkdir_raises (fs : FS) (p : Path) (e : exn) :
  fst (mkdir fs p) = Raise e -> is_Exception e = true.
Proof. apply mkdir_parents_raises. Qed.

(** The exit codes the specification lists, and the one it leaves out. *)
Definition ends_0_1_2 (e : ending) : Prop :=
  e = Exit 0 \/ e = Exit 1 \/ e = Exit 2 \/ e = Blocked.

Section ExitCodes.
Context `{Builtins}.

Definition tiling_ending (sys_argv : list string) (fs : FS) (parse_launch : Gst.Launcher)
  : ending :=
  fst (fst (Tiling.main sys_argv fs parse_launch)).

Definition preserve_ending (sys_argv : list string) (fs : FS) (parse_launch : Gst.Launcher)
  : ending :=
  fst (fst (Preserve.main sys_argv fs parse_launch)).

Lemma tiling_validate_paths_raises (a : Tiling.Namespace) (fs : FS) (e : exn) :
  fst (Tiling._validate_paths a fs) = Raise e -> is_Exception e = true.
Proof.
  unfold Tiling._validate_paths.
  do 3 (destruct (negb (exists_ _ _)); [intros [= <-]; reflexivity |]).
  destruct (negb (bool_decide _)); [apply mkdir_raises | discriminate].
Qed.

Lemma preserve_validate_paths_raises (a : Preserve.Namespace) (fs : FS) (e : exn) :
  fst (Preserve._validate_paths a fs) = Raise e -> is_Exception e = true.
Proof.
  unfold Preserve._validate_paths.
  do 3 (destruct (negb (exists_ _ _)); [intros [= <-]; reflexivity |]).
  destruct (negb (bool_decide _)); [apply mkdir_raises | discriminate].
Qed.

Lemma tiling_init_raises (a : Tiling.Namespace) (fs : FS) (e : exn) :
  fst (Tiling.__init__ a fs) = Raise e -> is_Exception e = true.
Proof.
  unfold Tiling.__init__. cbn [Tiling.args].
  pose proof (tiling_validate_paths_raises a fs) as Hp.
  destruct (Tiling._validate_paths a fs) as [[u | e'] fs']; cbn [fst] in Hp |- *.
  - rewrite validate_parameters_violated.
    destruct (violated a); [discriminate | intros [= <-]; reflexivity].
  - intros [= <-]. apply Hp. reflexivity.
Qed.

Lemma preserve_init_raises (a : Preserve.Namespace) (fs : FS) (e : exn) :
  fst (Preserve.__init__ a fs) = Raise e -> is_Exception e = true.
Proof.
  unfold Preserve.__init__. cbn [Preserve.args].
  pose proof (preserve_validate_paths_raises a fs) as Hp.
  destruct (Preserve._validate_paths a fs) as [[u | e'] fs']; cbn [fst] in Hp |- *.
  - discriminate.
  - intros [= <-]. apply Hp. reflexivity.
Qed.

(** Without an event that ends the run the main loop waits for ever. *)
Lemma tiling_loop_run_waits (evs : list Gst.Event) :
  forall (self : Tiling.Self) (probe : bool),
    ~ Exists ends_run evs -> snd (Tiling.loop_run self probe evs) = Tiling.Waiting.
Proof.
  induction evs as [| ev evs IH]; intros self probe Hno; [reflexivity |].
  assert (Hno' : ~ Exists ends_run evs) by (intros Hex; apply Hno; right; exact Hex).
  destruct ev as [m | |]; cbn [Tiling.loop_run].
  - pose proof (TilingRun.tiling_on_message_quit self m) as Hq.
    destruct (Tiling.on_message self m) as [[self1 out] quit]. cbn [snd] in Hq.
    destruct quit.
    + exfalso. apply Hno. left. cbn [ends_run].
      symmetry in Hq. apply andb_true_iff in Hq. tauto.
    + specialize (IH self1 probe Hno').
      destruct (Tiling.loop_run self1 probe evs) as [[self2 out2] e]. exact IH.
  - destruct probe; [| apply IH; exact Hno'].
    destruct (Tiling.on_buffer_probe self) as [self1 out].
    specialize (IH self1 true Hno').
    destruct (Tiling.loop_run self1 true evs) as [[self2 out2] e]. exact IH.
  - exfalso. apply Hno. left. exact I.
Qed.

Lemma preserve_loop_run_waits (evs : list Gst.Event) :
  forall (self : Preserve.Self) (probe : bool),
    ~ Exists ends_run evs -> snd (Preserve.loop_run self probe evs) = Preserve.Waiting.
Proof.
  induction evs as [| ev evs IH]; intros self probe Hno; [reflexivity |].
  assert (Hno' : ~ Exists ends_run evs) by (intros Hex; apply Hno; right; exact Hex).
  destruct ev as [m | |]; cbn [Preserve.loop_run].
  - pose proof (PreserveRun.preserve_on_message_quit self m) as Hq.
    destruct (Preserve.on_message self m) as [[self1 out] quit]. cbn [snd] in Hq.
    destruct quit.
    + exfalso. apply Hno. left. cbn [ends_run].
      symmetry in Hq. apply andb_true_iff in Hq. tauto.
    + specialize (IH self1 probe Hno').
      destruct (Preserve.loop_run self1 probe evs) as [[self2 out2] e]. exact IH.
  - destruct probe; [| apply IH; exact Hno'].
    destruct (Preserve.on_buffer_probe self) as [self1 out].
    specialize (IH self1 true Hno').
    destruct (Preserve.loop_run self1 true evs) as [[self2 out2] e]. exact IH.
  - exfalso. apply Hno. left. exact I.
Qed.

(** What [run] returns, by the way the graph comes up and the main loop
    ends. *)
Definition tiling_run_code (self : Tiling.Self) (parse_launch : Gst.Launcher) : option Z :=
  match parse_launch (fst (Tiling.build_pipeline self)) with
  | inl _ => Some 1
  | inr p =>
      match Gst.set_state_playing p with
      | Gst.FAILURE => Some 1
      | _ =>
          match snd (Tiling.loop_run (tiling_started self p) (Tiling.probe_added p)
                       (Gst.events p)) with
          | Tiling.Waiting => None
          | _ => Some 0
          end
      end
  end.

Definition preserve_run_code (self : Preserve.Self) (parse_launch : Gst.Launcher)
  : option Z :=
  match parse_launch (fst (Preserve.build_pipeline self)) with
  | inl _ => Some 1
  | inr p =>
      match Gst.set_state_playing p with
      | Gst.FAILURE => Some 1
      | _ =>
          match snd (Preserve.loop_run (preserve_started self p) (Preserve.probe_added p)
                       (Gst.events p)) with
          | Preserve.Waiting => None
          | _ => Some 0
          end
      end
  end.

Lemma tiling_run_returns (self : Tiling.Self) (parse_launch : Gst.Launcher) :
  fst (fst (Tiling.run self parse_launch)) = tiling_run_code self parse_launch.
Proof.
  unfold Tiling.run, tiling_run_code.
  destruct (Tiling.build_pipeline self) as [pipeline_str out_build]. cbn [fst].
  destruct (parse_launch pipeline_str) as [msg | p]; [reflexivity |].
  fold (tiling_started self p).
  destruct (Tiling.loop_run (tiling_started self p) (Tiling.probe_added p) (Gst.events p))
    as [[final out_loop] e]. cbn [snd].
  destruct (Gst.set_state_playing p); destruct e; reflexivity.
Qed.

Lemma preserve_run_returns (self : Preserve.Self) (parse_launch : Gst.Launcher) :
  fst (fst (Preserve.run self parse_launch)) = preserve_run_code self parse_launch.
Proof.
  unfold Preserve.run, preserve_run_code.
  destruct (Preserve.build_pipeline self) as [pipeline_str out_build]. cbn [fst].
  destruct (parse_launch pipeline_str) as [msg | p]; [reflexivity |].
  fold (preserve_started self p).
  destruct (Preserve.loop_run (preserve_started self p) (Preserve.probe_added p)
              (Gst.events p)) as [[final out_loop] e]. cbn [snd].
  destruct (Gst.set_state_playing p); destruct e; reflexivity.
Qed.

(** How [main] ends, by what [parse_args], [__init__] and [run] do. *)
Lemma tiling_main_ending (sys_argv : list string) (fs : FS) (parse_launch : Gst.Launcher) :
  tiling_ending sys_argv fs parse_launch =
  match Tiling.parse_args (tl sys_argv) with
  | Raise (SystemExit code) => Exit code
  | Raise KeyboardInterrupt => Uncaught
  | Raise _ => Exit 1
  | Ok a =>
      match fst (Tiling.__init__ a fs) with
      | Raise (SystemExit code) => Exit code
      | Raise KeyboardInterrupt => Uncaught
      | Raise _ => Exit 1
      | Ok self =>
          match tiling_run_code self parse_launch with
          | Some code => Exit code
          | None => Blocked
          end
      end
  end.
Proof.
  unfold tiling_ending, Tiling.main.
  destruct (Tiling.parse_args (tl sys_argv)) as [a | e]; [| destruct e; reflexivity].
  destruct (Tiling.__init__ a fs) as [[self | e] fs']; cbn [fst];
    [| destruct e; reflexivity].
  rewrite <- tiling_run_returns.
  destruct (Tiling.run self parse_launch) as [[[code |] final] out]; reflexivity.
Qed.

Lemma preserve_main_ending (sys_argv : list string) (fs : FS)
    (parse_launch : Gst.Launcher) :
  preserve_ending sys_argv fs parse_launch =
  match Preserve.parse_args (tl sys_argv) with
  | Raise (SystemExit code) => Exit code
  | Raise KeyboardInterrupt => Uncaught
  | Raise _ => Exit 1
  | Ok a =>
      match fst (Preserve.__init__ a fs) with
      | Raise (SystemExit code) => Exit code
      | Raise KeyboardInterrupt => Uncaught
      | Raise _ => Exit 1
      | Ok self =>
          match preserve_run_code self parse_launch with
          | Some code => Exit code
          | None => Blocked
          end
      end
  end.
Proof.
  unfold preserve_ending, Preserve.main.
  destruct (Preserve.parse_args (tl sys_argv)) as [a | e]; [| destruct e; reflexivity].
  destruct (Preserve.__init__ a fs) as [[self | e] fs']; cbn [fst];
    [| destruct e; reflexivity].
  rewrite <- preserve_run_returns.
  destruct (Preserve.run self parse_launch) as [[[code |] final] out]; reflexivity.
Qed.

Lemma tiling_run_code_spec (self : Tiling.Self) (parse_launch : Gst.Launcher) :
  (forall msg, parse_launch (fst (Tiling.build_pipeline self)) = inl msg ->
     tiling_run_code self parse_launch = Some 1) /\
  (forall p, parse_launch (fst (Tiling.build_pipeline self)) = inr p ->
     (Gst.set_state_playing p = Gst.FAILURE ->
      tiling_run_code self parse_launch = Some 1) /\
     (Gst.set_state_playing p <> Gst.FAILURE -> Exists ends_run (Gst.events p) ->
      tiling_run_code self parse_launch = Some 0) /\
     (Gst.set_state_playing p <> Gst.FAILURE -> ~ Exists ends_run (Gst.events p) ->
      tiling_run_code self parse_launch = None)).
Proof.
  unfold tiling_run_code. split; [intros msg -> ; reflexivity |].
  intros p ->. split; [intros ->; reflexivity |].
  split; intros Hplay Hev.
  - pose proof (TilingRun.tiling_loop_run_ends (Gst.events p) (tiling_started self p)
                  (Tiling.probe_added p) eq_refl Hev) as Hend.
    destruct (Gst.set_state_playing p); try contradiction;
      destruct (snd (Tiling.loop_run _ _ _)); solve [reflexivity | contradiction].
  - rewrite (tiling_loop_run_waits _ _ _ Hev).
    destruct (Gst.set_state_playing p); try contradiction; reflexivity.
Qed.

Lemma preserve_run_code_spec (self : Preserve.Self) (parse_launch : Gst.Launcher) :
  (forall msg, parse_launch (fst (Preserve.build_pipeline self)) = inl msg ->
     preserve_run_code self parse_launch = Some 1) /\
  (forall p, parse_launch (fst (Preserve.build_pipeline self)) = inr p ->
     (Gst.set_state_playing p = Gst.FAILURE ->
      preserve_run_code self parse_launch = Some 1) /\
     (Gst.set_state_playing p <> Gst.FAILURE -> Exists ends_run (Gst.events p) ->
      preserve_run_code self parse_launch = Some 0) /\
     (Gst.set_state_playing p <> Gst.FAILURE -> ~ Exists ends_run (Gst.events p) ->
      preserve_run_code self parse_launch = None)).
Proof.
  unfold preserve_run_code. split; [intros msg -> ; reflexivity |].
  intros p ->. split; [intros ->; reflexivity |].
  split; intros Hplay Hev.
  - pose proof (PreserveRun.preserve_loop_run_ends (Gst.events p) (preserve_started self p)
                  (Preserve.probe_added p) eq_refl Hev) as Hend.
    destruct (Gst.set_state_playing p); try contradiction;
      destruct (snd (Preserve.loop_run _ _ _)); solve [reflexivity | contradiction].
  - rewrite (preserve_loop_run_waits _ _ _ Hev).
    destruct (Gst.set_state_playing p); try contradiction; reflexivity.
Qed.

Lemma run_code_0_1 (code : option Z) (e : ending) :
  code = Some 0 \/ code = Some 1 \/ code = None ->
  e = match code with Some c => Exit c | None => Blocked end ->
  ends_0_1_2 e.
Proof. unfold ends_0_1_2. intros [-> | [-> | ->]] ->; auto. Qed.

Lemma tiling_run_code_0_1 (self : Tiling.Self) (parse_launch : Gst.Launcher) :
  tiling_run_code self parse_launch = Some 0 \/
  tiling_run_code self parse_launch = Some 1 \/
  tiling_run_code self parse_launch = None.
Proof.
  unfold tiling_run_code.
  destruct (parse_launch _) as [msg | p]; [auto |].
  destruct (Gst.set_state_playing p); auto;
    destruct (snd (Tiling.loop_run _ _ _)); auto.
Qed.

Lemma preserve_run_code_0_1 (self : Preserve.Self) (parse_launch : Gst.Launcher) :
  preserve_run_code self parse_launch = Some 0 \/
  preserve_run_code self parse_launch = Some 1 \/
  preserve_run_code self parse_launch = None.
Proof.
  unfold preserve_run_code.
  destruct (parse_launch _) as [msg | p]; [auto |].
  destruct (Gst.set_state_playing p); auto;
    destruct (snd (Preserve.loop_run _ _ _)); auto.
Qed.

(** An exception of the kind [except Exception] catches ends [main] with
    status 1. *)
Lemma caught_exits_1 (e : exn) :
  is_Exception e = true ->
  match e with
  | SystemExit code => Exit code
  | KeyboardInterrupt => Uncaught
  | _ => Exit 1
  end = Exit 1.
Proof. destruct e; intros He; solve [reflexivity | discriminate]. Qed.

(** C3, amended.  Both scripts end with status 0, 1 or 2, or never end
    because the main loop waits for an event that does not come.  The
    status is 2 when argparse rejects the command line and 0 when it
    prints the help; 1 when [__init__] raises (a missing file, a
    directory that cannot be made, in the tiling script a parameter out
    of range), when the graph cannot be created and when it does not
    start playing; and 0 as soon as the main loop ends, by the end of the
    stream, by an error message of the graph or by an interrupt.  (An
    interrupt arrives while the main loop runs: that is where the events
    of a [Gst.Pipeline] are taken in.) *)
Theorem exit_codes_of_main :
  (forall (sys_argv : list string) (fs : FS) (parse_launch : Gst.Launcher),
     ends_0_1_2 (tiling_ending sys_argv fs parse_launch) /\
     (forall e, Tiling.parse_args (tl sys_argv) = Raise e ->
        (e = SystemExit 2 /\ tiling_ending sys_argv fs parse_launch = Exit 2) \/
        (e = SystemExit 0 /\ tiling_ending sys_argv fs parse_launch = Exit 0)) /\
     (forall a e, Tiling.parse_args (tl sys_argv) = Ok a ->
        fst (Tiling.__init__ a fs) = Raise e ->
        tiling_ending sys_argv fs parse_launch = Exit 1) /\
     (forall a self, Tiling.parse_args (tl sys_argv) = Ok a ->
        fst (Tiling.__init__ a fs) = Ok self ->
        (forall msg, parse_launch (fst (Tiling.build_pipeline self)) = inl msg ->
           tiling_ending sys_argv fs parse_launch = Exit 1) /\
        (forall p, parse_launch (fst (Tiling.build_pipeline self)) = inr p ->
           (Gst.set_state_playing p = Gst.FAILURE ->
            tiling_ending sys_argv fs parse_launch = Exit 1) /\
           (Gst.set_state_playing p <> Gst.FAILURE -> Exists ends_run (Gst.events p) ->
            tiling_ending sys_argv fs parse_launch = Exit 0) /\
           (Gst.set_state_playing p <> Gst.FAILURE -> ~ Exists ends_run (Gst.events p) ->
            tiling_ending sys_argv fs parse_launch = Blocked)))) /\
  (forall (sys_argv : list string) (fs : FS) (parse_launch : Gst.Launcher),
     ends_0_1_2 (preserve_ending sys_argv fs parse_launch) /\
     (forall e, Preserve.parse_args (tl sys_argv) = Raise e ->
        (e = SystemExit 2 /\ preserve_ending sys_argv fs parse_launch = Exit 2) \/
        (e = SystemExit 0 /\ preserve_ending sys_argv fs parse_launch = Exit 0)) /\
     (forall a e, Preserve.parse_args (tl sys_argv) = Ok a ->
        fst (Preserve.__init__ a fs) = Raise e ->
        preserve_ending sys_argv fs parse_launch = Exit 1) /\
     (forall a self, Preserve.parse_args (tl sys_argv) = Ok a ->
        fst (Preserve.__init__ a fs) = Ok self ->
        (forall msg, parse_launch (fst (Preserve.build_pipeline self)) = inl msg ->
           preserve_ending sys_argv fs parse_launch = Exit 1) /\
        (forall p, parse_launch (fst (Preserve.build_pipeline self)) = inr p ->
           (Gst.set_state_playing p = Gst.FAILURE ->
            preserve_ending sys_argv fs parse_launch = Exit 1) /\
           (Gst.set_state_playing p <> Gst.FAILURE -> Exists ends_run (Gst.events p) ->
            preserve_ending sys_argv fs parse_launch = Exit 0) /\
           (Gst.set_state_playing p <> Gst.FAILURE -> ~ Exists ends_run (Gst.events p) ->
            preserve_ending sys_argv fs parse_launch = Blocked)))).
Proof.
  split; intros sys_argv fs parse_launch.
  - rewrite tiling_main_ending.
    pose proof (parse_args_exits (fun _ => True) Tiling.parser Tiling.defaults (tl sys_argv)) as Hexit.
    fold (Tiling.parse_args (tl sys_argv)) in Hexit.
    destruct (Tiling.parse_args (tl sys_argv)) as [a | e0].
    + pose proof (tiling_init_raises a fs) as Hinit.
      destruct (fst (Tiling.__init__ a fs)) as [self | e1] eqn:Hi.
      * pose proof (tiling_run_code_spec self parse_launch) as (Hinl & Hinr).
        split; [eapply run_code_0_1; [apply tiling_run_code_0_1 | reflexivity] |].
        split; [intros; discriminate |].
        split; [intros a' e [= <-] Hr; rewrite Hi in Hr; discriminate |].
        intros a' self' [= <-] Hs. rewrite Hi in Hs. injection Hs as <-.
        split; [intros msg Hm; rewrite (Hinl msg Hm); reflexivity |].
        intros p Hp. destruct (Hinr p Hp) as (Hf & H0 & Hb).
        split; [intros Hs; rewrite (Hf Hs); reflexivity |].
        split; intros Hs Hev; [rewrite (H0 Hs Hev) | rewrite (Hb Hs Hev)]; reflexivity.
      * rewrite (caught_exits_1 e1 (Hinit e1 eq_refl)).
        split; [right; left; reflexivity |].
        split; [intros; discriminate |]. split; [reflexivity |].
        intros a' self' [= <-] Hs. rewrite Hi in Hs. discriminate.
    + destruct (Hexit e0 eq_refl) as [-> | ->].
      * split; [left; reflexivity |].
        split; [intros e [= <-]; right; split; reflexivity |].
        split; intros; discriminate.
      * split; [right; right; left; reflexivity |].
        split; [intros e [= <-]; left; split; reflexivity |].
        split; intros; discriminate.
  - rewrite preserve_main_ending.
    pose proof (parse_args_exits (fun _ => True) Preserve.parser Preserve.defaults (tl sys_argv)) as Hexit.
    fold (Preserve.parse_args (tl sys_argv)) in Hexit.
    destruct (Preserve.parse_args (tl sys_argv)) as [a | e0].
    + pose proof (preserve_init_raises a fs) as Hinit.
      destruct (fst (Preserve.__init__ a fs)) as [self | e1] eqn:Hi.
      * pose proof (preserve_run_code_spec self parse_launch) as (Hinl & Hinr).
        split; [eapply run_code_0_1; [apply preserve_run_code_0_1 | reflexivity] |].
        split; [intros; discriminate |].
        split; [intros a' e [= <-] Hr; rewrite Hi in Hr; discriminate |].
        intros a' self' [= <-] Hs. rewrite Hi in Hs. injection Hs as <-.
        split; [intros msg Hm; rewrite (Hinl msg Hm); reflexivity |].
        intros p Hp. destruct (Hinr p Hp) as (Hf & H0 & Hb).
        split; [intros Hs; rewrite (Hf Hs); reflexivity |].
        split; intros Hs Hev; [rewrite (H0 Hs Hev) | rewrite (Hb Hs Hev)]; reflexivity.
      * rewrite (caught_exits_1 e1 (Hinit e1 eq_refl)).
        split; [right; left; reflexivity |].
        split; [intros; discriminate |]. split; [reflexivity |].
        intros a' self' [= <-] Hs. rewrite Hi in Hs. discriminate.
    + destruct (Hexit e0 eq_refl) as [-> | ->].
      * split; [left; reflexivity |].
        split; [intros e [= <-]; right; split; reflexivity |].
        split; intros; discriminate.
      * split; [right; right; left; reflexivity |].
        split; [intros e [= <-]; left; split; reflexivity |].
        split; intros; discriminate.
Qed.

End ExitCodes.

(** Called without arguments, either script ends with status 2: argparse
    misses [--input] and [--output].  A graph that reports an error while
    it runs ends the tiling script with status 0. *)
Lemma no_arguments_exit_2 :
  tiling_ending (H := Sample.builtins) ["detection_tiling_pipeline.py"] Sample.fs0
    (Sample.launch []) = Exit 2
  /\ preserve_ending (H := Sample.builtins) ["detection_preserve_resolution_pipeline.py"]
       Sample.fs0 (Sample.launch []) = Exit 2
  /\ tiling_ending (H := Sample.builtins)
       ["detection_tiling_pipeline.py"; "--input"; "in.mp4"; "--output"; "o.mp4";
        "--hef"; "model.hef"; "--postprocess-so"; "post.so"]
       Sample.fs0
       (Sample.launch [Gst.Buffer; Gst.Deliver (Gst.ERROR "decoder failed" None)])
     = Exit 0.
Proof. vm_compute. repeat split. Qed.

(** ** The order of the two validations *)

Section ValidationOrder.
Context `{Builtins}.

(** What [main] prints for a [FileNotFoundError] or a [ValueError]. *)
Definition tiling_check_parameters (e : exn) : list effect :=
  [ print (nl ++ "[ERROR] " ++ exn_str e);
    print (nl ++ "Please check the parameters and try again." ++ nl) ].

(** C10, amended.  In the tiling script path validation runs before
    parameter validation.  For every command line argparse accepts whose
    input, model and postprocess files exist, whose path validation
    passes (the output directory is there or can be made) and whose
    parameters are out of range: [main] ends with status 1 on the
    [ValueError] of the parameter, and leaves the file system as path
    validation left it, which is with the output directory made by
    [mkdir(parents=True, exist_ok=True)] unless the output goes to the
    current directory. *)
Theorem output_dir_made_before_parameters_fail
    (sys_argv : list string) (fs : FS) (parse_launch : Gst.Launcher)
    (a : Tiling.Namespace) (e : exn) :
  Tiling.parse_args (tl sys_argv) = Ok a ->
  tiling_files_exist a fs ->
  fst (Tiling._validate_paths a fs) = Ok tt ->
  Tiling._validate_parameters a = Raise e ->
  Tiling.main sys_argv fs parse_launch =
    (Exit 1, tiling_check_parameters e, snd (Tiling._validate_paths a fs))
  /\ (exists msg, e = ValueError msg)
  /\ (tiling_output_dir a <> Path_of "." ->
      snd (Tiling._validate_paths a fs) = snd (mkdir fs (tiling_output_dir a))
      /\ is_dir (snd (Tiling._validate_paths a fs)) (tiling_output_dir a) = true)
  /\ (tiling_output_dir a = Path_of "." -> snd (Tiling._validate_paths a fs) = fs).
Proof.
  intros Hparse Hfiles Hpaths Hparams.
  assert (Hval : exists msg, e = ValueError msg).
  { rewrite validate_parameters_violated in Hparams.
    destruct (violated a); [discriminate |]. injection Hparams as <-. eauto. }
  split; [| split; [exact Hval | split]].
  - unfold Tiling.main, Tiling.__init__. rewrite Hparse. cbn [Tiling.args].
    destruct (Tiling._validate_paths a fs) as [[[] | e'] fs']; [| discriminate].
    rewrite Hparams. destruct Hval as [msg ->]. reflexivity.
  - intros Hdir. rewrite (tiling_validate_paths_mkdir a fs Hfiles) in Hpaths |- *.
    rewrite bool_decide_eq_false_2 in Hpaths |- * by exact Hdir.
    split; [reflexivity |].
    destruct (mkdir fs (tiling_output_dir a)) as [[[] | e'] fs'] eqn:Hmk;
      [| discriminate].
    cbn [snd]. exact (mkdir_is_dir _ _ _ Hmk).
  - intros Hdir. rewrite (tiling_validate_paths_mkdir a fs Hfiles).
    rewrite bool_decide_eq_true_2 by exact Hdir. reflexivity.
Qed.

End ValidationOrder.

Definition tiles_x_21 : list string :=
  ["detection_tiling_pipeline.py"; "--input"; "in.mp4"; "--output"; "out/o.mp4";
   "--hef"; "model.hef"; "--postprocess-so"; "post.so"; "--tiles-x"; "21"].

(** [--tiles-x 21] with the output in [out/], which is not there yet:
    the run fails on tiles-x and leaves the directory [out] behind. *)
Lemma out_left_behind :
  Tiling.main (H := Sample.builtins) tiles_x_21 Sample.fs0 (Sample.launch []) =
    (Exit 1,
     tiling_check_parameters (ValueError "tiles-x must be between 1 and 20, got 21"),
     snd (Tiling._validate_paths (Tiling.set_tiles_x 21 Sample.tiling_args) Sample.fs0))
  /\ is_dir (snd (Tiling._validate_paths (Tiling.set_tiles_x 21 Sample.tiling_args)
                    Sample.fs0)) (Path_of "out") = true
  /\ is_dir Sample.fs0 (Path_of "out") = false.
Proof.
  destruct (output_dir_made_before_parameters_fail (H := Sample.builtins)
              tiles_x_21 Sample.fs0 (Sample.launch [])
              (Tiling.set_tiles_x 21 Sample.tiling_args)
              (ValueError "tiles-x must be between 1 and 20, got 21"))
    as (Hmain & _ & Hdir & _).
  - vm_compute. reflexivity.
  - repeat split; vm_compute; reflexivity.
  - vm_compute. reflexivity.
  - vm_compute. reflexivity.
  - split; [exact Hmain |]. split; [| vm_compute; reflexivity].
    apply Hdir. vm_compute. discriminate.
Defined.

Definition output_below_a_file : list string :=
  ["detection_tiling_pipeline.py"; "--input"; "in.mp4"; "--output"; "in.mp4/o.mp4";
   "--hef"; "model.hef"; "--postprocess-so"; "post.so"; "--tiles-x"; "21"].

(** The three files exist and tiles-x is out of range, but the output is
    to go below [in.mp4], which is a file: [mkdir] fails, [main] ends
    with status 1 on that error, not on tiles-x, and no directory is
    made. *)
Lemma output_dir_not_made :
  Tiling.parse_args (H := Sample.builtins) (tl output_below_a_file) =
    Ok (Tiling.set_tiles_x 21 (Tiling.set_output "in.mp4/o.mp4" Sample.tiling_args))
  /\ exists_ Sample.fs0 (Path_of "in.mp4") = true
  /\ exists_ Sample.fs0 (Path_of "model.hef") = true
  /\ exists_ Sample.fs0 (Path_of "post.so") = true
  /\ Tiling._validate_parameters (H := Sample.builtins)
       (Tiling.set_tiles_x 21 (Tiling.set_output "in.mp4/o.mp4" Sample.tiling_args)) =
     Raise (ValueError "tiles-x must be between 1 and 20, got 21")
  /\ Tiling.main (H := Sample.builtins) output_below_a_file Sample.fs0 (Sample.launch []) =
     (Exit 1,
      [print (nl ++ "[ERROR] Unexpected error: [Errno 17] File exists: 'in.mp4'")],
      Sample.fs0)
  /\ is_dir Sample.fs0 (Path_of "in.mp4") = false.
Proof. vm_compute. repeat split. Qed.

(** ** The queues of the graph description *)

(** A word of a description: not empty, no white space in it. *)
Definition word (w : string) : Prop := no_space w = true /\ w <> EmptyString.

Lemma flush_words (cur : string) : no_space cur = true -> Forall word (flush cur).
Proof.
  intros Hcur. destruct cur as [| c cur]; cbn [flush]; [constructor |].
  constructor; [split; [exact Hcur | discriminate] | constructor].
Qed.

Lemma split_from_words (s : string) :
  forall cur, no_space cur = true -> Forall word (split_from cur s).
Proof.
  induction s as [| c s IH]; intros cur Hcur; cbn [split_from].
  - apply flush_words, Hcur.
  - destruct (isspace c) eqn:Hc.
    + apply Forall_app. split; [apply flush_words, Hcur | apply IH; reflexivity].
    + apply IH. rewrite no_space_app, Hcur. cbn [no_space]. rewrite Hc. reflexivity.
Qed.

Lemma split_word (w : string) : word w -> split w = [w].
Proof.
  intros [Hw Hne]. unfold split. rewrite <- (str_app_nil_r w) at 1.
  rewrite (split_from_no_space w EmptyString EmptyString Hw).
  cbn [append split_from]. destruct w; [contradiction | reflexivity].
Qed.

(** Words joined by single spaces split into the same words. *)
Lemma split_join (ws : list string) : Forall word ws -> split (join " " ws) = ws.
Proof.
  induction ws as [| w ws IH]; intros Hws; [reflexivity |].
  inversion Hws as [| ? ? Hw Hws']; subst.
  destruct ws as [| w' ws]; [apply split_word, Hw |].
  change (join " " (w :: w' :: ws)) with (w ++ String " " (join " " (w' :: ws))).
  unfold split. destruct Hw as [Hw Hne].
  rewrite (split_from_no_space w EmptyString _ Hw).
  cbn [append split_from].
  change (isspace " ") with true. cbv iota.
  fold (split (join " " (w' :: ws))). rewrite (IH Hws').
  destruct w; [contradiction | reflexivity].
Qed.

(** [" ".join(s.split())] has the words of [s]. *)
Lemma split_join_split (s : string) : split (join " " (split s)) = split s.
Proof. apply split_join, split_from_words. reflexivity. Qed.

(** A template is a row of pieces: the text of the f-string and the
    values put into it. *)
Inductive piece :=
| Lit (s : string)
| Arg (s : string).

Definition piece_str (p : piece) : string :=
  match p with
  | Lit s | Arg s => s
  end.

Fixpoint denote (ps : list piece) : string :=
  match ps with
  | [] => EmptyString
  | [p] => piece_str p
  | p :: ps' => piece_str p ++ denote ps'
  end.

(** The scanner of [split] on a template: through the text character by
    character, over a value in one step. *)
Fixpoint scan_text (s : string) (cur : string) (k : string -> list string) : list string :=
  match s with
  | EmptyString => k cur
  | String c s' =>
      if isspace c then (flush cur ++ scan_text s' EmptyString k)%list
      else scan_text s' (cur ++ String c EmptyString) k
  end.

Fixpoint scan (ps : list piece) (cur : string) : list string :=
  match ps with
  | [] => flush cur
  | Lit s :: ps' => scan_text s cur (scan ps')
  | Arg s :: ps' => scan ps' (cur ++ s)
  end.

Definition arg_no_space (p : piece) : Prop :=
  match p with
  | Lit _ => True
  | Arg s => no_space s = true
  end.

Lemma scan_text_split (s : string) :
  forall cur rest k,
    (forall cur', k cur' = split_from cur' rest) ->
    scan_text s cur k = split_from cur (s ++ rest).
Proof.
  induction s as [| c s IH]; intros cur rest k Hk; cbn [scan_text append split_from].
  - apply Hk.
  - destruct (isspace c); [f_equal |]; apply IH, Hk.
Qed.

Lemma denote_cons (p : piece) (ps : list piece) :
  denote (p :: ps) = piece_str p ++ denote ps.
Proof.
  destruct ps as [| q ps]; [| reflexivity].
  cbn [denote]. rewrite str_app_nil_r. reflexivity.
Qed.

Lemma scan_split (ps : list piece) :
  Forall arg_no_space ps -> forall cur, scan ps cur = split_from cur (denote ps).
Proof.
  induction ps as [| p ps IH]; intros Hps cur; [reflexivity |].
  inversion Hps as [| ? ? Hp Hps']; subst.
  rewrite denote_cons. destruct p as [s | s]; cbn [scan piece_str].
  - apply scan_text_split. intros cur'. apply IH, Hps'.
  - cbn [arg_no_space] in Hp. rewrite (split_from_no_space s cur _ Hp). apply IH, Hps'.
Qed.

(** The properties written after an element, up to the [!] that links it
    to the next one. *)
Fixpoint properties (ws : list string) : list string :=
  match ws with
  | [] => []
  | w :: ws' => if String.eqb w "!" then [] else w :: properties ws'
  end.

(** The queues of a description: for every word [queue], in order, the
    properties it is given. *)
Fixpoint queues (ws : list string) : list (list string) :=
  match ws with
  | [] => []
  | w :: ws' =>
      if String.eqb w "queue" then properties ws' :: queues ws' else queues ws'
  end.

(** A queue that holds at most 30 buffers, with no limit in bytes or
    time, and never drops one: full, it blocks the element before it. *)
Definition bounded_blocking : list string :=
  ["leaky=no"; "max-size-buffers=30"; "max-size-bytes=0"; "max-size-time=0"].

(** [str] of an [int] has no white space. *)
Lemma no_space_string_of_uint (d : Decimal.uint) :
  no_space (DecimalString.NilEmpty.string_of_uint d) = true.
Proof. induction d; cbn [NilEmpty.string_of_uint no_space]; try exact IHd; reflexivity. Qed.

Lemma no_space_str_int (n : Z) : no_space (str_int n) = true.
Proof.
  unfold str_int, NilZero.string_of_int, NilZero.string_of_uint.
  destruct (Z.to_int n) as [d | d]; destruct d;
    try reflexivity; cbn [no_space]; apply no_space_string_of_uint.
Qed.

Lemma no_space_lower_str_bool (b : bool) : no_space (lower (str_bool b)) = true.
Proof. destruct b; reflexivity. Qed.

Section Queues.
Context `{Builtins}.

Definition tiling_pieces (a : Tiling.Namespace) : list piece :=
  [ Lit nl; Lit "            filesrc location="; Lit dq; Arg (Tiling.input a); Lit dq; Lit " !"; Lit nl;
    Lit "            qtdemux !"; Lit nl; Lit "            h264parse !"; Lit nl;
    Lit "            avdec_h264 !"; Lit nl; Lit "            videoconvert !"; Lit nl;
    Lit "            video/x-raw,format=RGB !"; Lit nl;
    Lit "            hailotilecropper name=cropper"; Lit nl;
    Lit "                tiles-along-x-axis="; Arg (str_int (Tiling.tiles_x a)); Lit nl;
    Lit "                tiles-along-y-axis="; Arg (str_int (Tiling.tiles_y a)); Lit nl;
    Lit "                overlap-x-axis="; Arg (str_float (Tiling.overlap_x a)); Lit nl;
    Lit "                overlap-y-axis="; Arg (str_float (Tiling.overlap_y a)); Lit nl;
    Lit "                tiling-mode="; Arg (str_int (Tiling.tiling_mode a)); Lit nl;
    Lit "            "; Lit nl; Lit "            hailotileaggregator name=aggregator"; Lit nl;
    Lit "                flatten-detections=true"; Lit nl; Lit "                iou-threshold=";
    Arg (str_float (Tiling.iou_threshold a)); Lit nl; Lit "                border-threshold=";
    Arg (str_float (Tiling.border_threshold a)); Lit nl;
    Lit "                remove-large-landscape=";
    Arg (lower (str_bool (Tiling.remove_large_landscape a))); Lit nl; Lit "            "; Lit nl;
    Lit "            cropper.src_0 !"; Lit nl;
    Lit "            queue leaky=no max-size-buffers=30 max-size-bytes=0 max-size-time=0 !";
    Lit nl; Lit "            aggregator.sink_0"; Lit nl; Lit "            "; Lit nl;
    Lit "            cropper.src_1 !"; Lit nl;
    Lit "            queue leaky=no max-size-buffers=30 max-size-bytes=0 max-size-time=0 !";
    Lit nl; Lit "            videoscale !"; Lit nl; Lit "            video/x-raw,width=";
    Arg (str_int (Tiling.tile_width a)); Lit ",height="; Arg (str_int (Tiling.tile_height a));
    Lit " !"; Lit nl;
    Lit "            queue leaky=no max-size-buffers=30 max-size-bytes=0 max-size-time=0 !";
    Lit nl; Lit "            hailonet hef-path="; Arg (Tiling.hef a); Lit " is-active=true !";
    Lit nl;
    Lit "            queue leaky=no max-size-buffers=30 max-size-bytes=0 max-size-time=0 !";
    Lit nl; Lit "            hailofilter so-path="; Arg (Tiling.postprocess_so a);
    Lit " qos=false !"; Lit nl;
    Lit "            queue leaky=no max-size-buffers=30 max-size-bytes=0 max-size-time=0 !";
    Lit nl; Lit "            aggregator.sink_1"; Lit nl; Lit "            "; Lit nl;
    Lit "            aggregator.src !"; Lit nl;
    Lit "            queue leaky=no max-size-buffers=30 max-size-bytes=0 max-size-time=0 !";
    Lit nl; Lit "            hailooverlay !"; Lit nl;
    Lit "            queue leaky=no max-size-buffers=30 max-size-bytes=0 max-size-time=0 !";
    Lit nl; Lit "            videoconvert !"; Lit nl; Lit "            x264enc bitrate=";
    Arg (str_int (Tiling.bitrate a)); Lit " speed-preset="; Lit Tiling.ENCODING_PRESET;
    Lit " tune=zerolatency key-int-max=60 !"; Lit nl; Lit "            h264parse !"; Lit nl;
    Lit "            mp4mux !"; Lit nl; Lit "            filesink location="; Lit dq;
    Arg (Tiling.output a); Lit dq; Lit " sync=false"; Lit nl; Lit "        " ].

Definition preserve_pieces (a : Preserve.Namespace) : list piece :=
  [ Lit nl; Lit "            filesrc location="; Lit dq; Arg (Preserve.input a); Lit dq; Lit " !";
    Lit nl; Lit "            qtdemux !"; Lit nl; Lit "            h264parse !"; Lit nl;
    Lit "            avdec_h264 !"; Lit nl; Lit "            videoconvert !"; Lit nl;
    Lit "            tee name=t"; Lit nl; Lit "            "; Lit nl;
    Lit "            hailomuxer name=mux"; Lit nl; Lit "            "; Lit nl;
    Lit "            t. ! "; Lit nl;
    Lit "            queue leaky=no max-size-buffers=30 max-size-bytes=0 max-size-time=0 !";
    Lit nl; Lit "            mux."; Lit nl; Lit "            "; Lit nl; Lit "            t. !"; Lit nl;
    Lit "            videoscale !"; Lit nl; Lit "            video/x-raw,width=";
    Arg (str_int (Preserve.inference_width a)); Lit ",height=";
    Arg (str_int (Preserve.inference_height a)); Lit " !"; Lit nl;
    Lit "            queue leaky=no max-size-buffers=30 max-size-bytes=0 max-size-time=0 !";
    Lit nl; Lit "            hailonet hef-path="; Arg (Preserve.hef a); Lit " is-active=true ";
    Lit "nms-score-threshold="; Arg (str_float Preserve.NMS_SCORE_THRESHOLD); Lit " ";
    Lit "nms-iou-threshold="; Arg (str_float Preserve.NMS_IOU_THRESHOLD); Lit " ";
    Lit "output-format-type=HAILO_FORMAT_TYPE_FLOAT32"; Lit " !"; Lit nl;
    Lit "            queue leaky=no max-size-buffers=30 max-size-bytes=0 max-size-time=0 !";
    Lit nl; Lit "            hailofilter so-path="; Arg (Preserve.postprocess_so a);
    Lit " qos=false !"; Lit nl; Lit "            mux."; Lit nl; Lit "            "; Lit nl;
    Lit "            mux. !"; Lit nl;
    Lit "            queue leaky=no max-size-buffers=30 max-size-bytes=0 max-size-time=0 !";
    Lit nl; Lit "            hailooverlay !"; Lit nl;
    Lit "            queue leaky=no max-size-buffers=30 max-size-bytes=0 max-size-time=0 !";
    Lit nl; Lit "            videoconvert !"; Lit nl; Lit "            x264enc bitrate=";
    Arg (str_int (Preserve.bitrate a)); Lit " speed-preset="; Lit Preserve.ENCODING_PRESET;
    Lit " tune=zerolatency key-int-max=60 !"; Lit nl; Lit "            h264parse !"; Lit nl;
    Lit "            mp4mux !"; Lit nl; Lit "            filesink location="; Lit dq;
    Arg (Preserve.output a); Lit dq; Lit " sync=false"; Lit nl; Lit "        " ].

Lemma tiling_template_pieces (a : Tiling.Namespace) :
  Tiling.pipeline_template a = denote (tiling_pieces a).
Proof. reflexivity. Qed.

Lemma preserve_template_pieces (a : Preserve.Namespace) :
  Preserve.pipeline_template a = denote (preserve_pieces a).
Proof.
  unfold Preserve.pipeline_template, Preserve.nms_params.
  rewrite !str_app_assoc. reflexivity.
Qed.

Lemma tiling_description_words (self : Tiling.Self) :
  split (fst (Tiling.build_pipeline self)) =
  split (Tiling.pipeline_template (Tiling.args self)).
Proof.
  unfold Tiling.build_pipeline.
  destruct (Tiling.debug (Tiling.args self)); apply split_join_split.
Qed.

Lemma preserve_description_words (self : Preserve.Self) :
  split (fst (Preserve.build_pipeline self)) =
  split (Preserve.pipeline_template (Preserve.args self)).
Proof.
  unfold Preserve.build_pipeline.
  destruct (Preserve.debug (Preserve.args self)); apply split_join_split.
Qed.

(** The paths of an argument set are written without white space. *)
Definition tiling_plain_paths (a : Tiling.Namespace) : Prop :=
  no_space (Tiling.input a) = true /\ no_space (Tiling.output a) = true /\
  no_space (Tiling.hef a) = true /\ no_space (Tiling.postprocess_so a) = true.

Definition preserve_plain_paths (a : Preserve.Namespace) : Prop :=
  no_space (Preserve.input a) = true /\ no_space (Preserve.output a) = true /\
  no_space (Preserve.hef a) = true /\ no_space (Preserve.postprocess_so a) = true.

(** [str] of a [float] has no white space. *)
Definition plain_floats : Prop := forall x : float, no_space (str_float x) = true.

Lemma tiling_pieces_no_space (a : Tiling.Namespace) :
  plain_floats -> tiling_plain_paths a -> Forall arg_no_space (tiling_pieces a).
Proof.
  intros Hfloat (Hin & Hout & Hhef & Hso). unfold tiling_pieces.
  repeat (apply List.Forall_cons; [| ]); try apply List.Forall_nil;
    cbn [arg_no_space];
    first [exact I | assumption | apply Hfloat | apply no_space_str_int
          | apply no_space_lower_str_bool].
Qed.

Lemma preserve_pieces_no_space (a : Preserve.Namespace) :
  plain_floats -> preserve_plain_paths a -> Forall arg_no_space (preserve_pieces a).
Proof.
  intros Hfloat (Hin & Hout & Hhef & Hso). unfold preserve_pieces.
  repeat (apply List.Forall_cons; [| ]); try apply List.Forall_nil;
    cbn [arg_no_space];
    first [exact I | assumption | apply Hfloat | apply no_space_str_int].
Qed.

Lemma tiling_scan_queues (a : Tiling.Namespace) :
  queues (scan (tiling_pieces a) EmptyString) = repeat bounded_blocking 7.
Proof. vm_compute. reflexivity. Qed.

Lemma preserve_scan_queues (a : Preserve.Namespace) :
  queues (scan (preserve_pieces a) EmptyString) = repeat bounded_blocking 5.
Proof. vm_compute. reflexivity. Qed.

(** C6, amended.  For every argument set whose four paths are written
    without white space, the graph description of the tiling script has
    seven queues and that of the resolution-preserving script five, and
    every one of them is given exactly [leaky=no max-size-buffers=30
    max-size-bytes=0 max-size-time=0]: at most 30 buffers, and a full
    queue blocks instead of dropping. *)
Theorem queues_bounded_and_blocking :
  (forall self : Tiling.Self,
     plain_floats -> tiling_plain_paths (Tiling.args self) ->
     queues (split (fst (Tiling.build_pipeline self))) = repeat bounded_blocking 7) /\
  (forall self : Preserve.Self,
     plain_floats -> preserve_plain_paths (Preserve.args self) ->
     queues (split (fst (Preserve.build_pipeline self))) = repeat bounded_blocking 5).
Proof.
  split; intros self Hfloat Hpaths.
  - rewrite tiling_description_words, tiling_template_pieces. unfold split.
    rewrite <- (scan_split _ (tiling_pieces_no_space _ Hfloat Hpaths)).
    apply tiling_scan_queues.
  - rewrite preserve_description_words, preserve_template_pieces. unfold split.
    rewrite <- (scan_split _ (preserve_pieces_no_space _ Hfloat Hpaths)).
    apply preserve_scan_queues.
Qed.

End Queues.

Lemma sample_plain_floats : plain_floats (H := Sample.builtins).
Proof.
  intros x. change (no_space (Sample.str_float x) = true). unfold Sample.str_float.
  destruct (List.find _ Sample.literals) as [l |] eqn:Hfind.
  - apply List.find_some in Hfind as [Hin _].
    assert (Hall : Forall (fun l => no_space (fst l) = true) Sample.literals)
      by (repeat constructor).
    exact (proj1 (List.Forall_forall _ _) Hall l Hin).
  - destruct x as [s | s | | s m e]; try reflexivity.
    rewrite !no_space_app, !no_space_str_int. destruct s; reflexivity.
Qed.

(** The queues of the two descriptions for [--input in.mp4 --output
    out/o.mp4 --hef model.hef --postprocess-so post.so]. *)
Lemma queues_of_the_examples :
  queues (split (fst (Tiling.build_pipeline (H := Sample.builtins) Sample.tiling_self))) =
    repeat bounded_blocking 7
  /\ queues (split (fst (Preserve.build_pipeline (H := Sample.builtins)
                           Sample.preserve_self))) =
    repeat bounded_blocking 5.
Proof.
  split.
  - apply (proj1 (queues_bounded_and_blocking (H := Sample.builtins)) Sample.tiling_self).
    + exact sample_plain_floats.
    + repeat split.
  - apply (proj2 (queues_bounded_and_blocking (H := Sample.builtins)) Sample.preserve_self).
    + exact sample_plain_floats.
    + repeat split.
Defined.

(** A model path with white space in it can write a queue of its own
    into the description. *)
Definition hef_with_a_queue : Tiling.Self :=
  {| Tiling.args :=
       Tiling.set_hef "model.hef ! queue leaky=downstream ! hailonet hef-path=model.hef"
         Sample.tiling_args;
     Tiling.pipeline := None; Tiling.loop := false; Tiling.frame_count := 0 |}.

Lemma a_leaky_queue :
  queues (split (fst (Tiling.build_pipeline (H := Sample.builtins) hef_with_a_queue))) =
  [ bounded_blocking; bounded_blocking; bounded_blocking; ["leaky=downstream"];
    bounded_blocking; bounded_blocking; bounded_blocking; bounded_blocking ].
Proof. vm_compute. reflexivity. Qed.

(** ** The frame counter *)

Section FrameCounter.
Context `{Builtins}.

(** The probe on the [src] pad of the aggregator counts the buffers that
    leave it: after [n] buffers and the end of the stream the counter of
    the tiling script has grown by [n].  How many buffers the aggregator
    lets out for a frame is up to that element. *)
Lemma tiling_frame_count_buffers (n : nat) :
  forall self : Tiling.Self,
    Tiling.loop self = true ->
    Tiling.frame_count
      (fst (fst (Tiling.loop_run self true
                   (repeat Gst.Buffer n ++ [Gst.Deliver Gst.EOS])%list))) =
    Tiling.frame_count self + Z.of_nat n.
Proof.
  induction n as [| n IH]; intros self Hloop.
  - cbn [repeat app Tiling.loop_run Tiling.on_message]. rewrite Hloop.
    cbn [fst]. lia.
  - cbn [repeat app Tiling.loop_run]. unfold Tiling.on_buffer_probe.
    specialize (IH (Tiling.set_frame_count (Tiling.frame_count self + 1) self) Hloop).
    destruct (Tiling.loop_run _ true _) as [[self2 out2] e].
    cbn [fst] in IH |- *. rewrite IH. cbn [Tiling.set_frame_count Tiling.frame_count].
    lia.
Qed.

End FrameCounter.

(** ** What a run counts and prints *)

(** The buffers the main loop sees before the event that ends it. *)
Fixpoint buffers_before_end (evs : list Gst.Event) : nat :=
  match evs with
  | [] => 0
  | Gst.Buffer :: rest => S (buffers_before_end rest)
  | Gst.Deliver m :: rest => if is_terminal m then 0 else buffers_before_end rest
  | Gst.Interrupt :: _ => 0
  end.

(** The counts [c + 1], ..., [c + n] that are multiples of [step]. *)
Definition progress_counts (step c : Z) (n : nat) : list Z :=
  List.filter (fun k => k mod step =? 0) (List.map (fun i => c + Z.of_nat i) (seq 1 n)).

Lemma progress_counts_S (step c : Z) (n : nat) :
  progress_counts step c (S n) =
  ((if (c + 1) mod step =? 0 then [c + 1] else []) ++ progress_counts step (c + 1) n)%list.
Proof.
  unfold progress_counts. cbn [seq List.map List.filter].
  replace (c + Z.of_nat 1) with (c + 1) by lia.
  rewrite <- seq_shift, List.map_map.
  replace (List.map (fun i => c + Z.of_nat (S i)) (seq 1 n))
    with (List.map (fun i => c + 1 + Z.of_nat i) (seq 1 n))
    by (apply List.map_ext; intros i; lia).
  destruct (_ =? 0); reflexivity.
Qed.

(** A line written by [on_buffer_probe]. *)
Definition is_progress (e : effect) : bool :=
  match e with
  | Print s => String.prefix "[PROGRESS]" s
  | _ => false
  end.

Definition progress_line (n : Z) : effect :=
  print_end ("[PROGRESS] Processed " ++ str_int n ++ " frames...") cr.

Lemma is_progress_line (n : Z) : is_progress (progress_line n) = true.
Proof. reflexivity. Qed.

Lemma filter_progress_lines (ks : list Z) :
  List.filter is_progress (List.map progress_line ks) = List.map progress_line ks.
Proof.
  induction ks as [| k ks IH]; [reflexivity |].
  cbn [List.map List.filter]. rewrite is_progress_line, IH. reflexivity.
Qed.


Section TilingRuns.
Context `{Builtins}.

Lemma tiling_on_message_no_progress (self : Tiling.Self) (m : Gst.Message) :
  List.filter is_progress (snd (fst (Tiling.on_message self m))) = [].
Proof.
  destruct m as [err dbg | | warn dbg | src o n | st |]; cbn [Tiling.on_message fst snd].
  - destruct (Tiling.truthy dbg && Tiling.debug (Tiling.args self)); reflexivity.
  - reflexivity.
  - destruct (Tiling.truthy dbg && Tiling.debug (Tiling.args self)); reflexivity.
  - destruct (src && Tiling.debug (Tiling.args self)); reflexivity.
  - destruct (Tiling.debug (Tiling.args self)); reflexivity.
  - reflexivity.
Qed.

Lemma tiling_loop_run_counts (evs : list Gst.Event) :
  forall (self : Tiling.Self) (probe : bool),
    Tiling.loop self = true ->
    Tiling.frame_count (fst (fst (Tiling.loop_run self probe evs))) =
      Tiling.frame_count self + (if probe then Z.of_nat (buffers_before_end evs) else 0)
    /\ List.filter is_progress (snd (fst (Tiling.loop_run self probe evs))) =
       if probe
       then List.map progress_line
              (progress_counts 50 (Tiling.frame_count self) (buffers_before_end evs))
       else [].
Proof.
  induction evs as [| ev evs IH]; intros self probe Hloop.
  - cbn [Tiling.loop_run buffers_before_end fst snd]. destruct probe; split; solve [reflexivity | lia].
  - destruct ev as [m | |]; cbn [Tiling.loop_run buffers_before_end].
    + pose proof (TilingRun.tiling_on_message_self self m) as Hs.
      pose proof (TilingRun.tiling_on_message_quit self m) as Hq.
      pose proof (tiling_on_message_no_progress self m) as Hp.
      destruct (Tiling.on_message self m) as [[self1 out] quit]. cbn [fst snd] in Hs, Hq, Hp.
      subst self1. rewrite Hloop, andb_true_r in Hq. subst quit.
      destruct (is_terminal m).
      * cbn [fst snd]. destruct probe; (split; [lia | exact Hp]).
      * specialize (IH self probe Hloop).
        destruct (Tiling.loop_run self probe evs) as [[self2 out2] e]. cbn [fst snd] in IH |- *.
        rewrite List.filter_app, Hp. exact IH.
    + destruct probe; [| exact (IH self false Hloop)].
      unfold Tiling.on_buffer_probe.
      specialize (IH (Tiling.set_frame_count (Tiling.frame_count self + 1) self) true Hloop).
      destruct (Tiling.loop_run _ true evs) as [[self2 out2] e].
      cbn [fst snd Tiling.set_frame_count Tiling.frame_count] in IH |- *.
      destruct IH as [IHc IHp]. split; [rewrite IHc; lia |].
      rewrite List.filter_app, IHp, progress_counts_S, List.map_app.
      f_equal. destruct (_ =? 0); reflexivity.
    + cbn [fst snd]. destruct probe; split; solve [reflexivity | lia].
Qed.


(** The line [on_message] prints at the end of the stream. *)
Definition tiling_eos_line (n : Z) : effect :=
  print (nl ++ "[EOS] Processing complete. Processed " ++ str_int n ++ " frames.").

Lemma tiling_loop_run_eos (evs : list Gst.Event) :
  forall (self : Tiling.Self) (probe : bool) (later : list Gst.Event),
    Tiling.loop self = true -> ~ Exists ends_run evs ->
    exists before,
      Tiling.loop_run self probe (evs ++ Gst.Deliver Gst.EOS :: later) =
        (fst (fst (Tiling.loop_run self probe evs)),
         (before ++ [tiling_eos_line (Tiling.frame_count (fst (fst (Tiling.loop_run self probe evs))))])%list,
         Tiling.Quit).
Proof.
  induction evs as [| e0 evs IH]; intros self probe later Hloop Hno.
  - exists []. cbn [app Tiling.loop_run Tiling.on_message fst]. rewrite Hloop. reflexivity.
  - assert (Hno' : ~ Exists ends_run evs) by (intros Hex; apply Hno; right; exact Hex).
    cbn [app]. destruct e0 as [m | |]; cbn [Tiling.loop_run].
    + pose proof (TilingRun.tiling_on_message_self self m) as Hs.
      pose proof (TilingRun.tiling_on_message_quit self m) as Hq.
      destruct (Tiling.on_message self m) as [[self1 out] quit]. cbn [fst snd] in Hs, Hq.
      subst self1.
      assert (Hm : is_terminal m = false).
      { destruct (is_terminal m) eqn:Hm; [| reflexivity].
        exfalso. apply Hno. left. exact Hm. }
      rewrite Hm in Hq. cbn [andb] in Hq. subst quit.
      destruct (IH self probe later Hloop Hno') as [before Heq]. rewrite Heq.
      destruct (Tiling.loop_run self probe evs) as [[self2 out2] e]. cbn [fst].
      exists (out ++ before)%list. rewrite <- app_assoc. reflexivity.
    + destruct probe; [| exact (IH self false later Hloop Hno')].
      unfold Tiling.on_buffer_probe.
      set (self1 := Tiling.set_frame_count (Tiling.frame_count self + 1) self).
      destruct (IH self1 true later Hloop Hno') as [before Heq]. rewrite Heq.
      destruct (Tiling.loop_run self1 true evs) as [[self2 out2] e]. cbn [fst].
      eexists. rewrite <- app_assoc. reflexivity.
    + exfalso. apply Hno. left. exact I.
Qed.

End TilingRuns.

Section PreserveRuns.
Context `{Builtins}.

Lemma preserve_on_message_no_progress (self : Preserve.Self) (m : Gst.Message) :
  List.filter is_progress (snd (fst (Preserve.on_message self m))) = [].
Proof.
  destruct m as [err dbg | | warn dbg | src o n | st |]; cbn [Preserve.on_message fst snd].
  - destruct (Preserve.truthy dbg && Preserve.debug (Preserve.args self)); reflexivity.
  - reflexivity.
  - destruct (Preserve.truthy dbg && Preserve.debug (Preserve.args self)); reflexivity.
  - destruct (src && Preserve.debug (Preserve.args self)); reflexivity.
  - destruct (Preserve.debug (Preserve.args self)); reflexivity.
  - reflexivity.
Qed.

Lemma preserve_loop_run_counts (evs : list Gst.Event) :
  forall (self : Preserve.Self) (probe : bool),
    Preserve.loop self = true ->
    Preserve.frame_count (fst (fst (Preserve.loop_run self probe evs))) =
      Preserve.frame_count self + (if probe then Z.of_nat (buffers_before_end evs) else 0)
    /\ List.filter is_progress (snd (fst (Preserve.loop_run self probe evs))) =
       if probe
       then List.map progress_line
              (progress_counts 100 (Preserve.frame_count self) (buffers_before_end evs))
       else [].
Proof.
  induction evs as [| ev evs IH]; intros self probe Hloop.
  - cbn [Preserve.loop_run buffers_before_end fst snd]. destruct probe; split; solve [reflexivity | lia].
  - destruct ev as [m | |]; cbn [Preserve.loop_run buffers_before_end].
    + pose proof (PreserveRun.preserve_on_message_self self m) as Hs.
      pose proof (PreserveRun.preserve_on_message_quit self m) as Hq.
      pose proof (preserve_on_message_no_progress self m) as Hp.
      destruct (Preserve.on_message self m) as [[self1 out] quit]. cbn [fst snd] in Hs, Hq, Hp.
      subst self1. rewrite Hloop, andb_true_r in Hq. subst quit.
      destruct (is_terminal m).
      * cbn [fst snd]. destruct probe; (split; [lia | exact Hp]).
      * specialize (IH self probe Hloop).
        destruct (Preserve.loop_run self probe evs) as [[self2 out2] e]. cbn [fst snd] in IH |- *.
        rewrite List.filter_app, Hp. exact IH.
    + destruct probe; [| exact (IH self false Hloop)].
      unfold Preserve.on_buffer_probe.
      specialize (IH (Preserve.set_frame_count (Preserve.frame_count self + 1) self) true Hloop).
      destruct (Preserve.loop_run _ true evs) as [[self2 out2] e].
      cbn [fst snd Preserve.set_frame_count Preserve.frame_count] in IH |- *.
      destruct IH as [IHc IHp]. split; [rewrite IHc; lia |].
      rewrite List.filter_app, IHp, progress_counts_S, List.map_app.
      f_equal. destruct (_ =? 0); reflexivity.
    + cbn [fst snd]. destruct probe; split; solve [reflexivity | lia].
Qed.


(** The line [on_message] prints at the end of the stream. *)
Definition preserve_eos_line (n : Z) : effect :=
  print (nl ++ "[EOS] Processing complete. Processed " ++ str_int n ++ " frames.").

Lemma preserve_loop_run_eos (evs : list Gst.Event) :
  forall (self : Preserve.Self) (probe : bool) (later : list Gst.Event),
    Preserve.loop self = true -> ~ Exists ends_run evs ->
    exists before,
      Preserve.loop_run self probe (evs ++ Gst.Deliver Gst.EOS :: later) =
        (fst (fst (Preserve.loop_run self probe evs)),
         (before ++ [preserve_eos_line (Preserve.frame_count (fst (fst (Preserve.loop_run self probe evs))))])%list,
         Preserve.Quit).
Proof.
  induction evs as [| e0 evs IH]; intros self probe later Hloop Hno.
  - exists []. cbn [app Preserve.loop_run Preserve.on_message fst]. rewrite Hloop. reflexivity.
  - assert (Hno' : ~ Exists ends_run evs) by (intros Hex; apply Hno; right; exact Hex).
    cbn [app]. destruct e0 as [m | |]; cbn [Preserve.loop_run].
    + pose proof (PreserveRun.preserve_on_message_self self m) as Hs.
      pose proof (PreserveRun.preserve_on_message_quit self m) as Hq.
      destruct (Preserve.on_message self m) as [[self1 out] quit]. cbn [fst snd] in Hs, Hq.
      subst self1.
      assert (Hm : is_terminal m = false).
      { destruct (is_terminal m) eqn:Hm; [| reflexivity].
        exfalso. apply Hno. left. exact Hm. }
      rewrite Hm in Hq. cbn [andb] in Hq. subst quit.
      destruct (IH self probe later Hloop Hno') as [before Heq]. rewrite Heq.
      destruct (Preserve.loop_run self probe evs) as [[self2 out2] e]. cbn [fst].
      exists (out ++ before)%list. rewrite <- app_assoc. reflexivity.
    + destruct probe; [| exact (IH self false later Hloop Hno')].
      unfold Preserve.on_buffer_probe.
      set (self1 := Preserve.set_frame_count (Preserve.frame_count self + 1) self).
      destruct (IH self1 true later Hloop Hno') as [before Heq]. rewrite Heq.
      destruct (Preserve.loop_run self1 true evs) as [[self2 out2] e]. cbn [fst].
      eexists. rewrite <- app_assoc. reflexivity.
    + exfalso. apply Hno. left. exact I.
Qed.

End PreserveRuns.

Section TilingRunEffects.
Context `{Builtins}.






End TilingRunEffects.

Section PreserveRunEffects.
Context `{Builtins}.






End PreserveRunEffects.

Section RunFacts.
Context `{Builtins}.



(** X3.  With a main loop to quit, the progress lines the loop prints are
    those of the counts that are multiples of 50 (of 100 in the other
    script) among the buffers counted, in order, and nothing else it
    prints looks like one. *)
Theorem progress_every_50_or_100_frames :
  (forall (self : Tiling.Self) (evs : list Gst.Event),
     Tiling.loop self = true ->
     List.filter is_progress (snd (fst (Tiling.loop_run self true evs))) =
     List.map progress_line
       (progress_counts 50 (Tiling.frame_count self) (buffers_before_end evs))) /\
  (forall (self : Preserve.Self) (evs : list Gst.Event),
     Preserve.loop self = true ->
     List.filter is_progress (snd (fst (Preserve.loop_run self true evs))) =
     List.map progress_line
       (progress_counts 100 (Preserve.frame_count self) (buffers_before_end evs))).
Proof.
  split; intros self evs Hloop.
  - exact (proj2 (tiling_loop_run_counts evs self true Hloop)).
  - exact (proj2 (preserve_loop_run_counts evs self true Hloop)).
Qed.


(** X5.  When the end of the stream is the first event that ends the run,
    the loop quits there, and the last thing it prints is the line
    [[EOS] Processing complete. Processed n frames.] with [n] the frame
    counter at that point. *)
Theorem end_of_stream_reports_the_counter :
  (forall (self : Tiling.Self) (probe : bool) (evs later : list Gst.Event),
     Tiling.loop self = true -> ~ Exists ends_run evs ->
     exists before,
       Tiling.loop_run self probe (evs ++ Gst.Deliver Gst.EOS :: later) =
       (fst (fst (Tiling.loop_run self probe evs)),
        (before ++
         [tiling_eos_line
            (Tiling.frame_count (fst (fst (Tiling.loop_run self probe evs))))])%list,
        Tiling.Quit)) /\
  (forall (self : Preserve.Self) (probe : bool) (evs later : list Gst.Event),
     Preserve.loop self = true -> ~ Exists ends_run evs ->
     exists before,
       Preserve.loop_run self probe (evs ++ Gst.Deliver Gst.EOS :: later) =
       (fst (fst (Preserve.loop_run self probe evs)),
        (before ++
         [preserve_eos_line
            (Preserve.frame_count (fst (fst (Preserve.loop_run self probe evs))))])%list,
        Preserve.Quit)).
Proof.
  split; intros self probe evs later Hloop Hno.
  - exact (tiling_loop_run_eos evs self probe later Hloop Hno).
  - exact (preserve_loop_run_eos evs self probe later Hloop Hno).
Qed.

End RunFacts.

(** A hundred and twenty buffers, then the end of the stream, then a
    buffer that comes too late. *)
Definition long_stream : list Gst.Event :=
  (repeat Gst.Buffer 120 ++ [Gst.Deliver Gst.EOS; Gst.Buffer])%list.


(** X3 on [long_stream]: progress is reported at 50 and at 100 frames by
    the tiling script, at 100 frames by the other. *)
Lemma progress_long_stream :
  List.filter is_progress
    (snd (fst (Tiling.loop_run
                 (Tiling.set_loop Sample.tiling_self) true long_stream))) =
    [progress_line 50; progress_line 100]
  /\ List.filter is_progress
       (snd (fst (Preserve.loop_run
                    (Preserve.set_loop Sample.preserve_self) true long_stream))) =
     [progress_line 100].
Proof.
  split.
  - rewrite (proj1 progress_every_50_or_100_frames
               (Tiling.set_loop Sample.tiling_self) long_stream eq_refl).
    reflexivity.
  - rewrite (proj2 progress_every_50_or_100_frames
               (Preserve.set_loop Sample.preserve_self) long_stream eq_refl).
    reflexivity.
Defined.


(** X5 on three frames and a warning: the line says 3 frames. *)
Lemma end_of_stream_after_three_frames :
  exists before,
    Tiling.loop_run (Tiling.set_loop Sample.tiling_self) true
      Sample.three_frames =
    (Tiling.set_frame_count 3 (Tiling.set_loop Sample.tiling_self),
     (before ++ [tiling_eos_line 3])%list, Tiling.Quit).
Proof.
  destruct (proj1 end_of_stream_reports_the_counter
              (Tiling.set_loop Sample.tiling_self) true
              [Gst.Buffer; Gst.Buffer; Gst.Deliver (Gst.WARNING "late buffer" None);
               Gst.Buffer] [] eq_refl) as [before Heq].
  - intros Hex. repeat (apply Exists_cons in Hex as [Hex | Hex]; [cbn in Hex; try discriminate; try contradiction |]).
    inversion Hex.
  - exists before. exact Heq.
Defined.

(** ** The graph description as text *)

(** The only white space between words joined by spaces is the space. *)
Definition spaces_only (s : string) : Prop :=
  forall c, In c (list_ascii_of_string s) -> isspace c = true -> c = " "%char.

Lemma no_space_chars (w : string) (c : ascii) :
  no_space w = true -> In c (list_ascii_of_string w) -> isspace c = false.
Proof.
  induction w as [| a w IH]; cbn [no_space list_ascii_of_string]; intros Hw Hin.
  - destruct Hin.
  - apply andb_true_iff in Hw as [Ha Hw]. destruct Hin as [<- | Hin].
    + destruct (isspace a); [discriminate | reflexivity].
    + apply IH; assumption.
Qed.

Lemma list_ascii_app (s t : string) :
  list_ascii_of_string (s ++ t) = (list_ascii_of_string s ++ list_ascii_of_string t)%list.
Proof.
  induction s as [| a s IH]; cbn [append list_ascii_of_string]; [reflexivity |].
  rewrite IH. reflexivity.
Qed.

Lemma join_spaces_only (ws : list string) : Forall word ws -> spaces_only (join " " ws).
Proof.
  induction ws as [| w ws IH]; intros Hws c Hin Hc; [destruct Hin |].
  inversion Hws as [| ? ? [Hw _] Hws']; subst.
  destruct ws as [| w' ws].
  - cbn [join] in Hin. rewrite (no_space_chars w c Hw Hin) in Hc. discriminate.
  - change (join " " (w :: w' :: ws)) with (w ++ String " " (join " " (w' :: ws))) in Hin.
    rewrite list_ascii_app in Hin. apply in_app_or in Hin as [Hin | Hin].
    + rewrite (no_space_chars w c Hw Hin) in Hc. discriminate.
    + cbn [list_ascii_of_string] in Hin. destruct Hin as [<- | Hin]; [reflexivity |].
      exact (IH Hws' c Hin Hc).
Qed.

Lemma split_words (s : string) : Forall word (split s).
Proof. apply split_from_words. reflexivity. Qed.









Section TilingDescription.
Context `{Builtins}.

(** The pipeline object with [args.debug] set to [b]. *)
Definition tiling_with_debug (b : bool) (self : Tiling.Self) : Tiling.Self :=
  {| Tiling.args := Tiling.set_debug b (Tiling.args self); Tiling.pipeline := Tiling.pipeline self;
     Tiling.loop := Tiling.loop self; Tiling.frame_count := Tiling.frame_count self |}.

Lemma tiling_description_debug (b : bool) (self : Tiling.Self) :
  fst (Tiling.build_pipeline (tiling_with_debug b self)) = fst (Tiling.build_pipeline self).
Proof.
  unfold Tiling.build_pipeline.
  destruct (Tiling.debug (Tiling.args (tiling_with_debug b self)));
    destruct (Tiling.debug (Tiling.args self)); reflexivity.
Qed.

Lemma tiling_loop_run_debug (b : bool) (evs : list Gst.Event) :
  forall (self : Tiling.Self) (probe : bool),
    fst (fst (Tiling.loop_run (tiling_with_debug b self) probe evs)) =
      tiling_with_debug b (fst (fst (Tiling.loop_run self probe evs)))
    /\ snd (Tiling.loop_run (tiling_with_debug b self) probe evs) =
       snd (Tiling.loop_run self probe evs).
Proof.
  induction evs as [| ev evs IH]; intros self probe; [split; reflexivity |].
  destruct ev as [m | |]; cbn [Tiling.loop_run].
  - pose proof (TilingRun.tiling_on_message_self self m) as Hs.
    pose proof (TilingRun.tiling_on_message_quit self m) as Hq.
    pose proof (TilingRun.tiling_on_message_self (tiling_with_debug b self) m) as Hs'.
    pose proof (TilingRun.tiling_on_message_quit (tiling_with_debug b self) m) as Hq'.
    destruct (Tiling.on_message self m) as [[self1 out] quit].
    destruct (Tiling.on_message (tiling_with_debug b self) m) as [[self1' out'] quit'].
    cbn [fst snd] in Hs, Hq, Hs', Hq'. subst self1 self1'.
    cbn [tiling_with_debug Tiling.loop] in Hq'. rewrite <- Hq in Hq'. subst quit'.
    destruct quit; [split; reflexivity |].
    specialize (IH self probe).
    destruct (Tiling.loop_run self probe evs) as [[self2 out2] e].
    destruct (Tiling.loop_run (tiling_with_debug b self) probe evs) as [[self2' out2'] e'].
    exact IH.
  - destruct probe; [| exact (IH self false)].
    unfold Tiling.on_buffer_probe.
    specialize (IH (Tiling.set_frame_count (Tiling.frame_count self + 1) self) true).
    change (Tiling.set_frame_count (Tiling.frame_count (tiling_with_debug b self) + 1)
              (tiling_with_debug b self))
      with (tiling_with_debug b (Tiling.set_frame_count (Tiling.frame_count self + 1) self)).
    destruct (Tiling.loop_run (Tiling.set_frame_count (Tiling.frame_count self + 1) self) true evs)
      as [[self2 out2] e].
    destruct (Tiling.loop_run
                (tiling_with_debug b (Tiling.set_frame_count (Tiling.frame_count self + 1) self))
                true evs) as [[self2' out2'] e'].
    exact IH.
  - split; reflexivity.
Qed.

Lemma tiling_run_debug (b : bool) (self : Tiling.Self) (parse_launch : Gst.Launcher) :
  fst (fst (Tiling.run (tiling_with_debug b self) parse_launch)) =
    fst (fst (Tiling.run self parse_launch))
  /\ Tiling.frame_count (snd (fst (Tiling.run (tiling_with_debug b self) parse_launch))) =
     Tiling.frame_count (snd (fst (Tiling.run self parse_launch))).
Proof.
  unfold Tiling.run.
  pose proof (tiling_description_debug b self) as Hdesc.
  destruct (Tiling.build_pipeline (tiling_with_debug b self)) as [desc' out'].
  destruct (Tiling.build_pipeline self) as [desc out].
  cbn [fst] in Hdesc. subst desc'.
  destruct (parse_launch desc) as [msg | p]; [split; reflexivity |].
  change (Tiling.set_loop (Tiling.set_pipeline p (tiling_with_debug b self)))
    with (tiling_with_debug b (Tiling.set_loop (Tiling.set_pipeline p self))).
  pose proof (tiling_loop_run_debug b (Gst.events p) (Tiling.set_loop (Tiling.set_pipeline p self))
                (Tiling.probe_added p)) as [Hself Hend].
  destruct (Tiling.loop_run (Tiling.set_loop (Tiling.set_pipeline p self)) (Tiling.probe_added p)
              (Gst.events p)) as [[final out_loop] e].
  destruct (Tiling.loop_run (tiling_with_debug b (Tiling.set_loop (Tiling.set_pipeline p self)))
              (Tiling.probe_added p) (Gst.events p)) as [[final' out_loop'] e'].
  cbn [fst snd] in Hself, Hend. subst final' e'.
  destruct (Gst.set_state_playing p); destruct e; split; reflexivity.
Qed.

Lemma tiling_description_clean (self : Tiling.Self) :
  join " " (split (fst (Tiling.build_pipeline self))) = fst (Tiling.build_pipeline self)
  /\ spaces_only (fst (Tiling.build_pipeline self)).
Proof.
  assert (Hdesc : fst (Tiling.build_pipeline self) =
                  join " " (split (Tiling.pipeline_template (Tiling.args self)))).
  { unfold Tiling.build_pipeline. destruct (Tiling.debug (Tiling.args self)); reflexivity. }
  rewrite Hdesc. split.
  - rewrite split_join_split. reflexivity.
  - apply join_spaces_only, split_words.
Qed.


End TilingDescription.

Section PreserveDescription.
Context `{Builtins}.

(** The pipeline object with [args.debug] set to [b]. *)
Definition preserve_with_debug (b : bool) (self : Preserve.Self) : Preserve.Self :=
  {| Preserve.args := Preserve.set_debug b (Preserve.args self); Preserve.pipeline := Preserve.pipeline self;
     Preserve.loop := Preserve.loop self; Preserve.frame_count := Preserve.frame_count self |}.

Lemma preserve_description_debug (b : bool) (self : Preserve.Self) :
  fst (Preserve.build_pipeline (preserve_with_debug b self)) = fst (Preserve.build_pipeline self).
Proof.
  unfold Preserve.build_pipeline.
  destruct (Preserve.debug (Preserve.args (preserve_with_debug b self)));
    destruct (Preserve.debug (Preserve.args self)); reflexivity.
Qed.

Lemma preserve_loop_run_debug (b : bool) (evs : list Gst.Event) :
  forall (self : Preserve.Self) (probe : bool),
    fst (fst (Preserve.loop_run (preserve_with_debug b self) probe evs)) =
      preserve_with_debug b (fst (fst (Preserve.loop_run self probe evs)))
    /\ snd (Preserve.loop_run (preserve_with_debug b self) probe evs) =
       snd (Preserve.loop_run self probe evs).
Proof.
  induction evs as [| ev evs IH]; intros self probe; [split; reflexivity |].
  destruct ev as [m | |]; cbn [Preserve.loop_run].
  - pose proof (PreserveRun.preserve_on_message_self self m) as Hs.
    pose proof (PreserveRun.preserve_on_message_quit self m) as Hq.
    pose proof (PreserveRun.preserve_on_message_self (preserve_with_debug b self) m) as Hs'.
    pose proof (PreserveRun.preserve_on_message_quit (preserve_with_debug b self) m) as Hq'.
    destruct (Preserve.on_message self m) as [[self1 out] quit].
    destruct (Preserve.on_message (preserve_with_debug b self) m) as [[self1' out'] quit'].
    cbn [fst snd] in Hs, Hq, Hs', Hq'. subst self1 self1'.
    cbn [preserve_with_debug Preserve.loop] in Hq'. rewrite <- Hq in Hq'. subst quit'.
    destruct quit; [split; reflexivity |].
    specialize (IH self probe).
    destruct (Preserve.loop_run self probe evs) as [[self2 out2] e].
    destruct (Preserve.loop_run (preserve_with_debug b self) probe evs) as [[self2' out2'] e'].
    exact IH.
  - destruct probe; [| exact (IH self false)].
    unfold Preserve.on_buffer_probe.
    specialize (IH (Preserve.set_frame_count (Preserve.frame_count self + 1) self) true).
    change (Preserve.set_frame_count (Preserve.frame_count (preserve_with_debug b self) + 1)
              (preserve_with_debug b self))
      with (preserve_with_debug b (Preserve.set_frame_count (Preserve.frame_count self + 1) self)).
    destruct (Preserve.loop_run (Preserve.set_frame_count (Preserve.frame_count self + 1) self) true evs)
      as [[self2 out2] e].
    destruct (Preserve.loop_run
                (preserve_with_debug b (Preserve.set_frame_count (Preserve.frame_count self + 1) self))
                true evs) as [[self2' out2'] e'].
    exact IH.
  - split; reflexivity.
Qed.

Lemma preserve_run_debug (b : bool) (self : Preserve.Self) (parse_launch : Gst.Launcher) :
  fst (fst (Preserve.run (preserve_with_debug b self) parse_launch)) =
    fst (fst (Preserve.run self parse_launch))
  /\ Preserve.frame_count (snd (fst (Preserve.run (preserve_with_debug b self) parse_launch))) =
     Preserve.frame_count (snd (fst (Preserve.run self parse_launch))).
Proof.
  unfold Preserve.run.
  pose proof (preserve_description_debug b self) as Hdesc.
  destruct (Preserve.build_pipeline (preserve_with_debug b self)) as [desc' out'].
  destruct (Preserve.build_pipeline self) as [desc out].
  cbn [fst] in Hdesc. subst desc'.
  destruct (parse_launch desc) as [msg | p]; [split; reflexivity |].
  change (Preserve.set_loop (Preserve.set_pipeline p (preserve_with_debug b self)))
    with (preserve_with_debug b (Preserve.set_loop (Preserve.set_pipeline p self))).
  pose proof (preserve_loop_run_debug b (Gst.events p) (Preserve.set_loop (Preserve.set_pipeline p self))
                (Preserve.probe_added p)) as [Hself Hend].
  destruct (Preserve.loop_run (Preserve.set_loop (Preserve.set_pipeline p self)) (Preserve.probe_added p)
              (Gst.events p)) as [[final out_loop] e].
  destruct (Preserve.loop_run (preserve_with_debug b (Preserve.set_loop (Preserve.set_pipeline p self)))
              (Preserve.probe_added p) (Gst.events p)) as [[final' out_loop'] e'].
  cbn [fst snd] in Hself, Hend. subst final' e'.
  destruct (Gst.set_state_playing p); destruct e; split; reflexivity.
Qed.

Lemma preserve_description_clean (self : Preserve.Self) :
  join " " (split (fst (Preserve.build_pipeline self))) = fst (Preserve.build_pipeline self)
  /\ spaces_only (fst (Preserve.build_pipeline self)).
Proof.
  assert (Hdesc : fst (Preserve.build_pipeline self) =
                  join " " (split (Preserve.pipeline_template (Preserve.args self)))).
  { unfold Preserve.build_pipeline. destruct (Preserve.debug (Preserve.args self)); reflexivity. }
  rewrite Hdesc. split.
  - rewrite split_join_split. reflexivity.
  - apply join_spaces_only, split_words.
Qed.


End PreserveDescription.

Section DescriptionFacts.
Context `{Builtins}.

(** X6.  [--debug] only adds output: with [args.debug] set either way the
    graph description is the same text, [run] returns the same value, and
    it ends with the same frame counter. *)
Theorem debug_only_adds_output :
  (forall (b : bool) (self : Tiling.Self) (parse_launch : Gst.Launcher),
     fst (Tiling.build_pipeline (tiling_with_debug b self)) =
       fst (Tiling.build_pipeline self)
     /\ fst (fst (Tiling.run (tiling_with_debug b self) parse_launch)) =
        fst (fst (Tiling.run self parse_launch))
     /\ Tiling.frame_count (snd (fst (Tiling.run (tiling_with_debug b self) parse_launch))) =
        Tiling.frame_count (snd (fst (Tiling.run self parse_launch)))) /\
  (forall (b : bool) (self : Preserve.Self) (parse_launch : Gst.Launcher),
     fst (Preserve.build_pipeline (preserve_with_debug b self)) =
       fst (Preserve.build_pipeline self)
     /\ fst (fst (Preserve.run (preserve_with_debug b self) parse_launch)) =
        fst (fst (Preserve.run self parse_launch))
     /\ Preserve.frame_count
          (snd (fst (Preserve.run (preserve_with_debug b self) parse_launch))) =
        Preserve.frame_count (snd (fst (Preserve.run self parse_launch)))).
Proof.
  split; intros b self parse_launch.
  - split; [apply tiling_description_debug | apply tiling_run_debug].
  - split; [apply preserve_description_debug | apply preserve_run_debug].
Qed.

(** X7.  The graph description [build_pipeline] returns is clean: its
    words are separated by single spaces and nothing else (the line
    breaks and the indentation of the template are gone), so that
    cleaning it once more, [" ".join(s.split())], gives it back. *)
Theorem description_is_clean :
  (forall self : Tiling.Self,
     join " " (split (fst (Tiling.build_pipeline self))) = fst (Tiling.build_pipeline self)
     /\ spaces_only (fst (Tiling.build_pipeline self))) /\
  (forall self : Preserve.Self,
     join " " (split (fst (Preserve.build_pipeline self))) =
       fst (Preserve.build_pipeline self)
     /\ spaces_only (fst (Preserve.build_pipeline self))).
Proof. split; [exact tiling_description_clean | exact preserve_description_clean]. Qed.


End DescriptionFacts.


(** ** What path validation does to the file system *)

(** The file system [fs'] is [fs] with directories added: the current
    directory is the same, every entry of [fs] is in [fs'] as it was, and
    what is new is a directory. *)
Definition dirs_added (fs fs' : FS) : Prop :=
  cwd fs' = cwd fs
  /\ (forall q n, nodes fs !! q = Some n -> nodes fs' !! q = Some n)
  /\ (forall q n, nodes fs !! q = None -> nodes fs' !! q = Some n -> n = Dir).

Lemma dirs_added_refl (fs : FS) : dirs_added fs fs.
Proof. split; [reflexivity |]. split; [auto | congruence]. Qed.

Lemma dirs_added_trans (fs1 fs2 fs3 : FS) :
  dirs_added fs1 fs2 -> dirs_added fs2 fs3 -> dirs_added fs1 fs3.
Proof.
  intros (Hc1 & Hk1 & Hn1) (Hc2 & Hk2 & Hn2).
  split; [congruence |]. split; [auto |].
  intros q n Hnone Hsome.
  destruct (nodes fs2 !! q) as [n2 |] eqn:H2.
  - rewrite (Hk2 q n2 H2) in Hsome. injection Hsome as <-. exact (Hn1 q n2 Hnone H2).
  - exact (Hn2 q n H2 Hsome).
Qed.

Lemma os_mkdir_dirs_added (fs fs' : FS) (p : Path) :
  os_mkdir fs p = inr fs' -> dirs_added fs fs'.
Proof.
  unfold os_mkdir.
  destruct (resolve fs p) as [e | q]; [discriminate |].
  destruct (node_at (nodes fs) q) as [n |] eqn:Hq; [discriminate |].
  intros [= <-]. cbn [cwd nodes].
  assert (Hnone : nodes fs !! q = None) by (destruct q; [discriminate | exact Hq]).
  unfold dirs_added. cbn [cwd nodes].
  split; [reflexivity |]. split.
  - intros q' n Hsome. rewrite lookup_insert_ne; [exact Hsome | congruence].
  - intros q' n Hnone' Hsome. rewrite lookup_insert in Hsome.
    destruct (decide (q = q')); congruence.
Qed.

Lemma mkdir_exist_ok_dirs_added (fs : FS) (p : Path) :
  dirs_added fs (snd (mkdir_exist_ok fs p)).
Proof.
  unfold mkdir_exist_ok.
  destruct (os_mkdir fs p) as [[| |] | fs'] eqn:Hos;
    try (destruct (is_dir fs p)); cbn [snd]; try apply dirs_added_refl.
  all: exact (os_mkdir_dirs_added _ _ _ Hos).
Qed.

Lemma mkdir_parents_dirs_added (r : anchor) (rps : list string) :
  forall fs, dirs_added fs (snd (mkdir_parents fs r rps)).
Proof.
  induction rps as [| c rps IH]; intros fs; cbn [mkdir_parents].
  - destruct (os_mkdir fs _) as [[| |] | fs'] eqn:Hos;
      try (destruct (is_dir fs _)); cbn [snd]; try apply dirs_added_refl.
    all: exact (os_mkdir_dirs_added _ _ _ Hos).
  - destruct (os_mkdir fs _) as [[| |] | fs'] eqn:Hos;
      try (destruct (is_dir fs _)); cbn [snd]; try apply dirs_added_refl;
      try exact (os_mkdir_dirs_added _ _ _ Hos).
    specialize (IH fs).
    destruct (mkdir_parents fs r rps) as [[u | e] fs1]; cbn [snd] in IH |- *;
      [| exact IH].
    exact (dirs_added_trans _ _ _ IH (mkdir_exist_ok_dirs_added fs1 _)).
Qed.

Lemma mkdir_dirs_added (fs : FS) (p : Path) : dirs_added fs (snd (mkdir fs p)).
Proof. apply mkdir_parents_dirs_added. Qed.

Lemma node_at_dirs_added (fs fs' : FS) (q : list string) (n : node) :
  dirs_added fs fs' -> node_at (nodes fs) q = Some n -> node_at (nodes fs') q = Some n.
Proof. intros (_ & Hk & _). destruct q; [auto | apply Hk]. Qed.

Lemma walk_dirs_added (fs fs' : FS) (ps : list string) :
  dirs_added fs fs' ->
  forall cur q, walk (nodes fs) cur ps = inr q -> walk (nodes fs') cur ps = inr q.
Proof.
  intros Hadd. induction ps as [| c ps IH]; intros cur q Hwalk; [exact Hwalk |].
  cbn [walk] in *.
  destruct (node_at (nodes fs) cur) as [[|] |] eqn:Hcur; try discriminate.
  rewrite (node_at_dirs_added fs fs' cur Dir Hadd Hcur). apply IH. exact Hwalk.
Qed.

(** What was there is still there, as a file or as a directory. *)
Lemma exists_dirs_added (fs fs' : FS) (p : Path) :
  dirs_added fs fs' -> exists_ fs p = true -> exists_ fs' p = true.
Proof.
  intros Hadd. unfold exists_, resolve. destruct Hadd as (Hcwd & Hrest).
  rewrite Hcwd.
  destruct (walk (nodes fs) _ (parts p)) as [e | q] eqn:Hwalk; [discriminate |].
  rewrite (walk_dirs_added fs fs' _ (conj Hcwd Hrest) _ _ Hwalk).
  destruct (node_at (nodes fs) q) as [n |] eqn:Hq; [| discriminate].
  rewrite (node_at_dirs_added fs fs' q n (conj Hcwd Hrest) Hq). reflexivity.
Qed.

Section TilingPaths.
Context `{Builtins}.

Lemma tiling_validate_paths_dirs_added (a : Tiling.Namespace) (fs : FS) :
  dirs_added fs (snd (Tiling._validate_paths a fs)).
Proof.
  destruct (tiling_validate_paths_fs a fs) as [-> | ->];
    [apply dirs_added_refl | apply mkdir_dirs_added].
Qed.

(** The file [_validate_paths] misses first, by the message it raises. *)
Definition tiling_first_missing (a : Tiling.Namespace) (fs : FS) : option string :=
  if negb (exists_ fs (Path_of (Tiling.input a)))
  then Some ("Input file not found: " ++ Tiling.input a)
  else if negb (exists_ fs (Path_of (Tiling.hef a)))
  then Some ("HEF file not found: " ++ Tiling.hef a)
  else if negb (exists_ fs (Path_of (Tiling.postprocess_so a)))
  then Some ("Postprocess .so not found: " ++ Tiling.postprocess_so a)
  else None.

Lemma tiling_validate_paths_missing (a : Tiling.Namespace) (fs : FS) (msg : string) :
  tiling_first_missing a fs = Some msg ->
  Tiling._validate_paths a fs = (Raise (FileNotFoundError msg), fs).
Proof.
  unfold tiling_first_missing, Tiling._validate_paths.
  do 3 (destruct (negb (exists_ _ _)); [intros [= <-]; reflexivity |]).
  discriminate.
Qed.

Lemma tiling_main_missing (sys_argv : list string) (fs : FS) (parse_launch : Gst.Launcher)
    (a : Tiling.Namespace) (msg : string) :
  Tiling.parse_args (tl sys_argv) = Ok a ->
  tiling_first_missing a fs = Some msg ->
  Tiling.main sys_argv fs parse_launch =
    (Exit 1,
     [ print (nl ++ "[ERROR] " ++ msg);
       print (nl ++ "Please check the parameters and try again." ++ nl) ],
     fs).
Proof.
  intros Hparse Hmiss. unfold Tiling.main, Tiling.__init__. rewrite Hparse. cbn [Tiling.args].
  rewrite (tiling_validate_paths_missing a fs msg Hmiss). reflexivity.
Qed.

End TilingPaths.

Section PreservePaths.
Context `{Builtins}.

Lemma preserve_validate_paths_dirs_added (a : Preserve.Namespace) (fs : FS) :
  dirs_added fs (snd (Preserve._validate_paths a fs)).
Proof.
  destruct (preserve_validate_paths_fs a fs) as [-> | ->];
    [apply dirs_added_refl | apply mkdir_dirs_added].
Qed.

(** The file [_validate_paths] misses first, by the message it raises. *)
Definition preserve_first_missing (a : Preserve.Namespace) (fs : FS) : option string :=
  if negb (exists_ fs (Path_of (Preserve.input a)))
  then Some ("Input file not found: " ++ Preserve.input a)
  else if negb (exists_ fs (Path_of (Preserve.hef a)))
  then Some ("HEF file not found: " ++ Preserve.hef a)
  else if negb (exists_ fs (Path_of (Preserve.postprocess_so a)))
  then Some ("Postprocess .so not found: " ++ Preserve.postprocess_so a)
  else None.

Lemma preserve_validate_paths_missing (a : Preserve.Namespace) (fs : FS) (msg : string) :
  preserve_first_missing a fs = Some msg ->
  Preserve._validate_paths a fs = (Raise (FileNotFoundError msg), fs).
Proof.
  unfold preserve_first_missing, Preserve._validate_paths.
  do 3 (destruct (negb (exists_ _ _)); [intros [= <-]; reflexivity |]).
  discriminate.
Qed.

Lemma preserve_main_missing (sys_argv : list string) (fs : FS) (parse_launch : Gst.Launcher)
    (a : Preserve.Namespace) (msg : string) :
  Preserve.parse_args (tl sys_argv) = Ok a ->
  preserve_first_missing a fs = Some msg ->
  Preserve.main sys_argv fs parse_launch =
    (Exit 1,
     [ print (nl ++ "[ERROR] " ++ msg);
       print (nl ++ "Please check the file paths and try again." ++ nl) ],
     fs).
Proof.
  intros Hparse Hmiss. unfold Preserve.main, Preserve.__init__. rewrite Hparse. cbn [Preserve.args].
  rewrite (preserve_validate_paths_missing a fs msg Hmiss). reflexivity.
Qed.

End PreservePaths.

Section PathFacts.
Context `{Builtins}.

(** X9.  Path validation only ever adds directories.  Whether it passes
    or raises, in both scripts: the current directory stays, every file
    and directory that was there is still there unchanged, anything new
    is a directory, and a path that existed before exists after. *)
Theorem path_validation_only_adds_directories :
  (forall (a : Tiling.Namespace) (fs : FS),
     dirs_added fs (snd (Tiling._validate_paths a fs))
     /\ forall p, exists_ fs p = true ->
                  exists_ (snd (Tiling._validate_paths a fs)) p = true) /\
  (forall (a : Preserve.Namespace) (fs : FS),
     dirs_added fs (snd (Preserve._validate_paths a fs))
     /\ forall p, exists_ fs p = true ->
                  exists_ (snd (Preserve._validate_paths a fs)) p = true).
Proof.
  split; intros a fs.
  - pose proof (tiling_validate_paths_dirs_added a fs) as Hadd.
    split; [exact Hadd |]. intros p. apply exists_dirs_added, Hadd.
  - pose proof (preserve_validate_paths_dirs_added a fs) as Hadd.
    split; [exact Hadd |]. intros p. apply exists_dirs_added, Hadd.
Qed.

(** X10.  A missing file ends [main] before anything is made: when the
    command line is accepted and the input file, else the HEF file, else
    the postprocess library does not exist (checked in this order),
    [main] prints the error for that file and a hint, returns 1, leaves
    the file system as it was, and never asks for the graph, whatever
    the launcher would do. *)
Theorem missing_file_ends_main :
  (forall (sys_argv : list string) (fs : FS) (parse_launch : Gst.Launcher)
          (a : Tiling.Namespace) (msg : string),
     Tiling.parse_args (tl sys_argv) = Ok a ->
     tiling_first_missing a fs = Some msg ->
     Tiling.main sys_argv fs parse_launch =
       (Exit 1,
        [ print (nl ++ "[ERROR] " ++ msg);
          print (nl ++ "Please check the parameters and try again." ++ nl) ],
        fs)) /\
  (forall (sys_argv : list string) (fs : FS) (parse_launch : Gst.Launcher)
          (a : Preserve.Namespace) (msg : string),
     Preserve.parse_args (tl sys_argv) = Ok a ->
     preserve_first_missing a fs = Some msg ->
     Preserve.main sys_argv fs parse_launch =
       (Exit 1,
        [ print (nl ++ "[ERROR] " ++ msg);
          print (nl ++ "Please check the file paths and try again." ++ nl) ],
        fs)).
Proof. split; [exact tiling_main_missing | exact preserve_main_missing]. Qed.

End PathFacts.

Definition no_such_model : list string :=
  ["detection_tiling_pipeline.py"; "--input"; "in.mp4"; "--output"; "out/o.mp4";
   "--hef"; "missing.hef"; "--postprocess-so"; "missing.so"].

(** X10 with the model and the library both missing: the model is the
    one reported, and [out/] is not made. *)
Lemma missing_model_reported :
  Tiling.main (H := Sample.builtins) no_such_model Sample.fs0 (Sample.launch []) =
    (Exit 1,
     [ print (nl ++ "[ERROR] HEF file not found: missing.hef");
       print (nl ++ "Please check the parameters and try again." ++ nl) ],
     Sample.fs0).
Proof.
  apply (proj1 (missing_file_ends_main (H := Sample.builtins)) no_such_model Sample.fs0
           (Sample.launch [])
           (Tiling.set_postprocess_so "missing.so"
              (Tiling.set_hef "missing.hef" Sample.tiling_args))).
  - vm_compute. reflexivity.
  - vm_compute. reflexivity.
Defined.

(** X9 on the tiling example: the input is still there after [out/] was
    made. *)
Lemma input_still_there :
  exists_ (snd (Tiling._validate_paths Sample.tiling_args Sample.fs0)) (Path_of "in.mp4") = true.
Proof.
  apply (proj2 (proj1 path_validation_only_adds_directories Sample.tiling_args Sample.fs0)).
  vm_compute. reflexivity.
Defined.

(** ** argparse: command lines that are never accepted *)

Section ArgparseRejects.
Context {NS : Type}.
Implicit Types (a : Argparse.Action NS) (st : Argparse.state NS).

(** An item that ends the parse or leaves a string over: the [--]
    itself, and an option that prints the help. *)
Definition is_doom (it : string * Argparse.arg_class NS) : Prop :=
  match snd it with
  | Argparse.DashDash => True
  | Argparse.Optional (Some a) _ None => Argparse.kind a = Argparse.Help
  | _ => False
  end.

Definition doomed (items : list (string * Argparse.arg_class NS)) st : Prop :=
  Argparse.extras st = true \/ Exists is_doom items.

Lemma take_action_extras a arg st st' :
  Argparse.take_action a arg st = Ok st' -> Argparse.extras st' = Argparse.extras st.
Proof.
  unfold Argparse.take_action.
  destruct (Argparse.kind a) as [convert | f |]; destruct arg as [v |];
    try destruct (convert v); intros [= <-]; reflexivity.
Qed.

Lemma take_actions_extras (tuples : list (Argparse.Action NS * option string)) :
  forall st st',
    Argparse.take_actions tuples st = Ok st' -> Argparse.extras st' = Argparse.extras st.
Proof.
  induction tuples as [| [a arg] tuples IH]; intros st st'; cbn [Argparse.take_actions].
  - intros [= <-]. reflexivity.
  - destruct (Argparse.take_action a arg st) as [st1 | e1] eqn:Hone; cbn [bind];
      [| discriminate].
    intros Hrest. rewrite (IH st1 st' Hrest). exact (take_action_extras a arg st st1 Hone).
Qed.

Lemma take_actions_help (tuples : list (Argparse.Action NS * option string)) a arg :
  Argparse.kind a = Argparse.Help ->
  forall st, exists e, Argparse.take_actions (tuples ++ [(a, arg)]) st = Raise e.
Proof.
  intros Hhelp. induction tuples as [| [a0 arg0] tuples IH]; intros st;
    cbn [app Argparse.take_actions].
  - unfold Argparse.take_action. rewrite Hhelp. cbn [bind]. eauto.
  - destruct (Argparse.take_action a0 arg0 st) as [st1 | e1]; cbn [bind]; [apply IH | eauto].
Qed.

Lemma doomed_tail (s : string) (k : Argparse.arg_class NS)
    (rest : list (string * Argparse.arg_class NS)) st st1 :
  ~ is_doom (s, k) -> doomed ((s, k) :: rest) st ->
  Argparse.extras st1 = Argparse.extras st -> doomed rest st1.
Proof.
  intros Hk [Hex | Hex] Hst1; [left; congruence |].
  right. inversion Hex as [? ? Hhd | ? ? Htl]; subst; [contradiction | exact Htl].
Qed.

Lemma doomed_after_value (v : string) (rest : list (string * Argparse.arg_class NS)) st :
  doomed ((v, Argparse.Positional) :: rest) st -> doomed rest st.
Proof. intros Hd. apply (doomed_tail v Argparse.Positional rest st st (fun H => H) Hd eq_refl). Qed.

(** A parse that is doomed does not come to a good end: it raises, or a
    string is left over. *)
Lemma consume_doomed (m : list (string * Argparse.Action NS)) (n : nat) :
  forall items st st',
    (length items <= n)%nat -> doomed items st ->
    Argparse.consume m items st = Ok st' -> Argparse.extras st' = true.
Proof.
  induction n as [| n IH]; intros items st st' Hlen Hdoom.
  - destruct items; [| cbn in Hlen; lia]. cbn [Argparse.consume]. intros [= <-].
    destruct Hdoom as [Hex | Hex]; [exact Hex | inversion Hex].
  - destruct items as [| [s k] rest].
    { cbn [Argparse.consume]. intros [= <-].
      destruct Hdoom as [Hex | Hex]; [exact Hex | inversion Hex]. }
    cbn [length] in Hlen.
    assert (Hleave : Argparse.consume m rest (Argparse.leave_extra st) = Ok st' ->
                     Argparse.extras st' = true).
    { apply IH; [lia | left; reflexivity]. }
    assert (Hthen : forall tuples rest1,
              (length rest1 <= n)%nat ->
              (forall st1, Argparse.extras st1 = Argparse.extras st -> doomed rest1 st1) ->
              bind (Argparse.take_actions tuples st) (Argparse.consume m rest1) = Ok st' ->
              Argparse.extras st' = true).
    { intros tuples rest1 Hlen1 Hd.
      destruct (Argparse.take_actions tuples st) as [st1 | e1] eqn:Htake; cbn [bind];
        [| discriminate].
      apply IH; [exact Hlen1 |]. apply Hd. exact (take_actions_extras tuples st st1 Htake). }
    destruct k as [| [a |] option_string explicit_arg |]; cbn [Argparse.consume];
      try exact Hleave.
    destruct explicit_arg as [ex |].
    + assert (Hd : forall st1, Argparse.extras st1 = Argparse.extras st -> doomed rest st1).
      { intros st1 Hst1. refine (doomed_tail _ _ _ _ _ _ Hdoom Hst1).
        unfold is_doom. cbn [snd]. exact (fun H => H). }
      destruct (Argparse.clump m a option_string ex) as [[tuples [a' |]] |];
        [| apply Hthen; [lia | exact Hd] | discriminate].
      destruct (Argparse.kind a') eqn:Hkind; try (apply Hthen; [lia | exact Hd]).
      destruct rest as [| [v [| ? ? ? |]] rest']; try discriminate.
      cbn [length] in Hlen. apply Hthen; [lia |].
      intros st1 Hst1. apply doomed_after_value with (v := v). apply Hd, Hst1.
    + destruct (Argparse.kind a) eqn:Hkind.
      * assert (Hd : forall st1, Argparse.extras st1 = Argparse.extras st -> doomed rest st1).
        { intros st1 Hst1. refine (doomed_tail _ _ _ _ _ _ Hdoom Hst1).
          unfold is_doom. cbn [snd]. congruence. }
        destruct rest as [| [v [| ? ? ? |]] rest']; try discriminate.
        cbn [length] in Hlen. apply Hthen; [lia |].
        intros st1 Hst1. apply doomed_after_value with (v := v). apply Hd, Hst1.
      * apply Hthen; [lia |].
        intros st1 Hst1. refine (doomed_tail _ _ _ _ _ _ Hdoom Hst1).
        unfold is_doom. cbn [snd]. congruence.
      * destruct (take_actions_help [] a None Hkind st) as [e He].
        cbn [app] in *. rewrite He. discriminate.
Qed.

Lemma parse_args_doomed (parser : list (Argparse.Action NS)) (defaults : NS)
    (argv : list string) (items : list (string * Argparse.arg_class NS)) :
  Argparse.classify parser argv = Some items ->
  (exists it, In it items /\ (is_doom it \/ (it = hd it items /\ snd it = Argparse.Positional))) ->
  exists e, Argparse.parse_args parser defaults argv = Raise e.
Proof.
  intros Hitems (it & Hin & Hit). unfold Argparse.parse_args. rewrite Hitems.
  set (st0 := {| Argparse.namespace := defaults; Argparse.seen := [];
                 Argparse.extras := false |}).
  destruct (Argparse.consume (Argparse.option_string_actions parser) items st0)
    as [st | e] eqn:Hcons; cbn [bind]; [| eauto].
  assert (Hextras : Argparse.extras st = true).
  { destruct Hit as [Hdoom | [Hhd Hpos]].
    - refine (consume_doomed _ (length items) items st0 st (le_n _) _ Hcons).
      right. apply List.Exists_exists. exists it. split; assumption.
    - destruct items as [| [s k] rest]; [destruct Hin |].
      cbn [hd] in Hhd. subst it. cbn [snd] in Hpos. subst k.
      cbn [Argparse.consume] in Hcons.
      refine (consume_doomed _ (length rest) rest (Argparse.leave_extra st0) st (le_n _)
                _ Hcons).
      left. reflexivity. }
  rewrite Hextras. destruct (Argparse.missing_required parser st); eauto.
Qed.

(** A string that does not begin with a dash is an argument. *)
Lemma parse_optional_plain (parser : list (Argparse.Action NS)) (s : string) :
  startswith s "-" = false -> Argparse.parse_optional parser s = Some Argparse.Positional.
Proof.
  unfold startswith, Argparse.parse_optional. destruct s as [| c s]; [reflexivity |].
  cbn [String.prefix]. destruct (ascii_dec "-" c) as [<- | Hne].
  - destruct s; discriminate.
  - intros _. destruct (Ascii.eqb c Argparse.dash) eqn:Hc; [| reflexivity].
    apply Ascii.eqb_eq in Hc. subst c. contradiction.
Qed.

(** The words that call for the help of a parser. *)
Definition calls_help (parser : list (Argparse.Action NS)) (s : string) : Prop :=
  exists a, Argparse.lookup_option (Argparse.option_string_actions parser) s = Some a
            /\ Argparse.kind a = Argparse.Help
            /\ startswith s "-" = true.

Lemma parse_optional_help (parser : list (Argparse.Action NS)) (s : string) :
  calls_help parser s ->
  exists a, Argparse.parse_optional parser s = Some (Argparse.Optional (Some a) s None)
            /\ Argparse.kind a = Argparse.Help.
Proof.
  intros (a & Hlook & Hkind & Hdash). exists a. split; [| exact Hkind].
  unfold Argparse.parse_optional. unfold startswith in Hdash.
  destruct s as [| c s]; [discriminate |]. cbn [String.prefix] in Hdash.
  destruct (ascii_dec "-" c) as [<- | Hne]; [| discriminate].
  change (Ascii.eqb "-" Argparse.dash) with true. cbn [negb]. rewrite Hlook. reflexivity.
Qed.

Lemma classify_help (parser : list (Argparse.Action NS)) (argv : list string) :
  forall items,
    Exists (calls_help parser) argv ->
    Argparse.classify parser argv = Some items ->
    Exists is_doom items.
Proof.
  induction argv as [| s argv IH]; intros items Hex; [inversion Hex |].
  cbn [Argparse.classify]. destruct (String.eqb s "--").
  - intros [= <-]. left. exact I.
  - destruct (Argparse.parse_optional parser s) as [k |] eqn:Hk; [| discriminate].
    destruct (Argparse.classify parser argv) as [ks |] eqn:Hks; [| discriminate].
    intros [= <-]. inversion Hex as [? ? Hhd | ? ? Htl]; subst.
    + destruct (parse_optional_help parser s Hhd) as (a & Hopt & Hkind).
      rewrite Hopt in Hk. injection Hk as <-. left. exact Hkind.
    + right. exact (IH ks Htl eq_refl).
Qed.

(** A command line with a call for help in it is not accepted. *)
Lemma parse_args_help (parser : list (Argparse.Action NS)) (defaults : NS)
    (argv : list string) :
  Exists (calls_help parser) argv ->
  exists e, Argparse.parse_args parser defaults argv = Raise e.
Proof.
  intros Hex.
  destruct (Argparse.classify parser argv) as [items |] eqn:Hitems.
  - pose proof (classify_help parser argv items Hex Hitems) as Hdoom.
    apply List.Exists_exists in Hdoom as (it & Hin & Hit).
    apply (parse_args_doomed parser defaults argv items Hitems). eauto.
  - unfold Argparse.parse_args. rewrite Hitems. eauto.
Qed.

(** A command line that begins with an argument is not accepted by a
    parser without positional arguments. *)
Lemma parse_args_stray (parser : list (Argparse.Action NS)) (defaults : NS)
    (w : string) (rest : list string) :
  startswith w "-" = false ->
  exists e, Argparse.parse_args parser defaults (w :: rest) = Raise e.
Proof.
  intros Hw.
  destruct (Argparse.classify parser (w :: rest)) as [items |] eqn:Hitems.
  - apply (parse_args_doomed parser defaults (w :: rest) items Hitems).
    cbn [Argparse.classify] in Hitems.
    destruct (String.eqb w "--") eqn:Hdd.
    { apply String.eqb_eq in Hdd. subst w. discriminate. }
    rewrite (parse_optional_plain parser w Hw) in Hitems.
    destruct (Argparse.classify parser rest) as [ks |]; [| discriminate].
    injection Hitems as <-. exists (w, Argparse.Positional).
    split; [left; reflexivity | right; split; reflexivity].
  - unfold Argparse.parse_args. rewrite Hitems. eauto.
Qed.

End ArgparseRejects.

Section CommandLines.
Context `{Builtins}.

Lemma tiling_main_rejected (sys_argv : list string) (fs : FS) (parse_launch : Gst.Launcher)
    (e : exn) :
  Tiling.parse_args (tl sys_argv) = Raise e ->
  exists c, (c = 0 \/ c = 2) /\ Tiling.main sys_argv fs parse_launch = (Exit c, [], fs).
Proof.
  intros Hparse.
  pose proof (parse_args_exits (fun _ => True) Tiling.parser Tiling.defaults (tl sys_argv)
                e Hparse) as Hexit.
  unfold Tiling.main. rewrite Hparse.
  destruct Hexit as [-> | ->]; eexists; (split; [| reflexivity]); auto.
Qed.

Lemma preserve_main_rejected (sys_argv : list string) (fs : FS)
    (parse_launch : Gst.Launcher) (e : exn) :
  Preserve.parse_args (tl sys_argv) = Raise e ->
  exists c, (c = 0 \/ c = 2) /\ Preserve.main sys_argv fs parse_launch = (Exit c, [], fs).
Proof.
  intros Hparse.
  pose proof (parse_args_exits (fun _ => True) Preserve.parser Preserve.defaults
                (tl sys_argv) e Hparse) as Hexit.
  unfold Preserve.main. rewrite Hparse.
  destruct Hexit as [-> | ->]; eexists; (split; [| reflexivity]); auto.
Qed.

Lemma tiling_calls_help (s : string) :
  s = "-h" \/ s = "--help" -> calls_help Tiling.parser s.
Proof. intros [-> | ->]; exists Argparse.help_action; repeat split. Qed.

Lemma preserve_calls_help (s : string) :
  s = "-h" \/ s = "--help" -> calls_help Preserve.parser s.
Proof. intros [-> | ->]; exists Argparse.help_action; repeat split. Qed.

Lemma help_among (P : string -> Prop) (argv : list string) :
  (forall s, s = "-h" \/ s = "--help" -> P s) ->
  In "-h" argv \/ In "--help" argv -> Exists P argv.
Proof.
  intros HP [Hin | Hin]; apply List.Exists_exists; eexists; (split; [exact Hin |]);
    apply HP; auto.
Qed.

(** X11.  A command line with [-h] or [--help] among its words never
    runs anything: [main] ends with status 0 (the help was printed) or 2
    (argparse found an error first), without output of its own, without
    touching the file system and without asking for the graph. *)
Theorem help_never_runs_the_pipeline :
  (forall (sys_argv : list string) (fs : FS) (parse_launch : Gst.Launcher),
     In "-h" (tl sys_argv) \/ In "--help" (tl sys_argv) ->
     exists c, (c = 0 \/ c = 2) /\ Tiling.main sys_argv fs parse_launch = (Exit c, [], fs)) /\
  (forall (sys_argv : list string) (fs : FS) (parse_launch : Gst.Launcher),
     In "-h" (tl sys_argv) \/ In "--help" (tl sys_argv) ->
     exists c, (c = 0 \/ c = 2) /\ Preserve.main sys_argv fs parse_launch = (Exit c, [], fs)).
Proof.
  split; intros sys_argv fs parse_launch Hhelp.
  - destruct (parse_args_help Tiling.parser Tiling.defaults (tl sys_argv)
                (help_among _ _ tiling_calls_help Hhelp)) as [e He].
    exact (tiling_main_rejected sys_argv fs parse_launch e He).
  - destruct (parse_args_help Preserve.parser Preserve.defaults (tl sys_argv)
                (help_among _ _ preserve_calls_help Hhelp)) as [e He].
    exact (preserve_main_rejected sys_argv fs parse_launch e He).
Qed.

(** X12.  The scripts take no positional arguments: a command line whose
    first word does not begin with a dash is never accepted, whatever
    follows.  [main] ends with status 2, or with 0 when a call for help
    follows, and does nothing else. *)
Theorem first_word_must_be_an_option :
  (forall (prog w : string) (rest : list string) (fs : FS) (parse_launch : Gst.Launcher),
     startswith w "-" = false ->
     exists c, (c = 0 \/ c = 2)
               /\ Tiling.main (prog :: w :: rest) fs parse_launch = (Exit c, [], fs)) /\
  (forall (prog w : string) (rest : list string) (fs : FS) (parse_launch : Gst.Launcher),
     startswith w "-" = false ->
     exists c, (c = 0 \/ c = 2)
               /\ Preserve.main (prog :: w :: rest) fs parse_launch = (Exit c, [], fs)).
Proof.
  split; intros prog w rest fs parse_launch Hw.
  - destruct (parse_args_stray Tiling.parser Tiling.defaults w rest Hw) as [e He].
    exact (tiling_main_rejected (prog :: w :: rest) fs parse_launch e He).
  - destruct (parse_args_stray Preserve.parser Preserve.defaults w rest Hw) as [e He].
    exact (preserve_main_rejected (prog :: w :: rest) fs parse_launch e He).
Qed.

End CommandLines.

(** X11 on [--input in.mp4 --help]: the help wins over the missing
    [--output]. *)
Lemma help_after_input :
  exists c, (c = 0 \/ c = 2)
            /\ Tiling.main (H := Sample.builtins)
                 ["detection_tiling_pipeline.py"; "--input"; "in.mp4"; "--help"]
                 Sample.fs0 (Sample.launch []) = (Exit c, [], Sample.fs0).
Proof.
  apply (proj1 (help_never_runs_the_pipeline (H := Sample.builtins))).
  right. right. right. left. reflexivity.
Defined.

(** X12 on a file name given without [--input]. *)
Lemma input_without_its_option :
  exists c, (c = 0 \/ c = 2)
            /\ Preserve.main (H := Sample.builtins)
                 ["detection_preserve_resolution_pipeline.py"; "in.mp4"; "--output"; "o.mp4"]
                 Sample.fs0 (Sample.launch []) = (Exit c, [], Sample.fs0).
Proof.
  apply (proj2 (first_word_must_be_an_option (H := Sample.builtins))).
  reflexivity.
Defined.

(** ** The command line with the two required options only *)

Lemma plain_not_dashdash (s : string) : startswith s "-" = false -> String.eqb s "--" = false.
Proof.
  intros Hs. destruct (String.eqb s "--") eqn:E; [| reflexivity].
  apply String.eqb_eq in E. subst s. discriminate.
Qed.

Section Defaults.
Context `{Builtins}.

Lemma tiling_input_output (i o : string) :
  startswith i "-" = false -> startswith o "-" = false ->
  Tiling.parse_args ["--input"; i; "--output"; o] =
    Ok (Tiling.set_output o (Tiling.set_input i Tiling.defaults))
  /\ Tiling.parse_args ["--output"; o; "--input"; i] =
     Ok (Tiling.set_output o (Tiling.set_input i Tiling.defaults)).
Proof.
  intros Hi Ho. unfold Tiling.parse_args, Argparse.parse_args.
  cbn [Argparse.classify].
  change (String.eqb "--input" "--") with false.
  change (String.eqb "--output" "--") with false.
  rewrite (plain_not_dashdash i Hi), (plain_not_dashdash o Ho).
  rewrite (parse_optional_plain Tiling.parser i Hi), (parse_optional_plain Tiling.parser o Ho).
  split; reflexivity.
Qed.

Lemma preserve_input_output (i o : string) :
  startswith i "-" = false -> startswith o "-" = false ->
  Preserve.parse_args ["--input"; i; "--output"; o] =
    Ok (Preserve.set_output o (Preserve.set_input i Preserve.defaults))
  /\ Preserve.parse_args ["--output"; o; "--input"; i] =
     Ok (Preserve.set_output o (Preserve.set_input i Preserve.defaults)).
Proof.
  intros Hi Ho. unfold Preserve.parse_args, Argparse.parse_args.
  cbn [Argparse.classify].
  change (String.eqb "--input" "--") with false.
  change (String.eqb "--output" "--") with false.
  rewrite (plain_not_dashdash i Hi), (plain_not_dashdash o Ho).
  rewrite (parse_optional_plain Preserve.parser i Hi),
    (parse_optional_plain Preserve.parser o Ho).
  split; reflexivity.
Qed.

Lemma tiling_defaults_valid (i o : string) :
  Tiling._validate_parameters (Tiling.set_output o (Tiling.set_input i Tiling.defaults)) =
  Ok tt.
Proof. vm_compute. reflexivity. Qed.

(** X13.  [--input i --output o], in either order and for values that do
    not begin with a dash, is accepted by both scripts: the two values
    are stored as they are written and everything else is the default of
    the configuration block; and in the tiling script these defaults
    pass parameter validation. *)
Theorem input_and_output_suffice :
  (forall i o : string,
     startswith i "-" = false -> startswith o "-" = false ->
     Tiling.parse_args ["--input"; i; "--output"; o] =
       Ok (Tiling.set_output o (Tiling.set_input i Tiling.defaults))
     /\ Tiling.parse_args ["--output"; o; "--input"; i] =
        Ok (Tiling.set_output o (Tiling.set_input i Tiling.defaults))
     /\ Tiling._validate_parameters
          (Tiling.set_output o (Tiling.set_input i Tiling.defaults)) = Ok tt) /\
  (forall i o : string,
     startswith i "-" = false -> startswith o "-" = false ->
     Preserve.parse_args ["--input"; i; "--output"; o] =
       Ok (Preserve.set_output o (Preserve.set_input i Preserve.defaults))
     /\ Preserve.parse_args ["--output"; o; "--input"; i] =
        Ok (Preserve.set_output o (Preserve.set_input i Preserve.defaults))).
Proof.
  split; intros i o Hi Ho.
  - destruct (tiling_input_output i o Hi Ho) as [H1 H2].
    split; [exact H1 |]. split; [exact H2 | apply tiling_defaults_valid].
  - exact (preserve_input_output i o Hi Ho).
Qed.

End Defaults.

(** X13 on [--input in.mp4 --output o.mp4]: a 2 x 2 grid with an overlap
    of 0.2, tiles of 640 x 640, 4000 kbps. *)
Lemma defaults_of_the_tiling_script :
  exists ns,
    Tiling.parse_args (H := Sample.builtins) ["--input"; "in.mp4"; "--output"; "o.mp4"] = Ok ns
    /\ (Tiling.tiles_x ns, Tiling.tiles_y ns, Tiling.tile_width ns, Tiling.tile_height ns,
        Tiling.bitrate ns, Tiling.tiling_mode ns, Tiling.debug ns) =
       (2, 2, 640, 640, 4000, 0, false)
    /\ Tiling.overlap_x ns = Tiling.OVERLAP_X
    /\ Tiling.hef ns = Tiling.DEFAULT_HEF_PATH.
Proof.
  destruct (proj1 (input_and_output_suffice (H := Sample.builtins)) "in.mp4" "o.mp4"
              eq_refl eq_refl) as (Hparse & _ & _).
  eexists. split; [exact Hparse |]. repeat split.
Defined.

(** ** The pipeline object once it is constructed *)

(** A file name without a slash in it. *)
Fixpoint no_slash (s : string) : bool :=
  match s with
  | EmptyString => true
  | String c s' => negb (Ascii.eqb c slash) && no_slash s'
  end.

Lemma split_on_no_slash (s : string) :
  forall cur, no_slash s = true ->
    split_on slash cur s = [string_of_list_ascii (rev cur ++ list_ascii_of_string s)].
Proof.
  induction s as [| c s IH]; intros cur Hs; cbn [split_on list_ascii_of_string].
  - rewrite app_nil_r. reflexivity.
  - cbn [no_slash] in Hs. apply andb_true_iff in Hs as [Hc Hs].
    apply negb_true_iff in Hc. rewrite Hc, (IH (c :: cur) Hs).
    cbn [rev]. rewrite <- app_assoc. reflexivity.
Qed.

Lemma root_of_no_slash (s : string) : no_slash s = true -> root_of s = Relative.
Proof.
  destruct s as [| a [| b [| c s]]]; cbn [no_slash root_of]; [reflexivity | | |];
    intros Hs; apply andb_true_iff in Hs as [Ha _]; apply negb_true_iff in Ha;
    rewrite Ha; reflexivity.
Qed.

(** The directory of a file name without a slash is [Path('.')]. *)
Lemma parent_no_slash (s : string) : no_slash s = true -> parent (Path_of s) = Path_of ".".
Proof.
  intros Hs. unfold parent, Path_of. cbn [root parts].
  rewrite (root_of_no_slash s Hs), (split_on_no_slash s [] Hs).
  cbn [List.filter]. destruct (is_part _); reflexivity.
Qed.

Section TilingConstructed.
Context `{Builtins}.

Lemma tiling_validate_paths_ok (a : Tiling.Namespace) (fs : FS) :
  fst (Tiling._validate_paths a fs) = Ok tt ->
  tiling_files_exist a fs
  /\ tiling_files_exist a (snd (Tiling._validate_paths a fs))
  /\ (tiling_output_dir a = Path_of "."
      \/ is_dir (snd (Tiling._validate_paths a fs)) (tiling_output_dir a) = true).
Proof.
  intros Hok.
  assert (Hfiles : tiling_files_exist a fs).
  { unfold Tiling._validate_paths in Hok. unfold tiling_files_exist.
    destruct (exists_ fs (Path_of (Tiling.input a))); [| discriminate].
    destruct (exists_ fs (Path_of (Tiling.hef a))); [| discriminate].
    destruct (exists_ fs (Path_of (Tiling.postprocess_so a))); [| discriminate].
    repeat split. }
  split; [exact Hfiles |]. split.
  - pose proof (tiling_validate_paths_dirs_added a fs) as Hadd.
    destruct Hfiles as (Hin & Hhef & Hso).
    repeat split; apply (exists_dirs_added fs _ _ Hadd); assumption.
  - rewrite (tiling_validate_paths_mkdir a fs Hfiles) in Hok |- *.
    destruct (bool_decide (tiling_output_dir a = Path_of ".")) eqn:Hdot.
    + left. apply bool_decide_eq_true_1 in Hdot. exact Hdot.
    + right. destruct (mkdir fs (tiling_output_dir a)) as [[[] | e] fs'] eqn:Hmk;
        [| discriminate].
      cbn [snd]. exact (mkdir_is_dir _ _ _ Hmk).
Qed.

Lemma tiling_validate_paths_no_slash (a : Tiling.Namespace) (fs : FS) :
  no_slash (Tiling.output a) = true ->
  snd (Tiling._validate_paths a fs) = fs
  /\ (tiling_files_exist a fs -> Tiling._validate_paths a fs = (Ok tt, fs)).
Proof.
  intros Hout. pose proof (parent_no_slash (Tiling.output a) Hout) as Hdir.
  split.
  - unfold Tiling._validate_paths.
    do 3 (destruct (negb (exists_ _ _)); [reflexivity |]).
    rewrite Hdir, bool_decide_eq_true_2 by reflexivity. reflexivity.
  - intros Hfiles. rewrite (tiling_validate_paths_mkdir a fs Hfiles).
    unfold tiling_output_dir. rewrite Hdir, bool_decide_eq_true_2 by reflexivity. reflexivity.
Qed.

End TilingConstructed.

Section PreserveConstructed.
Context `{Builtins}.

Lemma preserve_validate_paths_ok (a : Preserve.Namespace) (fs : FS) :
  fst (Preserve._validate_paths a fs) = Ok tt ->
  preserve_files_exist a fs
  /\ preserve_files_exist a (snd (Preserve._validate_paths a fs))
  /\ (preserve_output_dir a = Path_of "."
      \/ is_dir (snd (Preserve._validate_paths a fs)) (preserve_output_dir a) = true).
Proof.
  intros Hok.
  assert (Hfiles : preserve_files_exist a fs).
  { unfold Preserve._validate_paths in Hok. unfold preserve_files_exist.
    destruct (exists_ fs (Path_of (Preserve.input a))); [| discriminate].
    destruct (exists_ fs (Path_of (Preserve.hef a))); [| discriminate].
    destruct (exists_ fs (Path_of (Preserve.postprocess_so a))); [| discriminate].
    repeat split. }
  split; [exact Hfiles |]. split.
  - pose proof (preserve_validate_paths_dirs_added a fs) as Hadd.
    destruct Hfiles as (Hin & Hhef & Hso).
    repeat split; apply (exists_dirs_added fs _ _ Hadd); assumption.
  - rewrite (preserve_validate_paths_mkdir a fs Hfiles) in Hok |- *.
    destruct (bool_decide (preserve_output_dir a = Path_of ".")) eqn:Hdot.
    + left. apply bool_decide_eq_true_1 in Hdot. exact Hdot.
    + right. destruct (mkdir fs (preserve_output_dir a)) as [[[] | e] fs'] eqn:Hmk;
        [| discriminate].
      cbn [snd]. exact (mkdir_is_dir _ _ _ Hmk).
Qed.

Lemma preserve_validate_paths_no_slash (a : Preserve.Namespace) (fs : FS) :
  no_slash (Preserve.output a) = true ->
  snd (Preserve._validate_paths a fs) = fs
  /\ (preserve_files_exist a fs -> Preserve._validate_paths a fs = (Ok tt, fs)).
Proof.
  intros Hout. pose proof (parent_no_slash (Preserve.output a) Hout) as Hdir.
  split.
  - unfold Preserve._validate_paths.
    do 3 (destruct (negb (exists_ _ _)); [reflexivity |]).
    rewrite Hdir, bool_decide_eq_true_2 by reflexivity. reflexivity.
  - intros Hfiles. rewrite (preserve_validate_paths_mkdir a fs Hfiles).
    unfold preserve_output_dir. rewrite Hdir, bool_decide_eq_true_2 by reflexivity. reflexivity.
Qed.

End PreserveConstructed.

Section Constructed.
Context `{Builtins}.

(** X14.  A pipeline object that was constructed is checked.  When
    [__init__] returns, the object holds the arguments, no pipeline, no
    main loop and a frame counter of 0; the input, the model and the
    postprocess library existed before and exist after; the directory of
    the output is [Path('.')] or a directory now; and, in the tiling
    script, no constraint of [_validate_parameters] is violated: the two
    tile counts are between 1 and 20 (at most 400 tiles a frame) and the
    tiling mode is 0 or 1. *)
Theorem constructed_pipeline_is_checked :
  (forall (a : Tiling.Namespace) (fs : FS) (self : Tiling.Self),
     fst (Tiling.__init__ a fs) = Ok self ->
     self = {| Tiling.args := a; Tiling.pipeline := None; Tiling.loop := false;
               Tiling.frame_count := 0 |}
     /\ tiling_files_exist a fs
     /\ tiling_files_exist a (snd (Tiling.__init__ a fs))
     /\ (tiling_output_dir a = Path_of "."
         \/ is_dir (snd (Tiling.__init__ a fs)) (tiling_output_dir a) = true)
     /\ (forall c, violates a c = false)
     /\ 1 <= Tiling.tiles_x a <= 20 /\ 1 <= Tiling.tiles_y a <= 20
     /\ 1 <= Tiling.tiles_x a * Tiling.tiles_y a <= 400
     /\ (Tiling.tiling_mode a = 0 \/ Tiling.tiling_mode a = 1)) /\
  (forall (a : Preserve.Namespace) (fs : FS) (self : Preserve.Self),
     fst (Preserve.__init__ a fs) = Ok self ->
     self = {| Preserve.args := a; Preserve.pipeline := None; Preserve.loop := false;
               Preserve.frame_count := 0 |}
     /\ preserve_files_exist a fs
     /\ preserve_files_exist a (snd (Preserve.__init__ a fs))
     /\ (preserve_output_dir a = Path_of "."
         \/ is_dir (snd (Preserve.__init__ a fs)) (preserve_output_dir a) = true)).
Proof.
  split; intros a fs self.
  - unfold Tiling.__init__. cbn [Tiling.args].
    pose proof (tiling_validate_paths_ok a fs) as Hpaths.
    destruct (Tiling._validate_paths a fs) as [[[] | e] fs'] eqn:Hvp;
      cbn [fst snd] in Hpaths |- *; [| discriminate].
    destruct (Tiling._validate_parameters a) as [[] | e] eqn:Hpar; cbn [fst snd];
      [| discriminate].
    intros [= <-]. destruct (Hpaths eq_refl) as (H1 & H2 & H3).
    pose proof (proj1 (validate_parameters_ok a) Hpar) as Hall.
    pose proof (proj1 (outside_1_20_spec _) (Hall TilesX)) as Hx.
    pose proof (proj1 (outside_1_20_spec _) (Hall TilesY)) as Hy.
    pose proof (proj1 (not_in_0_1_spec _) (Hall TilingMode)) as Hm.
    repeat (split; [first [reflexivity | assumption | lia | nia] |]). exact Hm.
  - unfold Preserve.__init__. cbn [Preserve.args].
    pose proof (preserve_validate_paths_ok a fs) as Hpaths.
    destruct (Preserve._validate_paths a fs) as [[[] | e] fs'] eqn:Hvp;
      cbn [fst snd] in Hpaths |- *; [| discriminate].
    intros [= <-]. destruct (Hpaths eq_refl) as (H1 & H2 & H3).
    repeat (split; [first [reflexivity | assumption] |]). exact H3.
Qed.

(** X15.  An output file name without a slash makes path validation
    create nothing: whatever it finds, it leaves the file system as it
    was, and with the three files in place it passes. *)
Theorem output_without_directory_creates_nothing :
  (forall (a : Tiling.Namespace) (fs : FS),
     no_slash (Tiling.output a) = true ->
     snd (Tiling._validate_paths a fs) = fs
     /\ (tiling_files_exist a fs -> Tiling._validate_paths a fs = (Ok tt, fs))) /\
  (forall (a : Preserve.Namespace) (fs : FS),
     no_slash (Preserve.output a) = true ->
     snd (Preserve._validate_paths a fs) = fs
     /\ (preserve_files_exist a fs -> Preserve._validate_paths a fs = (Ok tt, fs))).
Proof.
  split; intros a fs Hout.
  - exact (tiling_validate_paths_no_slash a fs Hout).
  - exact (preserve_validate_paths_no_slash a fs Hout).
Qed.

End Constructed.

(** X14 on the tiling example: the object is made, with [out/] a
    directory afterwards. *)
Lemma example_is_constructed :
  fst (Tiling.__init__ (H := Sample.builtins) Sample.tiling_args Sample.fs0) =
    Ok Sample.tiling_self
  /\ is_dir (snd (Tiling.__init__ (H := Sample.builtins) Sample.tiling_args Sample.fs0))
       (Path_of "out") = true
  /\ 1 <= Tiling.tiles_x Sample.tiling_args * Tiling.tiles_y Sample.tiling_args <= 400.
Proof.
  assert (Hinit : fst (Tiling.__init__ (H := Sample.builtins) Sample.tiling_args Sample.fs0) =
                  Ok Sample.tiling_self) by (vm_compute; reflexivity).
  destruct (proj1 (constructed_pipeline_is_checked (H := Sample.builtins))
              Sample.tiling_args Sample.fs0 Sample.tiling_self Hinit)
    as (_ & _ & _ & Hdir & _ & _ & _ & Htiles & _).
  split; [exact Hinit |]. split; [| exact Htiles].
  destruct Hdir as [Hdot | Hdir]; [| exact Hdir].
  vm_compute in Hdot. discriminate.
Defined.

(** X15 on [--output o.mp4]. *)
Lemma output_beside_the_input :
  Tiling._validate_paths (Tiling.set_output "o.mp4" Sample.tiling_args) Sample.fs0 =
  (Ok tt, Sample.fs0).
Proof.
  apply (proj1 output_without_directory_creates_nothing
           (Tiling.set_output "o.mp4" Sample.tiling_args) Sample.fs0 eq_refl).
  repeat split; vm_compute; reflexivity.
Defined.

(** ** From the command line to the final report *)

Section TilingEndToEnd.
Context `{Builtins}.


End TilingEndToEnd.

Section PreserveEndToEnd.
Context `{Builtins}.


End PreserveEndToEnd.

Section EndToEnd.
Context `{Builtins}.


End EndToEnd.


